(** * go-pmtiles: the tile resolver, the archive assembler and the extractor

    A shallow embedding of [pmtiles/convert.go].  Machine integers are
    integers of [Z] with their wrap-around written out, byte slices are
    lists of [Byte.byte], the content-location map is a [gmap] keyed by the
    digest string, and code that can return an error or panic returns a
    [result]. *)

From Stdlib Require Import ZArith List Lia Bool Sorting.Sorted.
From stdpp Require Import gmap strings list fin_maps sorting.

Open Scope Z_scope.

(** ** Machine integers *)

Definition u8 (n : Z) : Z := n mod 2 ^ 8.
Definition u32 (n : Z) : Z := n mod 2 ^ 32.
Definition u64 (n : Z) : Z := n mod 2 ^ 64.

(** [math.MaxUint32] *)
Definition MaxUint32 : Z := 2 ^ 32 - 1.

(** [len(s)] of a slice, as an [int]. *)
Definition len {A : Type} (s : list A) : Z := Z.of_nat (length s).

(** ** Results of fallible code *)

(** The two run-time panics of the file: the explicit [panic] of
    [AddTileIsNew] and Go's index-out-of-range panic. *)
Inductive panic : Type :=
| RunLengthExceeded   (* panic("Maximum 32-bit run length exceeded") *)
| IndexOutOfRange.    (* runtime error: index out of range *)

(** One constructor for each [fmt.Errorf] / [errors.New] site that the
    modelled functions can reach. *)
Inductive error : Type :=
| ErrOpenFile            (* "Failed to open file: %w" *)
| ErrAlreadyV3           (* "archive is already the latest PMTiles version (3)" *)
| ErrReadFirst4          (* "Failed to read first 4, %w" *)
| ErrV2HeaderJSON        (* "Failed to convert v2 to header JSON, %w" *)
| ErrSeekOffset          (* "Failed to seek at offset %d, %w" *)
| ErrReadBuffer          (* "Failed to read buffer, %w" *)
| ErrWriteTempfile       (* "Failed to write to tempfile, %w" *)
| ErrDatabaseConnection  (* "Failed to create database connection, %w" *)
| ErrCreateStatement     (* "Failed to create SQL statement, %w" / "Failed to create statement, %w" *)
| ErrStepStatement       (* "Failed to step statement, %w" *)
| ErrMbtilesHeaderJSON   (* "Failed to convert MBTiles to header JSON, %w" *)
| ErrNoTiles             (* "no tiles in MBTiles archive" *)
| ErrMissingRow          (* "Missing row" *)
| ErrCreateOutput        (* "Failed to create %s, %w" *)
| ErrMarshalMetadata     (* "Failed to marshal metadata, %w" *)
| ErrWriteOutfile        (* "Failed to write header to outfile, %w" *)
| ErrSeekTempfile        (* "Failed to seek to start of tempfile, %w" *)
| ErrCopyOutfile         (* "Failed to copy data to outfile, %w" *)
| ErrReadHeader          (* "Failed to read header: %w" *)
| ErrParseHeader         (* "Failed to parse header: %w" *)
| ErrDirectoryStructure  (* "Failed to create directory structure" *)
| ErrReadMetadata        (* "Failed to read metadata: %w" *)
| ErrWriteMetadata       (* "Failed to write metadata.json: %w" *)
| ErrIterateTiles        (* "Failed to iterate through tiles: %w" *)
| ErrOpenReader          (* "Failed to open file for reading: %w" *)
| ErrReadTileData        (* "Failed to read tile data: %w" *)
| ErrContextCanceled.    (* ctx.Err() *)

Inductive result (A : Type) : Type :=
| Ok (a : A)
| Err (e : error)
| Crash (p : panic).
Arguments Ok {A} a.
Arguments Err {A} e.
Arguments Crash {A} p.

(** ** Data model *)

(** [EntryV3], built positionally in the source as
    [EntryV3{tileID, offset, length, runLength}]. *)
Record EntryV3 : Type := mkEntryV3 {
  TileID : Z;      (* uint64 *)
  Offset : Z;      (* uint64 *)
  Length : Z;      (* uint32 *)
  RunLength : Z    (* uint32 *)
}.

Record offsetLen : Type := mkOffsetLen {
  olOffset : Z;    (* uint64 *)
  olLength : Z     (* uint32 *)
}.

(** The resolver.  Its scratch fields [compressor], [compressTmp] and
    [hashfunc] are reset before each use; they are the two functions
    [gzipBest] and [hashSum] below. *)
Record resolver : Type := mkResolver {
  deduplicate : bool;
  compress : bool;
  Entries : list EntryV3;
  rOffset : Z;                        (* uint64 *)
  OffsetMap : gmap string offsetLen;
  AddressedTiles : Z                  (* uint64 *)
}.

Definition NumContents (r : resolver) : Z :=
  if deduplicate r then u64 (Z.of_nat (size (OffsetMap r)))
  else AddressedTiles r.

(** [len(data) >= 2 && data[0] == 31 && data[1] == 139] *)
Definition hasGzipMagic (data : list Byte.byte) : bool :=
  match data with
  | Byte.x1f :: Byte.x8b :: _ => true
  | _ => false
  end.

(** [r.Entries[len(r.Entries)-1].RunLength += runLength] *)
Definition addRunLength (runLength : Z) (e : EntryV3) : EntryV3 :=
  mkEntryV3 (TileID e) (Offset e) (Length e) (u32 (RunLength e + runLength)).

Section Resolver.

(** The collaborators from Go's library: [hashSum data] is the string of
    the FNV-128a digest of [data] ([hash/fnv], after [Reset] and [Write]),
    [gzipBest data] the gzip stream of [data] at [gzip.BestCompression]. *)
Variable hashSum : list Byte.byte -> string.
Variable gzipBest : list Byte.byte -> list Byte.byte.

(** The bytes that are stored for a tile that is new. *)
Definition storedBytes (comp : bool) (data : list Byte.byte) : list Byte.byte :=
  if negb comp || hasGzipMagic data then data else gzipBest data.

(** [AddTileIsNew]: the new state of the receiver and the pair the
    method returns ([nil] is the empty list). *)
Definition AddTileIsNew (r : resolver) (tileID : Z) (data : list Byte.byte) (runLength : Z)
  : result (resolver * (bool * list Byte.byte)) :=
  let addressed := u64 (AddressedTiles r + 1) in
  let sumString := hashSum data in
  let found := if deduplicate r then OffsetMap r !! sumString else None in
  match found with
  | Some found =>
      match last (Entries r) with
      | None => Crash IndexOutOfRange
      | Some lastEntry =>
          if (tileID =? u64 (TileID lastEntry + RunLength lastEntry))
             && (Offset lastEntry =? olOffset found)
          then
            if u32 (RunLength lastEntry + runLength) >? MaxUint32
            then Crash RunLengthExceeded
            else
              Ok (mkResolver (deduplicate r) (compress r)
                    (<[pred (length (Entries r)) := addRunLength runLength lastEntry]> (Entries r))
                    (rOffset r) (OffsetMap r) addressed,
                  (false, []))
          else
            Ok (mkResolver (deduplicate r) (compress r)
                  (Entries r ++ [mkEntryV3 tileID (olOffset found) (olLength found) runLength])
                  (rOffset r) (OffsetMap r) addressed,
                (false, []))
      end
  | None =>
      let newData := storedBytes (compress r) data in
      let offsetMap :=
        if deduplicate r
        then <[sumString := mkOffsetLen (rOffset r) (u32 (len newData))]> (OffsetMap r)
        else OffsetMap r in
      Ok (mkResolver (deduplicate r) (compress r)
            (Entries r ++ [mkEntryV3 tileID (rOffset r) (u32 (len newData)) runLength])
            (u64 (rOffset r + len newData)) offsetMap addressed,
          (true, newData))
  end.

Definition newResolver (dedup comp : bool) : resolver :=
  mkResolver dedup comp [] 0 ∅ 0.

(** A call of [AddTileIsNew]: [(tileID, data, runLength)]. *)
Definition call : Type := Z * list Byte.byte * Z.

(** The calls of a list made one after the other on the same resolver. *)
Fixpoint feed (r : resolver) (calls : list call) : result resolver :=
  match calls with
  | [] => Ok r
  | (tileID, data, runLength) :: rest =>
      match AddTileIsNew r tileID data runLength with
      | Ok (r', _) => feed r' rest
      | Err e => Err e
      | Crash p => Crash p
      end
  end.

(** The states a resolver can be in: [newResolver], then any calls. *)
Inductive reachable : resolver -> Prop :=
| reachable_new dedup comp : reachable (newResolver dedup comp)
| reachable_add r tileID data runLength r' out :
    reachable r ->
    AddTileIsNew r tileID data runLength = Ok (r', out) ->
    reachable r'.

End Resolver.

(** ** The header and the files of a conversion *)

(** The tags of the package's [Compression] and [TileType] enumerations;
    the zero value of each is its unknown tag. *)
Inductive Compression : Type :=
| UnknownCompression | NoCompression | Gzip | Brotli | Zstd.

Inductive TileType : Type :=
| UnknownTileType | Mvt | Png | Jpeg | Webp | Avif.

Definition isMvt (t : TileType) : bool :=
  match t with Mvt => true | _ => false end.

(** The fields of [HeaderV3] that the file reads or writes. *)
Record HeaderV3 : Type := mkHeaderV3 {
  RootOffset : Z; RootLength : Z;
  MetadataOffset : Z; MetadataLength : Z;
  LeafDirectoryOffset : Z; LeafDirectoryLength : Z;
  TileDataOffset : Z; TileDataLength : Z;
  AddressedTilesCount : Z; TileEntriesCount : Z; TileContentsCount : Z;
  Clustered : bool;
  InternalCompression : Compression;
  TileCompression : Compression;
  TileType_ : TileType;
  MinZoom : Z; MaxZoom : Z;                       (* uint8 *)
  MinLonE7 : Z; MinLatE7 : Z; MaxLonE7 : Z; MaxLatE7 : Z;   (* int32 *)
  CenterZoom : Z;                                 (* uint8 *)
  CenterLonE7 : Z; CenterLatE7 : Z                (* int32 *)
}.

(** Wrap-around of [int32], and Go's integer division, which truncates. *)
Definition i32 (n : Z) : Z := (n + 2 ^ 31) mod 2 ^ 32 - 2 ^ 31.
Definition i32_half_sum (a b : Z) : Z := i32 (Z.quot (i32 (a + b)) 2).

(** The output archive and the content spool ([tmpfile]). *)
Record world : Type := mkWorld {
  outCreated : bool;              (* [os.Create(output)] has been done *)
  outBytes : list Byte.byte;      (* the bytes written to the output *)
  tmpBytes : list Byte.byte       (* the bytes written to the spool *)
}.

(** Which of the file operations of a conversion fail. *)
Record faults : Type := mkFaults {
  createFails : bool;             (* [os.Create(output)] *)
  outWriteFails : nat -> bool;    (* the k-th [outfile.Write], k = 0..3 *)
  tmpWriteFails : Z -> bool;      (* [tmpfile.Write] at this spool length *)
  tmpSeekFails : bool;            (* [tmpfile.Seek(0, 0)] *)
  copyFails : bool                (* [io.Copy(outfile, tmpfile)] *)
}.

(** Code that changes the files and can fail: it gives a result and the
    files as it leaves them. *)
Definition M (A : Type) : Type := world -> result A * world.

Definition ret {A} (a : A) : M A := fun w => (Ok a, w).
Definition fail {A} (e : error) : M A := fun w => (Err e, w).
Definition lift {A} (x : result A) : M A := fun w => (x, w).
Definition bind {A B} (m : M A) (k : A -> M B) : M B :=
  fun w =>
    match m w with
    | (Ok a, w') => k a w'
    | (Err e, w') => (Err e, w')
    | (Crash p, w') => (Crash p, w')
    end.

(** [M] with stdpp's monad notation [x ← m; k]. *)
#[global] Instance M_ret : MRet M := @ret.
#[global] Instance M_bind : MBind M := fun A B k m => bind m k.

Definition osCreate (fl : faults) : M unit :=
  fun w =>
    if createFails fl then (Err ErrCreateOutput, w)
    else (Ok tt, mkWorld true [] (tmpBytes w)).

Definition outWrite (fl : faults) (k : nat) (bs : list Byte.byte) : M unit :=
  fun w =>
    if outWriteFails fl k then (Err ErrWriteOutfile, w)
    else (Ok tt, mkWorld (outCreated w) (outBytes w ++ bs) (tmpBytes w)).

Definition tmpWrite (fl : faults) (bs : list Byte.byte) : M unit :=
  fun w =>
    if tmpWriteFails fl (len (tmpBytes w)) then (Err ErrWriteTempfile, w)
    else (Ok tt, mkWorld (outCreated w) (outBytes w) (tmpBytes w ++ bs)).

Definition tmpSeekStart (fl : faults) : M unit :=
  fun w => if tmpSeekFails fl then (Err ErrSeekTempfile, w) else (Ok tt, w).

Definition ioCopy (fl : faults) : M unit :=
  fun w =>
    if copyFails fl then (Err ErrCopyOutfile, w)
    else (Ok tt, mkWorld (outCreated w) (outBytes w ++ tmpBytes w) (tmpBytes w)).

(** ** Sources *)

(** A row of the [tiles] table of an MBTiles database; the three keys are
    read with [ColumnInt64]. *)
Record tileRow : Type := mkTileRow {
  zoom_level : Z; tile_column : Z; tile_row : Z;
  tile_data : list Byte.byte
}.

Record mbtiles : Type := mkMbtiles {
  dbOpens : bool;                          (* [sqlite.OpenConn] succeeds *)
  dbMetadataErr : option error;            (* the metadata query fails *)
  dbMetadata : list (string * string);     (* the rows (name, value) *)
  dbScanErr : option error;                (* the key scan of pass 1 fails *)
  dbTiles : list tileRow;
  dbFetchFails : Z -> Z -> Z -> bool       (* the [Step] of pass 2 fails *)
}.

(** [(1 << z) - 1 - y], the constant taking the type [uint32] of [y]. *)
Definition flipRow (z y : Z) : Z :=
  u32 (u32 (u32 (Z.shiftl 1 z) - 1) - y).

(** The sorted set of tile ids ([roaring64.Bitmap]): an ascending list
    without repetition. *)
Fixpoint tilesetAdd (id : Z) (s : list Z) : list Z :=
  match s with
  | [] => [id]
  | x :: s' =>
      if id <? x then id :: s
      else if id =? x then s
      else x :: tilesetAdd id s'
  end.

(** [SELECT tile_data FROM tiles WHERE zoom_level = ? AND tile_column = ?
    AND tile_row = ?], first row. *)
Definition selectTileData (rows : list tileRow) (z x y : Z) : option (list Byte.byte) :=
  tile_data <$>
    List.find (fun r => (zoom_level r =? z) && (tile_column r =? x) && (tile_row r =? y)) rows.

(** The directory of a version 2 archive: two Go maps from [Zxy], here in
    the order they are ranged over. *)
Record Zxy : Type := mkZxy { zxyZ : Z; zxyX : Z; zxyY : Z }.
Record rangeV2 : Type := mkRangeV2 { rngOffset : Z; rngLength : Z }.
Record directoryV2 : Type := mkDirectoryV2 {
  dirEntries : list (Zxy * rangeV2);
  dirLeaves : list (Zxy * rangeV2)
}.

Record v2Archive : Type := mkV2Archive {
  v2Opens : bool;                                  (* [os.Open(input)] succeeds *)
  v2Buffer : list Byte.byte;                       (* the first 512000 bytes *)
  v2First4 : option (list Byte.byte);              (* the 4 bytes at 512000 *)
  v2LeafBytes : Z -> Z -> list Byte.byte;          (* a leaf directory block *)
  v2SeekFails : Z -> bool;                         (* [f.Seek] to a tile fails *)
  v2Read : Z -> Z -> option (list Byte.byte)       (* the tile buffer; [None]: an error other than EOF *)
}.

(** [string(buffer[0:7]) == "PMTiles" && buffer[7] == 3] *)
Definition isVersion3 (buffer : list Byte.byte) : bool :=
  match buffer with
  | Byte.x50 :: Byte.x4d :: Byte.x54 :: Byte.x69 :: Byte.x6c :: Byte.x65 :: Byte.x73
      :: Byte.x03 :: _ => true
  | _ => false
  end.

(** [sort.Slice] by [TileID]: the order of entries of equal [TileID] is
    not specified by Go; here it is the one of a merge sort. *)
Definition tileIDLe (a b : EntryV3) : Prop := TileID a <= TileID b.

#[global] Instance tileIDLe_dec : RelDecision tileIDLe.
Proof. intros a b. unfold tileIDLe. apply _. Defined.

Definition sortByTileID (entries : list EntryV3) : list EntryV3 :=
  merge_sort tileIDLe entries.

(** ** The assembler and the two source adapters *)

Section Convert.

Variable hashSum : list Byte.byte -> string.
Variable gzipBest : list Byte.byte -> list Byte.byte.

(** The parts of the package that live in its other files: the tile-id
    order, the directory optimizer, the header and metadata codecs, the
    parser of version 2 headers and directories.  [json] is the type of
    the metadata object, [map[string]interface{}]. *)
Variable json : Type.
Variable ZxyToID : Z -> Z -> Z -> Z.
Variable IDToZxy : Z -> Z * Z * Z.
Variable HeaderV3LenBytes : Z.
Variable optimizeDirectories :
  list EntryV3 -> Z -> Compression -> list Byte.byte * list Byte.byte * Z.
Variable SerializeMetadata : json -> Compression -> option (list Byte.byte).
Variable SerializeHeader : HeaderV3 -> list Byte.byte.
Variable parseHeaderV2 : list Byte.byte -> list Byte.byte * directoryV2.
Variable parseDirectoryV2 : list Byte.byte -> directoryV2.

(** The two functions of the file that map the metadata of a source to a
    header and a metadata object; they parse decimal numbers into floating
    point, and nothing below depends on what they compute.
    [v2ToHeaderJSON] is taken with the [json.Unmarshal] before it. *)
Variable mbtilesToHeaderJSON : list string -> result (HeaderV3 * json).
Variable v2ToHeaderJSON : list Byte.byte -> list Byte.byte -> result (HeaderV3 * json).

(** [setZoomCenterDefaults]: [entries[0]] and [entries[len(entries)-1]]
    are read without a check. *)
Definition setZoomCenterDefaults (header : HeaderV3) (entries : list EntryV3)
  : result HeaderV3 :=
  match head entries, last entries with
  | Some first, Some final =>
      let '(minZ, _, _) := IDToZxy (TileID first) in
      let '(maxZ, _, _) := IDToZxy (TileID final) in
      let '(mkHeaderV3 ro rl mo ml lo ll dto dl ac ec cc cl ic tc ty _ _
              minLon minLat maxLon maxLat cz clon clat) := header in
      if (cz =? 0) && (clon =? 0) && (clat =? 0)
      then Ok (mkHeaderV3 ro rl mo ml lo ll dto dl ac ec cc cl ic tc ty minZ maxZ
                 minLon minLat maxLon maxLat
                 minZ (i32_half_sum minLon maxLon) (i32_half_sum minLat maxLat))
      else Ok (mkHeaderV3 ro rl mo ml lo ll dto dl ac ec cc cl ic tc ty minZ maxZ
                 minLon minLat maxLon maxLat cz clon clat)
  | _, _ => Crash IndexOutOfRange
  end.

(** The three counts that [finalize] sets first. *)
Definition setCounts (header : HeaderV3) (resolve : resolver) : HeaderV3 :=
  let '(mkHeaderV3 ro rl mo ml lo ll dto dl _ _ _ cl ic tc ty minZ maxZ
          minLon minLat maxLon maxLat cz clon clat) := header in
  mkHeaderV3 ro rl mo ml lo ll dto dl
    (AddressedTiles resolve) (u64 (len (Entries resolve))) (NumContents resolve)
    cl ic tc ty minZ maxZ minLon minLat maxLon maxLat cz clon clat.

(** The flags and the section layout that [finalize] sets last. *)
Definition setLayout (header : HeaderV3) (rootLen metadataLen leavesLen dataLen : Z)
  : HeaderV3 :=
  let '(mkHeaderV3 _ _ _ _ _ _ _ _ ac ec cc _ _ tc ty minZ maxZ
          minLon minLat maxLon maxLat cz clon clat) := header in
  let rootOffset := HeaderV3LenBytes in
  let metadataOffset := u64 (rootOffset + u64 rootLen) in
  let leafOffset := u64 (metadataOffset + u64 metadataLen) in
  let dataOffset := u64 (leafOffset + u64 leavesLen) in
  mkHeaderV3 rootOffset (u64 rootLen) metadataOffset (u64 metadataLen)
    leafOffset (u64 leavesLen) dataOffset dataLen
    ac ec cc true Gzip (if isMvt ty then Gzip else tc) ty minZ maxZ
    minLon minLat maxLon maxLat cz clon clat.

Definition finalize (fl : faults) (resolve : resolver) (header : HeaderV3)
    (jsonMetadata : json) : M HeaderV3 :=
  (let header := setCounts header resolve in
   _ ← osCreate fl;
   let '(rootBytes, leavesBytes, numLeaves) :=
     optimizeDirectories (Entries resolve) (16384 - HeaderV3LenBytes) Gzip in
   match SerializeMetadata jsonMetadata Gzip with
   | None => fail ErrMarshalMetadata
   | Some metadataBytes =>
       header ← lift (setZoomCenterDefaults header (Entries resolve));
       let header :=
         setLayout header (len rootBytes) (len metadataBytes) (len leavesBytes)
           (rOffset resolve) in
       let headerBytes := SerializeHeader header in
       _ ← outWrite fl 0 headerBytes;
       _ ← outWrite fl 1 rootBytes;
       _ ← outWrite fl 2 metadataBytes;
       _ ← outWrite fl 3 leavesBytes;
       _ ← tmpSeekStart fl;
       _ ← ioCopy fl;
       ret header
   end).

(** *** The MBTiles adapter *)

(** The spatial id that pass 1 computes for a row. *)
Definition rowTileID (row : tileRow) : Z :=
  let z := u8 (zoom_level row) in
  let x := u32 (tile_column row) in
  let y := u32 (tile_row row) in
  let flippedY := flipRow z y in
  ZxyToID z x flippedY.

(** Pass 1: the loop over the rows of [tiles]. *)
Definition assembleTileset (rows : list tileRow) : list Z :=
  fold_left (fun tileset row => tilesetAdd (rowTileID row) tileset) rows [].

(** Pass 2: the loop over the ids of the set, in ascending order. *)
Fixpoint writeTiles (db : mbtiles) (fl : faults) (ids : list Z) (resolve : resolver)
  : M resolver :=
  match ids with
  | [] => ret resolve
  | id :: rest =>
      let '(z, x, y) := IDToZxy id in
      let flippedY := flipRow z y in
      if dbFetchFails db z x flippedY then fail ErrStepStatement
      else
        match selectTileData (dbTiles db) z x flippedY with
        | None => fail ErrMissingRow
        | Some data =>
            if 0 <? len data
            then
              (out ← lift (AddTileIsNew hashSum gzipBest resolve id data 1);
               let '(resolve', (isNew, newData)) := out in
               if isNew : bool
               then (_ ← tmpWrite fl newData; writeTiles db fl rest resolve')
               else writeTiles db fl rest resolve')
            else writeTiles db fl rest resolve
        end
  end.

Definition flattenMetadata (rows : list (string * string)) : list string :=
  flat_map (fun '(name, value) => [name; value]) rows.

Definition convertMbtiles (db : mbtiles) (dedup : bool) (fl : faults) : M unit :=
  if negb (dbOpens db) then fail ErrDatabaseConnection
  else
    match dbMetadataErr db with
    | Some e => fail e
    | None =>
        let mbtilesMetadata := flattenMetadata (dbMetadata db) in
        match mbtilesToHeaderJSON mbtilesMetadata with
        | Err _ => fail ErrMbtilesHeaderJSON
        | Crash p => lift (Crash p)
        | Ok (header, jsonMetadata) =>
            match dbScanErr db with
            | Some e => fail e
            | None =>
                let tileset := assembleTileset (dbTiles db) in
                if len tileset =? 0 then fail ErrNoTiles
                else
                  (resolve ← writeTiles db fl tileset
                                (newResolver dedup (isMvt (TileType_ header)));
                   _ ← finalize fl resolve header jsonMetadata;
                   ret tt)
            end
        end
    end.

(** *** The version 2 adapter *)

Definition entryOfV2 (e : Zxy * rangeV2) : EntryV3 :=
  let '(zxy, rng) := e in
  mkEntryV3 (ZxyToID (zxyZ zxy) (zxyX zxy) (zxyY zxy))
    (rngOffset rng) (u32 (rngLength rng)) 1.

(** [addDirectoryV2Entries] follows leaf pointers read from the file, and
    need not end on an archive whose leaves point in a circle: [fuel]
    bounds the depth, [None] is "out of fuel".  Errors of [Seek] and
    [Read] are ignored by the source. *)
Fixpoint addDirectoryV2Entries (fuel : nat) (a : v2Archive) (dir : directoryV2)
    (entries : list EntryV3) : option (list EntryV3) :=
  match fuel with
  | O => None
  | S fuel' =>
      let entries := entries ++ map entryOfV2 (dirEntries dir) in
      let unique : gmap Z Z :=
        fold_left (fun m e => <[rngOffset (snd e) := u32 (rngLength (snd e))]> m)
          (dirLeaves dir) ∅ in
      fold_left
        (fun acc ol =>
           match acc with
           | None => None
           | Some es =>
               let leafDir := parseDirectoryV2 (v2LeafBytes a (fst ol) (snd ol)) in
               addDirectoryV2Entries fuel' a leafDir es
           end)
        (map_to_list unique) (Some entries)
  end.

(** The loop that replays the sorted entries through the resolver. *)
Fixpoint replayEntries (a : v2Archive) (fl : faults) (entries : list EntryV3)
    (resolve : resolver) : M resolver :=
  match entries with
  | [] => ret resolve
  | entry :: rest =>
      if Length entry =? 0 then replayEntries a fl rest resolve
      else if v2SeekFails a (Offset entry) then fail ErrSeekOffset
      else
        match v2Read a (Offset entry) (Length entry) with
        | None => fail ErrReadBuffer
        | Some buf =>
            (out ← lift (AddTileIsNew hashSum gzipBest resolve (TileID entry) buf 1);
             let '(resolve', (isNew, newData)) := out in
             if isNew : bool
             then (_ ← tmpWrite fl newData; replayEntries a fl rest resolve')
             else replayEntries a fl rest resolve')
        end
  end.

(** [None]: the directory walk ran out of fuel. *)
Definition convertPmtilesV2 (fuel : nat) (a : v2Archive) (dedup : bool) (fl : faults)
    (w : world) : option (result unit * world) :=
  if negb (v2Opens a) then Some (Err ErrOpenFile, w)
  else if isVersion3 (v2Buffer a) then Some (Err ErrAlreadyV3, w)
  else
    let '(v2JsonBytes, dir) := parseHeaderV2 (v2Buffer a) in
    match v2First4 a with
    | None => Some (Err ErrReadFirst4, w)
    | Some first4 =>
        match v2ToHeaderJSON v2JsonBytes first4 with
        | Err _ => Some (Err ErrV2HeaderJSON, w)
        | Crash p => Some (Crash p, w)
        | Ok (header, jsonMetadata) =>
            match addDirectoryV2Entries fuel a dir [] with
            | None => None
            | Some entries =>
                let entries := sortByTileID entries in
                Some ((resolve ← replayEntries a fl entries
                                    (newResolver dedup (isMvt (TileType_ header)));
                       _ ← finalize fl resolve header jsonMetadata;
                       ret tt) w)
            end
        end
    end.

End Convert.

(** ** The extraction *)

(** A task of the channel [taskCh]. *)
Record tileTask : Type := mkTileTask {
  entry : EntryV3;
  tileData : list Byte.byte
}.

(** What the writer workers change: the files of the output tree, the
    counter [processedTiles], the paths logged as failed, and the number of
    times [ctx.Done()] has been looked at. *)
Record extraction : Type := mkExtraction {
  files : gmap string (list Byte.byte);
  processedTiles : Z;           (* uint32 *)
  failed : list string;         (* logger.Printf("Failed to write tile to %s: %v") *)
  polls : nat
}.

(** What [os.WriteFile(path, data, 0644)] can do: it opens [path] with
    [O_WRONLY|O_CREATE|O_TRUNC], writes [data] and closes the file. *)
Inductive writeResult : Type :=
| Written               (* no error: the file holds [data] *)
| NotCreated            (* the open fails: the tree is as it was *)
| Truncated (n : nat).  (* the write or the close fails: the file holds the first
                           [n] bytes of [data], all of them when there are no more *)

(** [os.WriteFile]: whether the error is [nil], and the tree after it. *)
Definition osWriteFile (res : writeResult) (path : string) (data : list Byte.byte)
    (tree : gmap string (list Byte.byte)) : bool * gmap string (list Byte.byte) :=
  match res with
  | Written => (true, <[path := data]> tree)
  | NotCreated => (false, tree)
  | Truncated n => (false, <[path := take n data]> tree)
  end.

(** [_, err := os.Stat(path); os.IsNotExist(err)].  On a path that is not
    a file of the tree, [failsOther] tells that [os.Stat] does not say "does
    not exist": it fails with another error, or the path is a directory. *)
Definition statNotExist (failsOther : bool) (path : string)
    (tree : gmap string (list Byte.byte)) : bool :=
  match tree !! path with
  | Some _ => false
  | None => negb failsOther
  end.

Section Extract.

(** [tilePath id] is the path that [filepath.Join] and [fmt.Sprintf] build
    from [IDToZxy id], the output directory and the extension.  At the
    [k]-th look at [ctx.Done()], [statFails k path] tells whether the
    [os.Stat] that follows fails with an error other than "does not exist"
    or finds a directory, [writeFile k path] what the [os.WriteFile] that
    follows does, and [ctxDone k] whether the context is cancelled. *)
Variable tilePath : Z -> string.
Variable statFails : nat -> string -> bool.
Variable writeFile : nat -> string -> writeResult.
Variable ctxDone : nat -> bool.

(** [for i := uint32(0); i < task.entry.RunLength; i++], with [n]
    iterations left: one writer worker on its own. *)
Fixpoint writeRun (task : tileTask) (n : nat) (i : Z) (st : extraction)
  : option error * extraction :=
  match n with
  | O => (None, st)
  | S n' =>
      let k := polls st in
      let st := mkExtraction (files st) (processedTiles st) (failed st) (S k) in
      if ctxDone k then (Some ErrContextCanceled, st)
      else
        let path := tilePath (u64 (TileID (entry task) + i)) in
        if statNotExist (statFails k path) path (files st)
        then
          let '(ok, tree) := osWriteFile (writeFile k path) path (tileData task) (files st) in
          if ok : bool
          then
            writeRun task n' (i + 1)
              (mkExtraction tree (u32 (processedTiles st + 1)) (failed st) (polls st))
          else
            (* logged, then [continue] *)
            writeRun task n' (i + 1)
              (mkExtraction tree (processedTiles st) (failed st ++ [path]) (polls st))
        else
          writeRun task n' (i + 1)
            (mkExtraction (files st) (u32 (processedTiles st + 1)) (failed st) (polls st))
  end.

(** The worker: [for task := range taskCh], on the tasks it receives. *)
Fixpoint writerWorker (tasks : list tileTask) (st : extraction)
  : option error * extraction :=
  match tasks with
  | [] => (None, st)
  | task :: rest =>
      match writeRun task (Z.to_nat (RunLength (entry task))) 0 st with
      | (None, st') => writerWorker rest st'
      | (Some e, st') => (Some e, st')
      end
  end.

End Extract.

(** ** The extraction as a whole: the reader and the writer workers *)

(** Where a writer worker is: at [range taskCh]; at the head of the inner
    loop on [task] with [n] iterations left, the next one at index [i];
    between the [os.Stat] that said "does not exist" at the [k]-th look at
    [ctx.Done()] and the [os.WriteFile], with [n] iterations left after this
    one; or returned. *)
Inductive workerState : Type :=
| Waiting
| Looping (task : tileTask) (n : nat) (i : Z)
| Writing (task : tileTask) (n : nat) (i : Z) (k : nat)
| Stopped (err : option error).

(** Where the reader is: before [os.Open]; at the head of its loop with
    the entries left; at the [select] with the task to send; or returned,
    with [taskCh] closed. *)
Inductive readerState : Type :=
| Opening
| Reading (rest : list EntryV3)
| Sending (task : tileTask) (rest : list EntryV3)
| Closed (err : option error).

(** The goroutines of the [errgroup], the channel and what they share.
    [groupErr] is the first error that a goroutine has returned; the
    context is done from then on. *)
Record pipeline : Type := mkPipeline {
  shared : extraction;
  taskCh : list tileTask;
  groupErr : option error;
  reader : readerState;
  workers : list workerState
}.

(** The [errgroup] keeps the first error. *)
Definition goReturn (err : option error) (group : option error) : option error :=
  match group with
  | Some e => Some e
  | None => err
  end.

Definition isStopped (s : workerState) : bool :=
  match s with Stopped _ => true | _ => false end.

(** [g.Wait()] returns: every goroutine has. *)
Definition finished (p : pipeline) : bool :=
  match reader p with
  | Closed _ => forallb isStopped (workers p)
  | _ => false
  end.

Section Pipeline.

(** [numWorkers] is [runtime.NumCPU()], [tileDataOffset] the field of the
    header, [allEntries] the entries that [IterateEntries] has given;
    [reopens] tells whether the [os.Open] of the reader succeeds, and
    [readAt length offset] is the buffer of [length] bytes after
    [readerFile.ReadAt(tileData, offset)], [None] when that fails. *)
Variable tilePath : Z -> string.
Variable statFails : nat -> string -> bool.
Variable writeFile : nat -> string -> writeResult.
Variable numWorkers : nat.
Variable tileDataOffset : Z.
Variable allEntries : list EntryV3.
Variable reopens : bool.
Variable readAt : Z -> Z -> option (list Byte.byte).

(** One step of the reader.  At the [select] both cases can be ready, and
    Go takes one of them at random: [pickDone] is that choice.  A send is
    ready when the buffer of [numWorkers*2] tasks is not full; a step that
    is not ready leaves the state as it is. *)
Definition readerStep (pickDone : bool) (p : pipeline) : pipeline :=
  match reader p with
  | Opening =>
      if reopens
      then mkPipeline (shared p) (taskCh p) (groupErr p) (Reading allEntries) (workers p)
      else mkPipeline (shared p) (taskCh p) (goReturn (Some ErrOpenReader) (groupErr p))
             (Closed (Some ErrOpenReader)) (workers p)
  | Reading [] =>
      mkPipeline (shared p) (taskCh p) (groupErr p) (Closed None) (workers p)
  | Reading (e :: rest) =>
      match readAt (Length e) (u64 (tileDataOffset + Offset e)) with
      | None =>
          mkPipeline (shared p) (taskCh p) (goReturn (Some ErrReadTileData) (groupErr p))
            (Closed (Some ErrReadTileData)) (workers p)
      | Some data =>
          mkPipeline (shared p) (taskCh p) (groupErr p) (Sending (mkTileTask e data) rest)
            (workers p)
      end
  | Sending task rest =>
      let canSend := (length (taskCh p) <? numWorkers * 2)%nat in
      match groupErr p with
      | Some _ =>
          if pickDone || negb canSend
          then mkPipeline (shared p) (taskCh p) (groupErr p)
                 (Closed (Some ErrContextCanceled)) (workers p)
          else mkPipeline (shared p) (taskCh p ++ [task]) (groupErr p) (Reading rest)
                 (workers p)
      | None =>
          if canSend
          then mkPipeline (shared p) (taskCh p ++ [task]) (groupErr p) (Reading rest)
                 (workers p)
          else p
      end
  | Closed _ => p
  end.

(** One step of the writer worker [w]. *)
Definition workerStep (w : nat) (p : pipeline) : pipeline :=
  let st := shared p in
  match workers p !! w with
  | Some Waiting =>
      match taskCh p, reader p with
      | task :: rest, _ =>
          mkPipeline st rest (groupErr p) (reader p)
            (<[w := Looping task (Z.to_nat (RunLength (entry task))) 0]> (workers p))
      | [], Closed _ =>
          mkPipeline st [] (groupErr p) (reader p) (<[w := Stopped None]> (workers p))
      | [], _ => p
      end
  | Some (Looping task O i) =>
      mkPipeline st (taskCh p) (groupErr p) (reader p) (<[w := Waiting]> (workers p))
  | Some (Looping task (S n) i) =>
      match groupErr p with
      | Some _ =>
          mkPipeline st (taskCh p) (groupErr p) (reader p)
            (<[w := Stopped (Some ErrContextCanceled)]> (workers p))
      | None =>
          let k := polls st in
          let path := tilePath (u64 (TileID (entry task) + i)) in
          if statNotExist (statFails k path) path (files st)
          then
            mkPipeline (mkExtraction (files st) (processedTiles st) (failed st) (S k))
              (taskCh p) (groupErr p) (reader p) (<[w := Writing task n i k]> (workers p))
          else
            mkPipeline
              (mkExtraction (files st) (u32 (processedTiles st + 1)) (failed st) (S k))
              (taskCh p) (groupErr p) (reader p)
              (<[w := Looping task n (i + 1)]> (workers p))
      end
  | Some (Writing task n i k) =>
      let path := tilePath (u64 (TileID (entry task) + i)) in
      let '(ok, tree) := osWriteFile (writeFile k path) path (tileData task) (files st) in
      if ok : bool
      then
        mkPipeline (mkExtraction tree (u32 (processedTiles st + 1)) (failed st) (polls st))
          (taskCh p) (groupErr p) (reader p) (<[w := Looping task n (i + 1)]> (workers p))
      else
        mkPipeline (mkExtraction tree (processedTiles st) (failed st ++ [path]) (polls st))
          (taskCh p) (groupErr p) (reader p) (<[w := Looping task n (i + 1)]> (workers p))
  | Some (Stopped _) | None => p
  end.

(** A schedule says which goroutine moves next: [0] is the reader, [S w]
    the worker [w]; the boolean is the choice of the reader at its
    [select]. *)
Definition pipelineStep (p : pipeline) (c : nat * bool) : pipeline :=
  match fst c with
  | O => readerStep (snd c) p
  | S w => workerStep w p
  end.

Definition pipelineRun (sched : list (nat * bool)) (p : pipeline) : pipeline :=
  fold_left pipelineStep sched p.

(** The goroutines when [g.Go] has launched them. *)
Definition pipelineStart (tree : gmap string (list Byte.byte)) : pipeline :=
  mkPipeline (mkExtraction tree 0 [] 0) [] None Opening (replicate numWorkers Waiting).

End Pipeline.

(** The input archive as [convertToDirectory] sees it. *)
Record tilesArchive : Type := mkTilesArchive {
  inOpens : bool;                               (* [os.Open(input)] succeeds *)
  inHeaderBytes : option (list Byte.byte);      (* [file.Read(headerBytes)], [None]: an error *)
  inReopens : bool;                             (* the [os.Open(input)] of the reader *)
  inReadAt : Z -> Z -> option (list Byte.byte)  (* [readerFile.ReadAt] *)
}.

(** The tile file extension of a tile type. *)
Definition extensionOf (t : TileType) : string :=
  match t with
  | Mvt => ".mvt"
  | Png => ".png"
  | Jpeg => ".jpg"
  | Webp => ".webp"
  | Avif => ".avif"
  | UnknownTileType => EmptyString
  end.

Section ConvertToDirectory.

(** The collaborators of [convertToDirectory].  [DeserializeHeader],
    [DeserializeMetadataBytes] (on the section at an offset and a length) and
    [IterateEntries] give [None] for an error.  [directoriesMade maxZoom]
    tells whether [generateDirectoryStructure] returns no error: it makes
    directories only, and the tree below has the files.  [metadataPath] is
    [filepath.Join(output, "metadata.json")], and [metadataWrite] what the
    [os.WriteFile] on it does; [tilePathOf extension id] is the path of a
    tile. *)
Variable DeserializeHeader : list Byte.byte -> option HeaderV3.
Variable directoriesMade : Z -> bool.
Variable DeserializeMetadataBytes : Z -> Z -> Compression -> option (list Byte.byte).
Variable IterateEntries : HeaderV3 -> option (list EntryV3).
Variable metadataPath : string.
Variable metadataWrite : writeResult.
Variable tilePathOf : string -> Z -> string.
Variable statFails : nat -> string -> bool.
Variable writeFile : nat -> string -> writeResult.
Variable numWorkers : nat.

(** [if header.MetadataLength > 0 { ... }] *)
Definition saveMetadata (header : HeaderV3) (tree : gmap string (list Byte.byte))
  : option error * gmap string (list Byte.byte) :=
  if MetadataLength header >? 0
  then
    match DeserializeMetadataBytes (MetadataOffset header) (MetadataLength header)
            (InternalCompression header) with
    | None => (Some ErrReadMetadata, tree)
    | Some metadataBytes =>
        let '(ok, tree) := osWriteFile metadataWrite metadataPath metadataBytes tree in
        if ok : bool then (None, tree) else (Some ErrWriteMetadata, tree)
    end
  else (None, tree).

(** [convertToDirectory] under a schedule of its goroutines: the error it
    returns and what it has done to the tree, or [None] when the schedule
    ends before all goroutines have returned and [g.Wait()] still waits. *)
Definition convertToDirectory (a : tilesArchive) (sched : list (nat * bool))
    (tree : gmap string (list Byte.byte)) : option (option error * extraction) :=
  if negb (inOpens a) then Some (Some ErrOpenFile, mkExtraction tree 0 [] 0)
  else
    match inHeaderBytes a with
    | None => Some (Some ErrReadHeader, mkExtraction tree 0 [] 0)
    | Some headerBytes =>
        match DeserializeHeader headerBytes with
        | None => Some (Some ErrParseHeader, mkExtraction tree 0 [] 0)
        | Some header =>
            if negb (directoriesMade (MaxZoom header))
            then Some (Some ErrDirectoryStructure, mkExtraction tree 0 [] 0)
            else
              match saveMetadata header tree with
              | (Some e, tree) => Some (Some e, mkExtraction tree 0 [] 0)
              | (None, tree) =>
                  match IterateEntries header with
                  | None => Some (Some ErrIterateTiles, mkExtraction tree 0 [] 0)
                  | Some allEntries =>
                      let p :=
                        pipelineRun (tilePathOf (extensionOf (TileType_ header)))
                          statFails writeFile numWorkers (TileDataOffset header)
                          allEntries (inReopens a) (inReadAt a) sched
                          (pipelineStart numWorkers tree) in
                      if finished p then Some (groupErr p, shared p) else None
                  end
              end
        end
    end.

(** No stage of the extraction fails, the [os.Stat] and the [os.WriteFile]
    of the tile files apart. *)
Definition stagesSucceed (a : tilesArchive) : Prop :=
  exists headerBytes header allEntries,
    inOpens a = true /\
    inHeaderBytes a = Some headerBytes /\
    DeserializeHeader headerBytes = Some header /\
    directoriesMade (MaxZoom header) = true /\
    (MetadataLength header > 0 ->
     metadataWrite = Written /\
     DeserializeMetadataBytes (MetadataOffset header) (MetadataLength header)
       (InternalCompression header) <> None) /\
    IterateEntries header = Some allEntries /\
    inReopens a = true /\
    forall e, e ∈ allEntries ->
      inReadAt a (Length e) (u64 (TileDataOffset header + Offset e)) <> None.

End ConvertToDirectory.

(** ** The resolver with its spool *)

Section Spool.

Variable hashSum : list Byte.byte -> string.
Variable gzipBest : list Byte.byte -> list Byte.byte.

(** The calls of a list as the two adapters make them: the bytes that a
    call returns as new are appended to the spool,
    [if isNew { tmpfile.Write(newData) }]. *)
Fixpoint feedSpool (r : resolver) (spool : list Byte.byte) (calls : list call)
  : result (resolver * list Byte.byte) :=
  match calls with
  | [] => Ok (r, spool)
  | (tileID, data, runLength) :: rest =>
      match AddTileIsNew hashSum gzipBest r tileID data runLength with
      | Ok (r', (isNew, newData)) =>
          feedSpool r' (if isNew : bool then spool ++ newData else spool) rest
      | Err e => Err e
      | Crash p => Crash p
      end
  end.

End Spool.

(** The bytes [bs[off : off+n]]. *)
Definition slice (bs : list Byte.byte) (off n : Z) : list Byte.byte :=
  take (Z.to_nat n) (drop (Z.to_nat off) bs).

(** ** The calls of the adapters *)

Section AdapterCalls.

Variable IDToZxy : Z -> Z * Z * Z.

(** The row that pass 2 fetches for an id. *)
Definition fetchTile (db : mbtiles) (id : Z) : option (list Byte.byte) :=
  let '(z, x, y) := IDToZxy id in
  selectTileData (dbTiles db) z x (flipRow z y).

(** The calls of pass 2 on the ids [ids]: one for each id whose row has
    bytes. *)
Definition tileCalls (db : mbtiles) (ids : list Z) : list call :=
  flat_map
    (fun id =>
       match fetchTile db id with
       | Some data => if 0 <? len data then [(id, data, 1)] else []
       | None => []
       end)
    ids.

(** The calls of the replay of a version 2 archive: one for each entry of
    non-zero length. *)
Definition replayCalls (a : v2Archive) (entries : list EntryV3) : list call :=
  flat_map
    (fun e =>
       if Length e =? 0 then []
       else
         match v2Read a (Offset e) (Length e) with
         | Some buf => [(TileID e, buf, 1)]
         | None => []
         end)
    entries.

End AdapterCalls.

(** ** Predicates of the properties *)

(** [x] is one of the ids that the entry [e] covers. *)
Definition inRun (x : Z) (e : EntryV3) : Prop :=
  TileID e <= x < TileID e + RunLength e.

Definition ascendingTileIDs (es : list EntryV3) : Prop :=
  forall (i j : nat) (a b : EntryV3),
    es !! i = Some a -> es !! j = Some b -> (i < j)%nat -> TileID a < TileID b.

Definition disjointRuns (es : list EntryV3) : Prop :=
  forall (i j : nat) (a b : EntryV3) (x : Z),
    es !! i = Some a -> es !! j = Some b -> i <> j -> inRun x a -> ~ inRun x b.

Definition callID (c : call) : Z := fst (fst c).
Definition callRun (c : call) : Z := snd c.

(** The arguments of a call are a [uint64] and a [uint32]. *)
Definition wellTyped (c : call) : Prop :=
  0 <= callID c < 2 ^ 64 /\ 0 <= callRun c < 2 ^ 32.

Definition increasingIDs (calls : list call) : Prop :=
  forall (i j : nat) (c d : call),
    calls !! i = Some c -> calls !! j = Some d -> (i < j)%nat -> callID c < callID d.

(** Each call has an id above [t], the id of the call before it, and not
    below [hi], the end of the run of the call before it. *)
Fixpoint callsAfter (t hi : Z) (calls : list call) : Prop :=
  match calls with
  | [] => True
  | c :: rest =>
      t < callID c /\ hi <= callID c /\ callsAfter (callID c) (callID c + callRun c) rest
  end.

(** Calls in increasing id order whose runs do not reach the next id. *)
Definition separatedCalls (calls : list call) : Prop := callsAfter (-1) 0 calls.

(** [a] comes before [b] and its run ends at or before [b]. *)
Definition before (a b : EntryV3) : Prop :=
  TileID a < TileID b /\ TileID a + RunLength a <= TileID b.

(** The entries after a call with id [t] whose run ends at [hi]. *)
Definition entriesUpTo (t hi : Z) (es : list EntryV3) : Prop :=
  StronglySorted before es /\
  Forall (fun e => 0 <= TileID e <= t /\ 0 <= RunLength e /\ TileID e + RunLength e <= hi) es.

(** Every content location of the map is the location of an entry. *)
Definition locationsHaveEntries (r : resolver) : Prop :=
  forall (k : string) (v : offsetLen),
    OffsetMap r !! k = Some v ->
    exists e, e ∈ Entries r /\ Offset e = olOffset v /\ Length e = olLength v.

(** [n] calls with the same bytes at the ids [id], [id+1], ..., each with
    run length 1. *)
Definition consecutiveCalls (id : Z) (data : list Byte.byte) (n : nat) : list call :=
  map (fun k => (id + Z.of_nat k, data, 1)) (seq 0 n).

(** The entries are in ascending order of [TileID] and below what is left
    to come. *)
Definition lowerID (a b : EntryV3) : Prop := TileID a < TileID b.

(** Collaborators to run the resolver on examples: the FNV-128a digest as
    [hash/fnv] computes it, its 16 bytes in big-endian order, and, in
    place of gzip, a function that puts the gzip magic number and the
    length before the bytes.  The properties below hold for every digest
    and every compressor. *)
Definition fnv128a (data : list Byte.byte) : Z :=
  fold_left
    (fun h c => (Z.lxor h (Z.of_N (Byte.to_N c)) * (2 ^ 88 + 315)) mod 2 ^ 128)
    data 144066263297769815596495629667062367629.

Definition fnvSum (data : list Byte.byte) : string :=
  let h := fnv128a data in
  String.string_of_list_ascii
    (map (fun k => Ascii.ascii_of_N (Z.to_N ((h / 2 ^ (8 * Z.of_nat (15 - k))) mod 256)))
       (seq 0 16)).

Definition framed (data : list Byte.byte) : list Byte.byte :=
  Byte.x1f :: Byte.x8b :: Byte.x08 :: data.

(** [HeaderV3{}], the header with every field at its zero value. *)
Definition zeroHeader : HeaderV3 :=
  mkHeaderV3 0 0 0 0 0 0 0 0 0 0 0 false UnknownCompression UnknownCompression
    UnknownTileType 0 0 0 0 0 0 0 0 0.

(** The path [p] has been dealt with: it is a file of the tree, or its
    write failed and was logged, or [os.Stat] can fail on it with an error
    other than "does not exist" (or find a directory there). *)
Definition settled (statFails : nat -> string -> bool) (st : extraction) (p : string)
  : Prop :=
  is_Some (files st !! p) \/ p ∈ failed st \/ exists k, statFails k p = true.

(** Sources, files and faults to run the adapters on examples. *)
Definition noFaults : faults :=
  mkFaults false (fun _ => false) (fun _ => false) false false.

Definition noFiles : world := mkWorld false [] [].

Definition emptyDB : mbtiles :=
  mkMbtiles true None [("format", "pbf")] None [] (fun _ _ _ => false).

Definition zeroLengthDirectory : directoryV2 :=
  mkDirectoryV2 [(mkZxy 0 0 0, mkRangeV2 512000 0)] [].

Definition zeroLengthArchive : v2Archive :=
  mkV2Archive true [Byte.x50; Byte.x4d; Byte.x02; Byte.x00]
    (Some [Byte.x00; Byte.x00; Byte.x00; Byte.x00])
    (fun _ _ => []) (fun _ => false) (fun _ _ => Some []).

(** A one-letter path for a tile id, and a worker state without files. *)
Definition letterPath (id : Z) : string :=
  String (Ascii.ascii_of_N (Z.to_N (97 + id))) EmptyString.

Definition noTiles : extraction := mkExtraction ∅ 0 [] 0.

(** An archive to run the extraction on examples: its reads give one byte;
    a write that fails on the path "a" and one that leaves a first byte
    there; a schedule that lets the reader run to its end and then the
    worker 0, for one entry of two tiles. *)
Definition oneByteInput : tilesArchive :=
  mkTilesArchive true (Some []) true (fun _ _ => Some [Byte.x41]).

Definition failsOnA (k : nat) (path : string) : writeResult :=
  if String.eqb path "a" then NotCreated else Written.

Definition truncatesOnA (k : nat) (path : string) : writeResult :=
  if String.eqb path "a" then Truncated 1 else Written.

Definition readerThenWorker : list (nat * bool) :=
  [(0, false); (0, false); (0, false); (0, false);
   (1, false); (1, false); (1, false); (1, false); (1, false); (1, false);
   (1, false)]%nat.

(** ** Predicates of the further properties *)

Definition callData (c : call) : list Byte.byte := snd (fst c).

(** No two contents among the calls have the same digest. *)
Definition collisionFree (hashSum : list Byte.byte -> string) (calls : list call) : Prop :=
  forall c c', c ∈ calls -> c' ∈ calls ->
    hashSum (callData c) = hashSum (callData c') -> callData c = callData c'.

(** The bytes that the calls store when no two of them share a content, and
    the tiles that they address. *)
Definition storedTotal (gzipBest : list Byte.byte -> list Byte.byte) (comp : bool)
    (calls : list call) : Z :=
  foldr (fun c acc => len (storedBytes gzipBest comp (callData c)) + acc) 0 calls.

Definition runTotal (calls : list call) : Z :=
  foldr (fun c acc => callRun c + acc) 0 calls.

(** The [n] bytes at [off] of the spool are [bytes], and there is at least
    one of them. *)
Definition holds (spool : list Byte.byte) (off n : Z) (bytes : list Byte.byte) : Prop :=
  0 <= off /\ 0 < n /\ off + n <= len spool /\ slice spool off n = bytes.

(** What holds of a resolver with compression flag [comp] and its spool
    after the calls [done], the last of them with id [t] and a run that
    ends at [hi]: the cursor is the length of the spool, every location
    of the map and of an entry lies in the spool, distinct contents have
    distinct offsets, and every tile of a call is covered by an entry whose
    bytes in the spool are the stored bytes of the call. *)
Record spoolInv (hashSum : list Byte.byte -> string)
    (gzipBest : list Byte.byte -> list Byte.byte) (comp : bool) (done : list call)
    (t hi : Z) (r : resolver) (spool : list Byte.byte) : Prop := mkSpoolInv {
  inv_comp : compress r = comp;
  inv_locations : locationsHaveEntries r;
  inv_order : entriesUpTo t hi (Entries r);
  inv_cursor : rOffset r = len spool;
  inv_spool : len spool <= storedTotal gzipBest comp done;
  inv_total : 0 <= runTotal done;
  inv_runs : Forall (fun e => RunLength e <= runTotal done) (Entries r);
  inv_bounds :
    Forall (fun e => 0 <= Offset e /\ 0 < Length e /\ Offset e + Length e <= len spool)
      (Entries r);
  inv_map :
    forall k v, OffsetMap r !! k = Some v ->
      exists c, c ∈ done /\ hashSum (callData c) = k /\
        holds spool (olOffset v) (olLength v) (storedBytes gzipBest comp (callData c));
  inv_offsets :
    forall k k' v v', OffsetMap r !! k = Some v -> OffsetMap r !! k' = Some v' ->
      olOffset v = olOffset v' -> k = k';
  inv_known :
    deduplicate r = true ->
    forall e, e ∈ Entries r ->
      exists k, OffsetMap r !! k = Some (mkOffsetLen (Offset e) (Length e));
  inv_tiles :
    forall c x, c ∈ done -> callID c <= x < callID c + callRun c ->
      exists e, e ∈ Entries r /\ inRun x e /\
        slice spool (Offset e) (Length e) = storedBytes gzipBest comp (callData c)
}.

(** The tiles of the tasks: the iterations of the inner loop of the
    writer worker. *)
Definition tilesOf (tasks : list tileTask) : Z :=
  foldr (fun task acc => Z.of_nat (Z.to_nat (RunLength (entry task))) + acc) 0 tasks.

(** Collaborators, a resolver and files to run the assembler on examples:
    ids of three decimal digits [zxy], a header of three bytes, a root
    directory of one byte and no leaves. *)
Definition digitsToID (z x y : Z) : Z := 100 * z + 10 * x + y.

Definition digitsOfID (id : Z) : Z * Z * Z := (id / 100, (id / 10) mod 10, id mod 10).

Definition oneRoot (es : list EntryV3) (maxRoot : Z) (c : Compression)
  : list Byte.byte * list Byte.byte * Z := ([Byte.x01], [], 0).

Definition bracesMetadata (j : unit) (c : Compression) : option (list Byte.byte) :=
  Some [Byte.x7b; Byte.x7d].

Definition threeByteHeader (h : HeaderV3) : list Byte.byte :=
  [Byte.x50; Byte.x4d; Byte.x03].

Definition oneEntryResolver : resolver :=
  mkResolver false false [mkEntryV3 212 0 1 1] 1 ∅ 1.

Definition oneTileSpool : world := mkWorld false [] [Byte.x41].

(** A row with tile coordinates in range. *)
Definition validRow (row : tileRow) : Prop :=
  0 <= zoom_level row < 32 /\ 0 <= tile_column row < 2 ^ 32 /\
  0 <= tile_row row < 2 ^ zoom_level row.

(** Two databases for examples: two tiles with bytes, one tile without. *)
Definition twoTilesDB : mbtiles :=
  mkMbtiles true None [("format", "pbf")] None
    [mkTileRow 2 1 1 [Byte.x41]; mkTileRow 2 1 2 [Byte.x42]] (fun _ _ _ => false).

Definition emptyTileDB : mbtiles :=
  mkMbtiles true None [("format", "pbf")] None
    [mkTileRow 2 1 1 []] (fun _ _ _ => false).

(** ** The metadata of an MBTiles database *)

(** [mbtilesMetadataHasFormat]: the loop looks at the names, which are at
    the even indices. *)
Fixpoint mbtilesMetadataHasFormat (mbtilesMetadata : list string) : bool :=
  match mbtilesMetadata with
  | [] => false
  | name :: rest =>
      if String.eqb name "format" then true
      else
        match rest with
        | [] => false
        | _ :: rest' => mbtilesMetadataHasFormat rest'
        end
  end.

(** The errors that [mbtilesToHeaderJSON] returns: the one of [strconv] and
    its own. *)
Inductive headerError : Type :=
| ErrSyntax            (* the error of strconv.ParseFloat or strconv.ParseInt *)
| ErrZeroAreaBounds.   (* "zero-area bounds in mbtiles metadata" *)

Inductive outcome (A : Type) : Type :=
| Done (a : A)
| Failed (e : headerError)
| Panicked (p : panic).
Arguments Done {A} a.
Arguments Failed {A} e.
Arguments Panicked {A} p.

(** [strings.Split(s, ",")]: the parts of [s] between the commas; [cur] is
    the part being read. *)
Fixpoint splitComma (s : string) (cur : string) : list string :=
  match s with
  | EmptyString => [cur]
  | String c s' =>
      if String.eqb (String c EmptyString) "," then cur :: splitComma s' EmptyString
      else splitComma s' (cur +:+ String c EmptyString)
  end.

(** A value of the metadata object: a string of the database, or a value
    decoded from its [json] row. *)
Inductive jsonValue (V : Type) : Type :=
| JString (s : string)
| JDecoded (v : V).
Arguments JString {V} s.
Arguments JDecoded {V} v.

Definition withTileType (h : HeaderV3) (ty : TileType) : HeaderV3 :=
  let '(mkHeaderV3 ro rl mo ml lo ll dto dl ac ec cc cl ic tc _ minZ maxZ
          minLon minLat maxLon maxLat cz clon clat) := h in
  mkHeaderV3 ro rl mo ml lo ll dto dl ac ec cc cl ic tc ty minZ maxZ
    minLon minLat maxLon maxLat cz clon clat.

Definition withTileCompression (h : HeaderV3) (tc : Compression) : HeaderV3 :=
  let '(mkHeaderV3 ro rl mo ml lo ll dto dl ac ec cc cl ic _ ty minZ maxZ
          minLon minLat maxLon maxLat cz clon clat) := h in
  mkHeaderV3 ro rl mo ml lo ll dto dl ac ec cc cl ic tc ty minZ maxZ
    minLon minLat maxLon maxLat cz clon clat.

Definition withBounds (h : HeaderV3) (minLon minLat maxLon maxLat : Z) : HeaderV3 :=
  let '(mkHeaderV3 ro rl mo ml lo ll dto dl ac ec cc cl ic tc ty minZ maxZ
          _ _ _ _ cz clon clat) := h in
  mkHeaderV3 ro rl mo ml lo ll dto dl ac ec cc cl ic tc ty minZ maxZ
    minLon minLat maxLon maxLat cz clon clat.

Definition withCenter (h : HeaderV3) (clon clat cz : Z) : HeaderV3 :=
  let '(mkHeaderV3 ro rl mo ml lo ll dto dl ac ec cc cl ic tc ty minZ maxZ
          minLon minLat maxLon maxLat _ _ _) := h in
  mkHeaderV3 ro rl mo ml lo ll dto dl ac ec cc cl ic tc ty minZ maxZ
    minLon minLat maxLon maxLat cz clon clat.

Section Metadata.

(** The numbers of the package [strconv] and the decoder of [encoding/json]:
    [parseFloat s] is [strconv.ParseFloat(strings.TrimSpace(s), 64)], [None]
    when it fails, [toE7 f] is [int32(f * E7)], [parseInt8 s] is
    [strconv.ParseInt(strings.TrimSpace(s), 10, 8)], and [unmarshal s] is the
    object that [json.Unmarshal] decodes from [s]. *)
Variable float : Type.
Variable parseFloat : string -> option float.
Variable toE7 : float -> Z.
Variable parseInt8 : string -> option Z.
Variable V : Type.
Variable unmarshal : string -> gmap string V.

(** [parts[i]] parsed as a number: a missing part is an index panic. *)
Definition floatAt (parts : list string) (i : nat) : outcome float :=
  match parts !! i with
  | None => Panicked IndexOutOfRange
  | Some part =>
      match parseFloat part with
      | None => Failed ErrSyntax
      | Some f => Done f
      end
  end.

Definition parseBounds (bounds : string) : outcome (Z * Z * Z * Z) :=
  let parts := splitComma bounds EmptyString in
  match floatAt parts 0 with
  | Failed e => Failed e
  | Panicked p => Panicked p
  | Done minLon =>
      match floatAt parts 1 with
      | Failed e => Failed e
      | Panicked p => Panicked p
      | Done minLat =>
          match floatAt parts 2 with
          | Failed e => Failed e
          | Panicked p => Panicked p
          | Done maxLon =>
              match floatAt parts 3 with
              | Failed e => Failed e
              | Panicked p => Panicked p
              | Done maxLat => Done (toE7 minLon, toE7 minLat, toE7 maxLon, toE7 maxLat)
              end
          end
      end
  end.

Definition parseCenter (center : string) : outcome (Z * Z * Z) :=
  let parts := splitComma center EmptyString in
  match floatAt parts 0 with
  | Failed e => Failed e
  | Panicked p => Panicked p
  | Done centerLon =>
      match floatAt parts 1 with
      | Failed e => Failed e
      | Panicked p => Panicked p
      | Done centerLat =>
          match parts !! 2%nat with
          | None => Panicked IndexOutOfRange
          | Some part =>
              match parseInt8 part with
              | None => Failed ErrSyntax
              | Some centerZoom => Done (toE7 centerLon, toE7 centerLat, u8 centerZoom)
              end
          end
      end
  end.

(** The [switch value] of the case ["format"]. *)
Definition setFormat (header : HeaderV3) (value : string) : HeaderV3 :=
  if String.eqb value "pbf" then withTileType header Mvt
  else if String.eqb value "png"
       then withTileCompression (withTileType header Png) NoCompression
  else if String.eqb value "jpg"
       then withTileCompression (withTileType header Jpeg) NoCompression
  else if String.eqb value "webp"
       then withTileCompression (withTileType header Webp) NoCompression
  else if String.eqb value "avif"
       then withTileCompression (withTileType header Avif) NoCompression
  else header.

(** The [switch value] of the case ["compression"]. *)
Definition setCompression (header : HeaderV3) (value : string) : HeaderV3 :=
  if String.eqb value "gzip"
  then if isMvt (TileType_ header) then withTileCompression header Gzip
       else withTileCompression header NoCompression
  else header.

(** The loop of [mbtilesToHeaderJSON] over the names and values. *)
Fixpoint mapMetadata (mbtilesMetadata : list string) (header : HeaderV3)
    (jsonResult : gmap string (jsonValue V)) (boundsSet : bool)
  : outcome (HeaderV3 * gmap string (jsonValue V) * bool) :=
  match mbtilesMetadata with
  | [] => Done (header, jsonResult, boundsSet)
  | [_] => Panicked IndexOutOfRange
  | key :: value :: rest =>
      if String.eqb key "format" then
        mapMetadata rest (setFormat header value)
          (<["format" := JString value]> jsonResult) boundsSet
      else if String.eqb key "bounds" then
        match parseBounds value with
        | Failed e => Failed e
        | Panicked p => Panicked p
        | Done (minLon, minLat, maxLon, maxLat) =>
            if (minLon >=? maxLon) || (minLat >=? maxLat) then Failed ErrZeroAreaBounds
            else mapMetadata rest (withBounds header minLon minLat maxLon maxLat)
                   jsonResult true
        end
      else if String.eqb key "center" then
        match parseCenter value with
        | Failed e => Failed e
        | Panicked p => Panicked p
        | Done (centerLon, centerLat, centerZoom) =>
            mapMetadata rest (withCenter header centerLon centerLat centerZoom)
              jsonResult boundsSet
        end
      else if String.eqb key "json" then
        mapMetadata rest header ((JDecoded <$> unmarshal value) ∪ jsonResult) boundsSet
      else if String.eqb key "compression" then
        mapMetadata rest (setCompression header value)
          (<["compression" := JString value]> jsonResult) boundsSet
      else
        mapMetadata rest header (<[key := JString value]> jsonResult) boundsSet
  end.

Definition mbtilesToHeaderJSON (mbtilesMetadata : list string)
  : outcome (HeaderV3 * gmap string (jsonValue V)) :=
  match mapMetadata mbtilesMetadata zeroHeader ∅ false with
  | Failed e => Failed e
  | Panicked p => Panicked p
  | Done (header, jsonResult, boundsSet) =>
      if boundsSet then Done (header, jsonResult)
      else Done (withBounds header (-1800000000) (-850000000) 1800000000 850000000,
                 jsonResult)
  end.

End Metadata.

Definition isRaster (t : TileType) : bool :=
  match t with Png | Jpeg | Webp | Avif => true | _ => false end.

(** A version 2 archive with two tiles of one byte, for examples. *)
Definition twoTilesArchive : v2Archive :=
  mkV2Archive true [Byte.x50; Byte.x4d; Byte.x02; Byte.x00]
    (Some [Byte.x1f; Byte.x8b; Byte.x08; Byte.x00])
    (fun _ _ => []) (fun _ => false)
    (fun off _ => Some (if off =? 0 then [Byte.x41] else [Byte.x42])).

(** The header of a row that is accepted keeps the bounds in order and a
    raster type without compression. *)
Definition headerOk (header : HeaderV3) (boundsSet : bool) : Prop :=
  (boundsSet = true ->
   MinLonE7 header < MaxLonE7 header /\ MinLatE7 header < MaxLatE7 header) /\
  (isRaster (TileType_ header) = true -> TileCompression header = NoCompression).

(** A number parser for examples: the value of a string of decimal digits,
    seven zeros added by [digitsE7]. *)
Fixpoint digitsFrom (s : string) (acc : Z) : option Z :=
  match s with
  | EmptyString => Some acc
  | String c s' =>
      let n := Z.of_N (Ascii.N_of_ascii c) in
      if (48 <=? n) && (n <=? 57) then digitsFrom s' (10 * acc + (n - 48)) else None
  end.

Definition digitsValue (s : string) : option Z :=
  match s with
  | EmptyString => None
  | _ => digitsFrom s 0
  end.

Definition digitsE7 (f : Z) : Z := i32 (f * 10000000).

(** The map [unique] of [addDirectoryV2Entries]: from the offset of a leaf
    to the [uint32] length of the last leaf of the directory at that
    offset. *)
Definition uniqueLeaves (dir : directoryV2) : gmap Z Z :=
  fold_left (fun m e => <[rngOffset (snd e) := u32 (rngLength (snd e))]> m)
    (dirLeaves dir) ∅.

(** ** Predicates of the extraction *)

(** The iterations of the inner loop on an entry. *)
Definition runOf (e : EntryV3) : nat := Z.to_nat (RunLength e).

(** The entries that the reader has still to send. *)
Definition readerRest (allEntries : list EntryV3) (r : readerState) : list EntryV3 :=
  match r with
  | Opening => allEntries
  | Reading rest => rest
  | Sending task rest => entry task :: rest
  | Closed _ => []
  end.

(** The task and the index that a worker is at, and the iterations that it
    has not completed. *)
Definition workerAt (s : workerState) : option (tileTask * Z) :=
  match s with
  | Looping task _ i => Some (task, i)
  | Writing task _ i _ => Some (task, i)
  | _ => None
  end.

Definition workLeft (s : workerState) : nat :=
  match s with
  | Looping _ n _ => n
  | Writing _ n _ _ => S n
  | _ => O
  end.

Definition isBusy (s : workerState) : bool :=
  match s with Looping _ _ _ | Writing _ _ _ _ => true | _ => false end.

(** The tiles that no worker has dealt with yet. *)
Definition pendingCount (allEntries : list EntryV3) (p : pipeline) : nat :=
  (sum_list_with runOf (readerRest allEntries (reader p))
   + sum_list_with (fun task => runOf (entry task)) (taskCh p)
   + sum_list_with workLeft (workers p))%nat.

(** The tile [i] of the entry [en] is still to come: the reader has not
    sent the entry, or it is in the channel, or a worker is on it at an
    index up to [i]. *)
Definition pendingTile (allEntries : list EntryV3) (p : pipeline) (en : EntryV3) (i : Z)
  : Prop :=
  en ∈ readerRest allEntries (reader p) \/
  (exists task, task ∈ taskCh p /\ entry task = en) \/
  (exists w s task i0,
     workers p !! w = Some s /\ workerAt s = Some (task, i0) /\
     entry task = en /\ i0 <= i).

(** The steps that the goroutines have left, at most. *)
Definition taskWork (e : EntryV3) : nat := (2 * runOf e + 2)%nat.

Definition readerWork (allEntries : list EntryV3) (r : readerState) : nat :=
  match r with
  | Opening => 2 + sum_list_with (fun e => 2 + taskWork e) allEntries
  | Reading rest => 1 + sum_list_with (fun e => 2 + taskWork e) rest
  | Sending task rest =>
      2 + taskWork (entry task) + sum_list_with (fun e => 2 + taskWork e) rest
  | Closed _ => 0
  end%nat.

Definition workerWork (s : workerState) : nat :=
  match s with
  | Waiting => 1
  | Looping _ n _ => 2 * n + 2
  | Writing _ n _ _ => 2 * n + 3
  | Stopped _ => 0
  end%nat.

Definition work (allEntries : list EntryV3) (p : pipeline) : nat :=
  (readerWork allEntries (reader p)
   + sum_list_with (fun task => taskWork (entry task)) (taskCh p)
   + sum_list_with workerWork (workers p))%nat.

Section PipelineMoves.

Variable tilePath : Z -> string.
Variable statFails : nat -> string -> bool.
Variable writeFile : nat -> string -> writeResult.
Variable numWorkers : nat.
Variable tileDataOffset : Z.
Variable allEntries : list EntryV3.
Variable reopens : bool.
Variable readAt : Z -> Z -> option (list Byte.byte).

(** The steps of [readerStep] and [workerStep] that change the state. *)
Inductive moves (p : pipeline) : pipeline -> Prop :=
| move_open :
    reader p = Opening -> reopens = true ->
    moves p (mkPipeline (shared p) (taskCh p) (groupErr p) (Reading allEntries) (workers p))
| move_open_fail :
    reader p = Opening -> reopens = false ->
    moves p (mkPipeline (shared p) (taskCh p) (goReturn (Some ErrOpenReader) (groupErr p))
               (Closed (Some ErrOpenReader)) (workers p))
| move_read_end :
    reader p = Reading [] ->
    moves p (mkPipeline (shared p) (taskCh p) (groupErr p) (Closed None) (workers p))
| move_read e rest data :
    reader p = Reading (e :: rest) ->
    readAt (Length e) (u64 (tileDataOffset + Offset e)) = Some data ->
    moves p (mkPipeline (shared p) (taskCh p) (groupErr p) (Sending (mkTileTask e data) rest)
               (workers p))
| move_read_fail e rest :
    reader p = Reading (e :: rest) ->
    readAt (Length e) (u64 (tileDataOffset + Offset e)) = None ->
    moves p (mkPipeline (shared p) (taskCh p) (goReturn (Some ErrReadTileData) (groupErr p))
               (Closed (Some ErrReadTileData)) (workers p))
| move_send task rest :
    reader p = Sending task rest ->
    (length (taskCh p) < numWorkers * 2)%nat ->
    moves p (mkPipeline (shared p) (taskCh p ++ [task]) (groupErr p) (Reading rest)
               (workers p))
| move_reader_done task rest e :
    reader p = Sending task rest -> groupErr p = Some e ->
    moves p (mkPipeline (shared p) (taskCh p) (groupErr p)
               (Closed (Some ErrContextCanceled)) (workers p))
| move_receive w task rest :
    workers p !! w = Some Waiting -> taskCh p = task :: rest ->
    moves p (mkPipeline (shared p) rest (groupErr p) (reader p)
               (<[w := Looping task (Z.to_nat (RunLength (entry task))) 0]> (workers p)))
| move_return w e :
    workers p !! w = Some Waiting -> taskCh p = [] -> reader p = Closed e ->
    moves p (mkPipeline (shared p) [] (groupErr p) (reader p)
               (<[w := Stopped None]> (workers p)))
| move_next w task i :
    workers p !! w = Some (Looping task O i) ->
    moves p (mkPipeline (shared p) (taskCh p) (groupErr p) (reader p)
               (<[w := Waiting]> (workers p)))
| move_worker_done w task n i e :
    workers p !! w = Some (Looping task (S n) i) -> groupErr p = Some e ->
    moves p (mkPipeline (shared p) (taskCh p) (groupErr p) (reader p)
               (<[w := Stopped (Some ErrContextCanceled)]> (workers p)))
| move_stat w task n i :
    workers p !! w = Some (Looping task (S n) i) -> groupErr p = None ->
    statNotExist
      (statFails (polls (shared p)) (tilePath (u64 (TileID (entry task) + i))))
      (tilePath (u64 (TileID (entry task) + i))) (files (shared p)) = true ->
    moves p (mkPipeline
               (mkExtraction (files (shared p)) (processedTiles (shared p))
                  (failed (shared p)) (S (polls (shared p))))
               (taskCh p) (groupErr p) (reader p)
               (<[w := Writing task n i (polls (shared p))]> (workers p)))
| move_counted w task n i :
    workers p !! w = Some (Looping task (S n) i) -> groupErr p = None ->
    statNotExist
      (statFails (polls (shared p)) (tilePath (u64 (TileID (entry task) + i))))
      (tilePath (u64 (TileID (entry task) + i))) (files (shared p)) = false ->
    moves p (mkPipeline
               (mkExtraction (files (shared p)) (u32 (processedTiles (shared p) + 1))
                  (failed (shared p)) (S (polls (shared p))))
               (taskCh p) (groupErr p) (reader p)
               (<[w := Looping task n (i + 1)]> (workers p)))
| move_written w task n i k tree :
    workers p !! w = Some (Writing task n i k) ->
    osWriteFile (writeFile k (tilePath (u64 (TileID (entry task) + i))))
      (tilePath (u64 (TileID (entry task) + i))) (tileData task) (files (shared p))
    = (true, tree) ->
    moves p (mkPipeline
               (mkExtraction tree (u32 (processedTiles (shared p) + 1))
                  (failed (shared p)) (polls (shared p)))
               (taskCh p) (groupErr p) (reader p)
               (<[w := Looping task n (i + 1)]> (workers p)))
| move_write_failed w task n i k tree :
    workers p !! w = Some (Writing task n i k) ->
    osWriteFile (writeFile k (tilePath (u64 (TileID (entry task) + i))))
      (tilePath (u64 (TileID (entry task) + i))) (tileData task) (files (shared p))
    = (false, tree) ->
    moves p (mkPipeline
               (mkExtraction tree (processedTiles (shared p))
                  (failed (shared p) ++ [tilePath (u64 (TileID (entry task) + i))])
                  (polls (shared p)))
               (taskCh p) (groupErr p) (reader p)
               (<[w := Looping task n (i + 1)]> (workers p))).

(** A read that does not fail. *)
Definition readOk (e : EntryV3) : Prop :=
  readAt (Length e) (u64 (tileDataOffset + Offset e)) <> None.

(** What the reader has done when it is where it is. *)
Definition readerInv (r : readerState) : Prop :=
  match r with
  | Opening => True
  | Reading rest =>
      reopens = true /\ exists done, allEntries = done ++ rest /\ Forall readOk done
  | Sending task rest =>
      reopens = true /\
      readAt (Length (entry task)) (u64 (tileDataOffset + Offset (entry task)))
        = Some (tileData task) /\
      exists done, allEntries = done ++ entry task :: rest /\ Forall readOk done
  | Closed None => reopens = true /\ Forall readOk allEntries
  | Closed (Some _) => True
  end.

(** What holds of the goroutines in every state that they reach. *)
Record pipelineInv (p : pipeline) : Prop := mkPipelineInv {
  inv_workers : length (workers p) = numWorkers;
  inv_reader : readerInv (reader p);
  inv_reader_err : forall e, reader p = Closed (Some e) -> is_Some (groupErr p);
  inv_worker_err :
    forall w e, workers p !! w = Some (Stopped (Some e)) -> is_Some (groupErr p);
  inv_worker_end :
    forall w, workers p !! w = Some (Stopped None) ->
      taskCh p = [] /\ exists e, reader p = Closed e;
  inv_channel : (length (taskCh p) <= numWorkers * 2)%nat;
  inv_cause :
    forall e, groupErr p = Some e ->
      (e = ErrOpenReader /\ reopens = false) \/
      (e = ErrReadTileData /\ exists en, en ∈ allEntries /\ ~ readOk en);
  inv_at :
    forall w s task i,
      workers p !! w = Some s -> workerAt s = Some (task, i) ->
      0 <= i /\ i + Z.of_nat (workLeft s) = Z.of_nat (runOf (entry task));
  inv_settled :
    groupErr p = None ->
    forall en i, en ∈ allEntries -> 0 <= i < RunLength en ->
      settled statFails (shared p) (tilePath (u64 (TileID en + i))) \/
      pendingTile allEntries p en i;
  inv_count :
    groupErr p = None ->
    u32 (processedTiles (shared p) + len (failed (shared p))
         + Z.of_nat (pendingCount allEntries p))
    = u32 (Z.of_nat (sum_list_with runOf allEntries));
  inv_log :
    forall path, path ∈ failed (shared p) ->
      exists k, writeFile k path <> Written
}.

End PipelineMoves.

(** * Properties *)

(** ** Arithmetic of the machine integers *)

Lemma u32_range (n : Z) : 0 <= u32 n < 2 ^ 32.
Proof. unfold u32. apply Z.mod_pos_bound. lia. Qed.

Lemma u64_range (n : Z) : 0 <= u64 n < 2 ^ 64.
Proof. unfold u64. apply Z.mod_pos_bound. lia. Qed.

Lemma u32_small (n : Z) : 0 <= n < 2 ^ 32 -> u32 n = n.
Proof. intros H. unfold u32. apply Z.mod_small. lia. Qed.

Lemma u64_small (n : Z) : 0 <= n < 2 ^ 64 -> u64 n = n.
Proof. intros H. unfold u64. apply Z.mod_small. lia. Qed.

Lemma u32_le (n : Z) : 0 <= n -> u32 n <= n.
Proof. intros H. unfold u32. apply Z.mod_le; lia. Qed.

(** The comparison that guards the panic of the merge branch is between a
    [uint32] and [math.MaxUint32]. *)
Lemma u32_never_exceeds (n : Z) : (u32 n >? MaxUint32) = false.
Proof.
  pose proof (u32_range n) as H. unfold MaxUint32.
  destruct (Z.gtb_spec (u32 n) (2 ^ 32 - 1)); [lia | reflexivity].
Qed.

(** ** Lists that grow at the end *)

Lemma StronglySorted_snoc {A} (R : A -> A -> Prop) (l : list A) (x : A) :
  StronglySorted R l -> Forall (fun a => R a x) l -> StronglySorted R (l ++ [x]).
Proof.
  induction 1 as [|a l Hl IH Ha]; intros Hx; simpl.
  - repeat constructor.
  - inversion Hx as [|? ? Hax Hlx]; subst. constructor; [auto|].
    apply Forall_app. split; [assumption | repeat constructor; assumption].
Qed.

Lemma StronglySorted_snoc_inv {A} (R : A -> A -> Prop) (l : list A) (x : A) :
  StronglySorted R (l ++ [x]) -> StronglySorted R l /\ Forall (fun a => R a x) l.
Proof.
  induction l as [|a l IH]; simpl; intros H.
  - split; constructor.
  - inversion H as [|? ? Hl Ha]; subst.
    destruct (IH Hl) as [Hs Hx].
    apply Forall_app in Ha as [Ha Hax]. inversion Hax; subst.
    split; constructor; assumption.
Qed.

Lemma StronglySorted_lookup {A} (R : A -> A -> Prop) (l : list A) (i j : nat) (a b : A) :
  StronglySorted R l -> l !! i = Some a -> l !! j = Some b -> (i < j)%nat -> R a b.
Proof.
  intros Hs. revert i j. induction Hs as [|c l Hl IH Hc]; intros i j Hi Hj Hlt.
  - discriminate.
  - destruct j as [|j]; [lia|]. destruct i as [|i]; simpl in *.
    + injection Hi as ->. rewrite Forall_forall in Hc. apply Hc.
      eapply list_elem_of_lookup_2. eassumption.
    + eapply IH; eauto. lia.
Qed.

Lemma replace_last {A} (l : list A) (x y : A) :
  <[pred (length (l ++ [x])) := y]> (l ++ [x]) = l ++ [y].
Proof.
  rewrite length_app. simpl. replace (pred (length l + 1)) with (length l + 0)%nat by lia.
  rewrite insert_app_r. reflexivity.
Qed.

(** ** The resolver *)

Section ResolverFacts.

Variable hashSum : list Byte.byte -> string.
Variable gzipBest : list Byte.byte -> list Byte.byte.

Local Abbreviation add := (AddTileIsNew hashSum gzipBest).
Local Abbreviation feedAll := (feed hashSum gzipBest).

(** The three ways in which a call returns: it extends the run of the
    last entry, it adds an entry for a content already stored, or it
    stores a new content. *)
Lemma AddTileIsNew_inv r tileID data runLength r' out :
  add r tileID data runLength = Ok (r', out) ->
  (exists found lastEntry init,
      deduplicate r = true /\ OffsetMap r !! hashSum data = Some found /\
      Entries r = init ++ [lastEntry] /\
      tileID = u64 (TileID lastEntry + RunLength lastEntry) /\
      Offset lastEntry = olOffset found /\
      Entries r' = init ++ [addRunLength runLength lastEntry] /\
      OffsetMap r' = OffsetMap r /\ rOffset r' = rOffset r /\ out = (false, []))
  \/ (exists found,
      deduplicate r = true /\ OffsetMap r !! hashSum data = Some found /\
      Entries r' = Entries r ++ [mkEntryV3 tileID (olOffset found) (olLength found) runLength] /\
      OffsetMap r' = OffsetMap r /\ rOffset r' = rOffset r /\ out = (false, []))
  \/ ((deduplicate r = false \/ OffsetMap r !! hashSum data = None) /\
      Entries r' =
        Entries r ++ [mkEntryV3 tileID (rOffset r)
                        (u32 (len (storedBytes gzipBest (compress r) data))) runLength] /\
      OffsetMap r' =
        (if deduplicate r
         then <[hashSum data :=
                  mkOffsetLen (rOffset r) (u32 (len (storedBytes gzipBest (compress r) data)))]>
                (OffsetMap r)
         else OffsetMap r) /\
      rOffset r' = u64 (rOffset r + len (storedBytes gzipBest (compress r) data)) /\
      out = (true, storedBytes gzipBest (compress r) data)).
Proof.
  unfold AddTileIsNew. cbv zeta. intros H.
  destruct (deduplicate r) eqn:Hd.
  - destruct (OffsetMap r !! hashSum data) as [found|] eqn:Hf.
    + destruct (last (Entries r)) as [lastEntry|] eqn:Hlast; [|discriminate].
      destruct (tileID =? u64 (TileID lastEntry + RunLength lastEntry)) eqn:Ht;
        [destruct (Offset lastEntry =? olOffset found) eqn:Ho|]; simpl in H.
      * rewrite u32_never_exceeds in H. injection H as <- <-.
        apply last_Some in Hlast as [init Hinit].
        left. exists found, lastEntry, init. simpl.
        rewrite Hinit, replace_last.
        apply Z.eqb_eq in Ht, Ho. auto 10.
      * injection H as <- <-. right. left. exists found. simpl. auto 10.
      * injection H as <- <-. right. left. exists found. simpl. auto 10.
    + injection H as <- <-. right. right. simpl. auto 10.
  - injection H as <- <-. right. right. simpl. auto 10.
Qed.

Lemma AddTileIsNew_flags r tileID data runLength r' out :
  add r tileID data runLength = Ok (r', out) ->
  deduplicate r' = deduplicate r /\ compress r' = compress r.
Proof.
  unfold AddTileIsNew. cbv zeta. intros H.
  repeat match type of H with
         | context [match ?x with _ => _ end] => destruct x
         end; try discriminate; injection H as <- <-; auto.
Qed.

Lemma AddTileIsNew_addressed r tileID data runLength r' out :
  add r tileID data runLength = Ok (r', out) ->
  AddressedTiles r' = u64 (AddressedTiles r + 1).
Proof.
  unfold AddTileIsNew. cbv zeta. intros H.
  repeat match type of H with
         | context [match ?x with _ => _ end] => destruct x
         end; try discriminate; injection H as <- <-; auto.
Qed.

(** The explicit panic of the merge branch is never reached. *)
Lemma AddTileIsNew_no_run_length_panic r tileID data runLength :
  add r tileID data runLength <> Crash RunLengthExceeded.
Proof.
  intros H. unfold AddTileIsNew in H. cbv zeta in H.
  repeat
    match type of H with
    | context [u32 ?n >? MaxUint32] => rewrite (u32_never_exceeds n) in H
    | context [match ?x with _ => _ end] => destruct x
    end; discriminate.
Qed.

Lemma locations_new dedup comp : locationsHaveEntries (newResolver dedup comp).
Proof. intros k v H. simpl in H. rewrite lookup_empty in H. discriminate. Qed.

Lemma locations_step r tileID data runLength r' out :
  locationsHaveEntries r ->
  add r tileID data runLength = Ok (r', out) ->
  locationsHaveEntries r'.
Proof.
  intros Inv H k v Hk.
  destruct (AddTileIsNew_inv _ _ _ _ _ _ H)
    as [(found & lastEntry & init & Hd & Hf & Hes & _ & _ & Hes' & Hm & _)
       |[(found & Hd & Hf & Hes' & Hm & _)
        |(Hmiss & Hes' & Hm & _)]].
  - (* the last entry keeps its offset and length *)
    rewrite Hm in Hk. destruct (Inv k v Hk) as (e & He & Ho & Hl).
    rewrite Hes'. rewrite Hes in He.
    apply elem_of_app in He as [He | He].
    + exists e. rewrite elem_of_app. auto.
    + apply list_elem_of_singleton in He as ->.
      exists (addRunLength runLength lastEntry).
      rewrite elem_of_app, list_elem_of_singleton. simpl. auto.
  - rewrite Hm in Hk. destruct (Inv k v Hk) as (e & He & Ho & Hl).
    exists e. rewrite Hes', elem_of_app. auto.
  - rewrite Hes'. rewrite Hm in Hk.
    destruct (deduplicate r).
    + destruct (decide (hashSum data = k)) as [<- | Hne].
      * rewrite lookup_insert_eq in Hk. injection Hk as <-.
        eexists. rewrite elem_of_app, list_elem_of_singleton.
        split; [right; reflexivity|]. simpl. auto.
      * rewrite lookup_insert_ne in Hk by assumption.
        destruct (Inv k v Hk) as (e & He & Ho & Hl).
        exists e. rewrite elem_of_app. auto.
    + destruct (Inv k v Hk) as (e & He & Ho & Hl).
      exists e. rewrite elem_of_app. auto.
Qed.

Lemma reachable_locations r :
  reachable hashSum gzipBest r -> locationsHaveEntries r.
Proof.
  induction 1 as [dedup comp | r tileID data runLength r' out _ IH Hadd].
  - apply locations_new.
  - eapply locations_step; eassumption.
Qed.

(** A resolver whose locations have entries takes every call. *)
Lemma AddTileIsNew_returns r tileID data runLength :
  locationsHaveEntries r ->
  exists r' out, add r tileID data runLength = Ok (r', out).
Proof.
  intros Inv. unfold AddTileIsNew. cbv zeta.
  destruct (if deduplicate r then OffsetMap r !! hashSum data else None) as [found|] eqn:Hf.
  - destruct (deduplicate r); [|discriminate].
    destruct (Inv _ _ Hf) as (e & He & _).
    destruct (last (Entries r)) as [lastEntry|] eqn:Hlast.
    + rewrite u32_never_exceeds.
      destruct (_ && _); eauto.
    + apply last_None in Hlast. rewrite Hlast in He. inversion He.
  - eauto.
Qed.

Lemma feed_app r calls1 calls2 :
  feedAll r (calls1 ++ calls2) =
  match feedAll r calls1 with
  | Ok r' => feedAll r' calls2
  | Err e => Err e
  | Crash p => Crash p
  end.
Proof.
  revert r. induction calls1 as [|[[t d] rl] calls1 IH]; intros r; simpl.
  - reflexivity.
  - destruct (add r t d rl) as [[r' o]| |]; auto.
Qed.

Lemma feed_returns calls : forall r,
  locationsHaveEntries r -> exists r', feedAll r calls = Ok r'.
Proof.
  induction calls as [|[[t d] rl] calls IH]; intros r Inv; simpl.
  - eauto.
  - destruct (AddTileIsNew_returns r t d rl Inv) as (r' & out & E).
    rewrite E. apply IH. eapply locations_step; eassumption.
Qed.

End ResolverFacts.

(** ** Order of the entries *)

Section EntryOrder.

Variable hashSum : list Byte.byte -> string.
Variable gzipBest : list Byte.byte -> list Byte.byte.

Local Abbreviation add := (AddTileIsNew hashSum gzipBest).
Local Abbreviation feedAll := (feed hashSum gzipBest).

(** The ids of the entries are ids of calls: a call above all of them
    keeps the entries in ascending order. *)
Lemma lowerID_step r tileID data runLength r' out :
  StronglySorted lowerID (Entries r) ->
  Forall (fun e => TileID e < tileID) (Entries r) ->
  add r tileID data runLength = Ok (r', out) ->
  StronglySorted lowerID (Entries r') /\
  Forall (fun e => TileID e <= tileID) (Entries r').
Proof.
  intros Hs Hb H.
  destruct (AddTileIsNew_inv _ _ _ _ _ _ _ _ H)
    as [(found & lastEntry & init & _ & _ & Hes & _ & _ & Hes' & _)
       |[(found & _ & _ & Hes' & _)
        |(_ & Hes' & _)]]; rewrite Hes'.
  - rewrite Hes in Hs, Hb.
    apply StronglySorted_snoc_inv in Hs as [Hs Hlast].
    apply Forall_app in Hb as [Hb Hb'].
    split.
    + apply StronglySorted_snoc; [assumption|].
      eapply Forall_impl; [exact Hlast|]. intros a Ha. exact Ha.
    + apply Forall_app. split.
      * eapply Forall_impl; [exact Hb|]. simpl. intros; lia.
      * inversion Hb'; subst. repeat constructor. simpl. lia.
  - split.
    + apply StronglySorted_snoc; [assumption|]. exact Hb.
    + apply Forall_app. split.
      * eapply Forall_impl; [exact Hb|]. simpl. intros; lia.
      * repeat constructor. simpl. lia.
  - split.
    + apply StronglySorted_snoc; [assumption|]. exact Hb.
    + apply Forall_app. split.
      * eapply Forall_impl; [exact Hb|]. simpl. intros; lia.
      * repeat constructor. simpl. lia.
Qed.

Lemma increasingIDs_cons c calls :
  increasingIDs (c :: calls) ->
  Forall (fun d => callID c < callID d) calls /\ increasingIDs calls.
Proof.
  intros H. split.
  - apply Forall_lookup. intros j d Hd.
    apply (H 0%nat (S j) c d); [reflexivity | exact Hd | lia].
  - intros i j a b Ha Hb Hlt.
    apply (H (S i) (S j) a b); [exact Ha | exact Hb | lia].
Qed.

Lemma feed_lowerID calls : forall r r',
  StronglySorted lowerID (Entries r) ->
  Forall (fun e => Forall (fun c => TileID e < callID c) calls) (Entries r) ->
  increasingIDs calls ->
  feedAll r calls = Ok r' ->
  StronglySorted lowerID (Entries r').
Proof.
  induction calls as [|[[t d] rl] calls IH]; intros r r' Hs Hb Hinc H; simpl in H.
  - injection H as <-. exact Hs.
  - destruct (add r t d rl) as [[r1 o]| |] eqn:E; try discriminate.
    apply increasingIDs_cons in Hinc as [Hc Hinc].
    destruct (lowerID_step r t d rl r1 o Hs) as [Hs1 Hb1]; [|exact E|].
    + eapply Forall_impl; [exact Hb|]. intros e He. inversion He; subst. assumption.
    + apply (IH r1 r'); try assumption.
      eapply Forall_impl; [exact Hb1|]. intros e He.
      eapply Forall_impl; [exact Hc|]. intros c Hlt. unfold callID in *. simpl in *. lia.
Qed.

(** A call that starts at or after the end of the run before it keeps the
    runs of the entries apart. *)
Lemma entriesUpTo_step r t hi tileID data runLength r' out :
  entriesUpTo t hi (Entries r) ->
  t < tileID -> hi <= tileID ->
  0 <= tileID < 2 ^ 64 -> 0 <= runLength < 2 ^ 32 ->
  add r tileID data runLength = Ok (r', out) ->
  entriesUpTo tileID (tileID + runLength) (Entries r').
Proof.
  intros [Hs Hb] Ht Hhi Hid Hrl H. unfold entriesUpTo.
  assert (Hnew : forall e, TileID e = tileID -> RunLength e = runLength ->
            StronglySorted before (Entries r ++ [e]) /\
            Forall (fun e => 0 <= TileID e <= tileID /\ 0 <= RunLength e /\
                             TileID e + RunLength e <= tileID + runLength)
              (Entries r ++ [e])).
  { intros e He1 He2. split.
    - apply StronglySorted_snoc; [assumption|].
      eapply Forall_impl; [exact Hb|]. unfold before. simpl. intros; lia.
    - apply Forall_app. split.
      + eapply Forall_impl; [exact Hb|]. simpl. intros; lia.
      + repeat constructor; lia. }
  destruct (AddTileIsNew_inv _ _ _ _ _ _ _ _ H)
    as [(found & lastEntry & init & _ & _ & Hes & Heq & _ & Hes' & _)
       |[(found & _ & _ & Hes' & _)
        |(_ & Hes' & _)]]; rewrite Hes'.
  - rewrite Hes in Hs, Hb.
    apply StronglySorted_snoc_inv in Hs as [Hs Hlast].
    apply Forall_app in Hb as [Hb Hb'].
    inversion Hb' as [|? ? (Hl1 & Hl2 & Hl3) _]; subst lastEntry.
    rewrite u64_small in Heq by lia.
    split.
    + apply StronglySorted_snoc; [assumption|].
      eapply Forall_impl; [exact Hlast|]. intros a Ha. exact Ha.
    + apply Forall_app. split.
      * eapply Forall_impl; [exact Hb|]. simpl. intros; lia.
      * repeat constructor; simpl; try lia.
        -- apply u32_range.
        -- pose proof (u32_le (RunLength x + runLength)). lia.
  - apply Hnew; reflexivity.
  - apply Hnew; reflexivity.
Qed.

Lemma feed_entriesUpTo calls : forall r r' t hi,
  entriesUpTo t hi (Entries r) ->
  Forall wellTyped calls ->
  callsAfter t hi calls ->
  feedAll r calls = Ok r' ->
  exists t' hi', entriesUpTo t' hi' (Entries r').
Proof.
  induction calls as [|[[id d] rl] calls IH]; intros r r' t hi Hinv Hty Hc H; simpl in H.
  - injection H as <-. eauto.
  - destruct (add r id d rl) as [[r1 o]| |] eqn:E; try discriminate.
    inversion Hty as [|? ? [Hid Hrl] Hty']; subst.
    destruct Hc as (Ht & Hhi & Hc). unfold callID, callRun in *. simpl in *.
    eapply IH; [|exact Hty'|exact Hc|exact H].
    eapply entriesUpTo_step; eauto.
Qed.

Lemma sorted_ascending es : StronglySorted lowerID es -> ascendingTileIDs es.
Proof.
  intros Hs i j a b Ha Hb Hlt.
  exact (StronglySorted_lookup lowerID es i j a b Hs Ha Hb Hlt).
Qed.

Lemma entriesUpTo_disjoint t hi es : entriesUpTo t hi es -> disjointRuns es.
Proof.
  intros [Hs _] i j a b x Ha Hb Hne Hxa Hxb. unfold inRun in *.
  destruct (Nat.lt_total i j) as [Hlt | [Heq | Hgt]]; [|contradiction|].
  - destruct (StronglySorted_lookup before es i j a b Hs Ha Hb Hlt). lia.
  - destruct (StronglySorted_lookup before es j i b a Hs Hb Ha Hgt). lia.
Qed.

(** C1, amended: calls in strictly increasing id order leave the entries
    in strictly ascending [TileID] order; when, moreover, no call's run
    [tileID, tileID+runLength) reaches the id of the next call (as with
    the run length 1 of every caller), the runs of distinct entries do
    not overlap. *)
Theorem increasing_calls_sorted_entries dedup comp calls :
  Forall wellTyped calls ->
  increasingIDs calls ->
  exists r,
    feedAll (newResolver dedup comp) calls = Ok r /\
    ascendingTileIDs (Entries r) /\
    (separatedCalls calls -> disjointRuns (Entries r)).
Proof.
  intros Hty Hinc.
  destruct (feed_returns hashSum gzipBest calls (newResolver dedup comp)
              (locations_new dedup comp)) as [r Hr].
  exists r. split; [exact Hr|]. split.
  - apply sorted_ascending.
    eapply feed_lowerID; [| |exact Hinc|exact Hr]; simpl; constructor.
  - intros Hsep.
    destruct (feed_entriesUpTo calls (newResolver dedup comp) r (-1) 0) as (t & hi & Hinv);
      try assumption.
    + split; constructor.
    + eapply entriesUpTo_disjoint. exact Hinv.
Qed.

End EntryOrder.

(** The calls [(5, "A", 10)] and [(6, "B", 1)] are in increasing id order,
    and the run of the first entry covers the id of the second. *)
Lemma increasing_ids_overlap_counterexample :
  ~ (forall (hashSum : list Byte.byte -> string) (gzipBest : list Byte.byte -> list Byte.byte)
            (dedup comp : bool) (calls : list call) (r : resolver),
        Forall wellTyped calls ->
        increasingIDs calls ->
        feed hashSum gzipBest (newResolver dedup comp) calls = Ok r ->
        ascendingTileIDs (Entries r) /\ disjointRuns (Entries r)).
Proof.
  intros H.
  destruct (H fnvSum framed false false
              [(5, [Byte.x41], 10); (6, [Byte.x42], 1)]
              (mkResolver false false
                 [mkEntryV3 5 0 1 10; mkEntryV3 6 1 1 1] 2 ∅ 2)) as [_ Hd].
  - repeat constructor; unfold callID, callRun; simpl; lia.
  - intros [|[|i]] [|[|j]] c d Hc Hd Hlt; simpl in *; try lia; try discriminate.
    injection Hc as <-. injection Hd as <-. unfold callID. simpl. lia.
  - reflexivity.
  - apply (Hd 0%nat 1%nat (mkEntryV3 5 0 1 10) (mkEntryV3 6 1 1 1) 6);
      try reflexivity; try lia; unfold inRun; simpl; lia.
Qed.

Lemma increasing_calls_sorted_entries_witness :
  exists r,
    feed fnvSum framed (newResolver true true)
      [(5, [Byte.x41], 2); (7, [Byte.x41], 1); (9, [Byte.x42], 1)] = Ok r /\
    ascendingTileIDs (Entries r) /\
    (separatedCalls [(5, [Byte.x41], 2); (7, [Byte.x41], 1); (9, [Byte.x42], 1)] ->
     disjointRuns (Entries r)).
Proof.
  apply (increasing_calls_sorted_entries fnvSum framed true true
           [(5, [Byte.x41], 2); (7, [Byte.x41], 1); (9, [Byte.x42], 1)]).
  - repeat constructor; unfold callID, callRun; simpl; lia.
  - intros [|[|[|i]]] [|[|[|j]]] c d Hc Hd Hlt; simpl in *; try lia; try discriminate;
      injection Hc as <-; injection Hd as <-; unfold callID; simpl; lia.
Defined.

(** ** Run lengths and counters *)

Section RunLengths.

Variable hashSum : list Byte.byte -> string.
Variable gzipBest : list Byte.byte -> list Byte.byte.

Local Abbreviation add := (AddTileIsNew hashSum gzipBest).
Local Abbreviation feedAll := (feed hashSum gzipBest).
Local Abbreviation stored := (storedBytes gzipBest).

(** The state after [n] identical tiles at the ids from [id] on. *)
Local Abbreviation merged comp id data n :=
  (mkResolver true comp
     [mkEntryV3 id 0 (u32 (len (stored comp data))) n]
     (u64 (0 + len (stored comp data)))
     (<[hashSum data := mkOffsetLen 0 (u32 (len (stored comp data)))]> ∅)
     n).

Lemma add_first comp id data runLength :
  0 <= runLength < 2 ^ 64 ->
  add (newResolver true comp) id data runLength =
  Ok (mkResolver true comp
        [mkEntryV3 id 0 (u32 (len (stored comp data))) runLength]
        (u64 (0 + len (stored comp data)))
        (<[hashSum data := mkOffsetLen 0 (u32 (len (stored comp data)))]> ∅)
        1,
      (true, stored comp data)).
Proof. intros _. unfold AddTileIsNew. simpl. rewrite lookup_empty. reflexivity. Qed.

(** A dedup hit on the state [merged] at the id that follows its run. *)
Lemma add_merge comp id data n runLength addressed :
  0 <= id -> 0 <= n -> id + n < 2 ^ 64 ->
  add (mkResolver true comp
         [mkEntryV3 id 0 (u32 (len (stored comp data))) n]
         (u64 (0 + len (stored comp data)))
         (<[hashSum data := mkOffsetLen 0 (u32 (len (stored comp data)))]> ∅)
         addressed)
      (id + n) data runLength =
  Ok (mkResolver true comp
        [mkEntryV3 id 0 (u32 (len (stored comp data))) (u32 (n + runLength))]
        (u64 (0 + len (stored comp data)))
        (<[hashSum data := mkOffsetLen 0 (u32 (len (stored comp data)))]> ∅)
        (u64 (addressed + 1)),
      (false, [])).
Proof.
  intros Hid Hn Hlt. unfold AddTileIsNew. simpl.
  rewrite lookup_insert_eq. simpl.
  rewrite (u64_small (id + n)) by lia.
  rewrite Z.eqb_refl. simpl.
  rewrite u32_never_exceeds. reflexivity.
Qed.

(** A dedup hit at an id that does not follow the run of the last entry. *)
Lemma add_known comp a data n b runLength addressed :
  b <> u64 (a + n) ->
  add (mkResolver true comp
         [mkEntryV3 a 0 (u32 (len (stored comp data))) n]
         (u64 (0 + len (stored comp data)))
         (<[hashSum data := mkOffsetLen 0 (u32 (len (stored comp data)))]> ∅)
         addressed)
      b data runLength =
  Ok (mkResolver true comp
        [mkEntryV3 a 0 (u32 (len (stored comp data))) n;
         mkEntryV3 b 0 (u32 (len (stored comp data))) runLength]
        (u64 (0 + len (stored comp data)))
        (<[hashSum data := mkOffsetLen 0 (u32 (len (stored comp data)))]> ∅)
        (u64 (addressed + 1)),
      (false, [])).
Proof.
  intros Hne. unfold AddTileIsNew. simpl.
  rewrite lookup_insert_eq. simpl.
  apply Z.eqb_neq in Hne. rewrite Hne. reflexivity.
Qed.

Lemma consecutiveCalls_S id data n :
  consecutiveCalls id data (S n) =
  consecutiveCalls id data n ++ [(id + Z.of_nat n, data, 1)].
Proof. unfold consecutiveCalls. rewrite seq_S, map_app. reflexivity. Qed.

Lemma feed_consecutive comp id data n :
  Z.of_nat (S n) <= MaxUint32 -> 0 <= id -> id + Z.of_nat (S n) <= 2 ^ 64 ->
  feedAll (newResolver true comp) (consecutiveCalls id data (S n)) =
  Ok (merged comp id data (Z.of_nat (S n))).
Proof.
  unfold MaxUint32. induction n as [|n IH]; intros Hn Hid Hmax.
  - unfold consecutiveCalls. cbn [seq map feed]. rewrite add_first by lia.
    rewrite Z.add_0_r. reflexivity.
  - rewrite consecutiveCalls_S, feed_app, IH by lia. cbn [feed].
    rewrite add_merge by lia.
    rewrite (u32_small (Z.of_nat (S n) + 1)) by lia.
    rewrite (u64_small (Z.of_nat (S n) + 1)) by lia.
    replace (Z.of_nat (S n) + 1) with (Z.of_nat (S (S n))) by lia. reflexivity.
Qed.

Lemma NumContents_merged comp id data n : NumContents (merged comp id data n) = 1.
Proof. unfold NumContents. simpl. rewrite insert_empty, map_size_singleton. reflexivity. Qed.

(** C2, on the code: a first call with run length [2^32 - 1] and a
    second call with the same bytes at the id that follows the run are
    merged; the run length [2^32] of the merge wraps to 0, and the call
    returns instead of stopping with "Maximum 32-bit run length exceeded". *)
Theorem merged_run_length_wraps comp data :
  exists r,
    feedAll (newResolver true comp) [(0, data, 2 ^ 32 - 1); (2 ^ 32 - 1, data, 1)] = Ok r /\
    Entries r = [mkEntryV3 0 0 (u32 (len (stored comp data))) 0].
Proof.
  eexists. split.
  - cbn [feed]. rewrite add_first by lia.
    change (2 ^ 32 - 1) with (0 + (2 ^ 32 - 1)) at 2.
    rewrite add_merge by lia. reflexivity.
  - reflexivity.
Qed.

(** C3, on the code: a call with run length 3 on a new resolver leaves
    the counter of addressed tiles at 1. *)
Theorem addressed_tiles_counts_calls dedup comp data :
  exists r out,
    add (newResolver dedup comp) 0 data 3 = Ok (r, out) /\ AddressedTiles r = 1.
Proof.
  destruct (AddTileIsNew_returns hashSum gzipBest (newResolver dedup comp) 0 data 3
              (locations_new dedup comp)) as (r & out & H).
  exists r, out. split; [exact H|].
  rewrite (AddTileIsNew_addressed _ _ _ _ _ _ _ _ H). reflexivity.
Qed.

(** C4: [n] tiles with the same bytes at consecutive ids, each with run
    length 1, on a new resolver with deduplication, give one entry with
    run length [n] at the offset of the first of them; the ids 5, 6, 7
    with the bytes "AAAA" and compression give the entry
    [{TileID:5, RunLength:3, Offset:0}] and one content. *)
Theorem consecutive_identical_tiles_merge comp id data n :
  (1 <= n)%nat -> Z.of_nat n <= MaxUint32 ->
  0 <= id -> id + Z.of_nat n <= 2 ^ 64 ->
  (exists r1 r,
     feedAll (newResolver true comp) (consecutiveCalls id data 1) = Ok r1 /\
     feedAll (newResolver true comp) (consecutiveCalls id data n) = Ok r /\
     exists first,
       Entries r1 = [first] /\
       Entries r = [mkEntryV3 id (Offset first) (Length first) (Z.of_nat n)] /\
       TileID first = id /\
       NumContents r = 1 /\ AddressedTiles r = Z.of_nat n) /\
  (exists r,
     feedAll (newResolver true true)
       [(5, [Byte.x41; Byte.x41; Byte.x41; Byte.x41], 1);
        (6, [Byte.x41; Byte.x41; Byte.x41; Byte.x41], 1);
        (7, [Byte.x41; Byte.x41; Byte.x41; Byte.x41], 1)] = Ok r /\
     Entries r =
       [mkEntryV3 5 0 (u32 (len (gzipBest [Byte.x41; Byte.x41; Byte.x41; Byte.x41]))) 3] /\
     NumContents r = 1 /\ AddressedTiles r = 3).
Proof.
  intros Hn Hmax Hid Hend. split.
  - destruct n as [|n]; [lia|].
    assert (Hmax1 : Z.of_nat 1 <= MaxUint32) by (unfold MaxUint32; lia).
    eexists. eexists.
    split; [apply feed_consecutive; lia|].
    split; [apply feed_consecutive; lia|].
    eexists. split; [reflexivity|]. simpl Entries.
    split; [reflexivity|]. split; [reflexivity|].
    split; [apply NumContents_merged | reflexivity].
  - eexists. split.
    + apply (feed_consecutive true 5 [Byte.x41; Byte.x41; Byte.x41; Byte.x41] 2);
        unfold MaxUint32; lia.
    + split; [reflexivity|].
      split; [apply NumContents_merged | reflexivity].
Qed.

(** Identical bytes at an id that does not follow the first run. *)
Lemma feed_known comp a b data runA runB :
  0 <= runA < 2 ^ 64 -> b <> u64 (a + runA) ->
  exists r1 r2,
    add (newResolver true comp) a data runA = Ok (r1, (true, stored comp data)) /\
    add r1 b data runB = Ok (r2, (false, [])) /\
    Entries r2 =
      [mkEntryV3 a 0 (u32 (len (stored comp data))) runA;
       mkEntryV3 b 0 (u32 (len (stored comp data))) runB] /\
    rOffset r2 = rOffset r1 /\ NumContents r2 = 1.
Proof.
  intros Hrun Hne. eexists. eexists.
  split; [apply add_first; exact Hrun|].
  split; [apply add_known; exact Hne|].
  split; [reflexivity|]. split; [reflexivity|].
  unfold NumContents. simpl. rewrite insert_empty, map_size_singleton. reflexivity.
Qed.

(** C5: with deduplication, identical bytes at two ids that are not
    next to each other are stored once: the first call returns as new the
    bytes to store, which are the content itself or, with compression and no
    gzip magic number, its gzip stream; the second call returns
    [isNew = false] and no bytes and leaves the cursor where it was, at the
    length of these bytes, so that the spool holds them once.  The two
    entries have the same [Offset], 0, and the same [Length], the length of
    the stored bytes; the map has this one location and the number of
    contents is 1.  Without deduplication the number of contents is the
    counter of addressed tiles. *)
Theorem identical_content_stored_once comp a b data :
  0 <= a < b -> b < 2 ^ 64 -> b <> a + 1 ->
  (exists r1 r2 bytes e1 e2,
     add (newResolver true comp) a data 1 = Ok (r1, (true, bytes)) /\
     add r1 b data 1 = Ok (r2, (false, [])) /\
     rOffset r2 = rOffset r1 /\
     Entries r2 = [e1; e2] /\
     TileID e1 = a /\ TileID e2 = b /\
     Offset e1 = Offset e2 /\ Length e1 = Length e2 /\
     NumContents r2 = 1 /\
     bytes = (if comp && negb (hasGzipMagic data) then gzipBest data else data) /\
     Offset e1 = 0 /\ Length e1 = u32 (len bytes) /\
     RunLength e1 = 1 /\ RunLength e2 = 1 /\
     rOffset r2 = u64 (len bytes) /\
     OffsetMap r2 = {[ hashSum data := mkOffsetLen 0 (u32 (len bytes)) ]} /\
     feedSpool hashSum gzipBest (newResolver true comp) []
       [(a, data, 1); (b, data, 1)] = Ok (r2, bytes)) /\
  (forall r, deduplicate r = false -> NumContents r = AddressedTiles r).
Proof.
  intros Ha Hb Hne. split.
  - assert (Hrun : 0 <= 1 < 2 ^ 64) by lia.
    assert (Hne' : b <> u64 (a + 1)) by (rewrite u64_small; lia).
    pose proof (add_first comp a data 1 Hrun) as H1.
    pose proof (add_known comp a data 1 b 1 1 Hne') as H2.
    assert (Hbytes : stored comp data
                     = if comp && negb (hasGzipMagic data) then gzipBest data else data).
    { unfold storedBytes. destruct comp, (hasGzipMagic data); reflexivity. }
    do 2 eexists. exists (stored comp data). do 2 eexists.
    split; [exact H1|]. split; [exact H2|].
    split; [reflexivity|]. split; [reflexivity|].
    simpl. repeat (split; [reflexivity|]).
    split.
    { unfold NumContents. simpl. rewrite insert_empty, map_size_singleton. reflexivity. }
    split; [exact Hbytes|].
    do 6 (split; [reflexivity|]).
    cbn [feedSpool]. rewrite H1. cbn [feedSpool]. rewrite H2. reflexivity.
  - intros r Hd. unfold NumContents. rewrite Hd. reflexivity.
Qed.

(** C9: in every state that calls can reach from a new resolver, each
    content location of the map is the location of an entry; so when the
    map is not empty there is a last entry, and no call stops on the read
    of [Entries[len(Entries)-1]]. *)
Theorem reachable_last_entry_in_bounds r :
  reachable hashSum gzipBest r ->
  locationsHaveEntries r /\
  (forall k v, OffsetMap r !! k = Some v -> exists e, last (Entries r) = Some e) /\
  (forall tileID data runLength,
      add r tileID data runLength <> Crash IndexOutOfRange).
Proof.
  intros Hr. pose proof (reachable_locations _ _ _ Hr) as Inv.
  split; [exact Inv|]. split.
  - intros k v Hk. destruct (Inv k v Hk) as (e & He & _).
    destruct (last (Entries r)) as [l|] eqn:Hl; [eauto|].
    apply last_None in Hl. rewrite Hl in He. inversion He.
  - intros tileID data runLength H.
    destruct (AddTileIsNew_returns hashSum gzipBest r tileID data runLength Inv)
      as (r' & out & E).
    rewrite E in H. discriminate.
Qed.

End RunLengths.

Lemma consecutive_identical_tiles_merge_witness :
  (1 <= 3)%nat /\ Z.of_nat 3 <= MaxUint32 /\ 0 <= 5 /\ 5 + Z.of_nat 3 <= 2 ^ 64 /\
  exists r,
    feed fnvSum framed (newResolver true true)
      (consecutiveCalls 5 [Byte.x41; Byte.x41; Byte.x41; Byte.x41] 3) = Ok r /\
    NumContents r = 1.
Proof.
  assert (H1 : (1 <= 3)%nat) by lia.
  assert (H2 : Z.of_nat 3 <= MaxUint32) by (unfold MaxUint32; lia).
  assert (H3 : 0 <= 5) by lia.
  assert (H4 : 5 + Z.of_nat 3 <= 2 ^ 64) by lia.
  repeat (split; [assumption|]).
  destruct (consecutive_identical_tiles_merge fnvSum framed true 5
              [Byte.x41; Byte.x41; Byte.x41; Byte.x41] 3 H1 H2 H3 H4)
    as [(r1 & r & _ & Hr & first & _ & _ & _ & Hn & _) _].
  exists r. split; assumption.
Defined.

Lemma identical_content_stored_once_witness :
  0 <= 5 < 9 /\ 9 < 2 ^ 64 /\ 9 <> 5 + 1 /\
  exists r1 r2,
    AddTileIsNew fnvSum framed (newResolver true true) 5 [Byte.x41; Byte.x41] 1
      = Ok (r1, (true, [Byte.x1f; Byte.x8b; Byte.x08; Byte.x41; Byte.x41])) /\
    AddTileIsNew fnvSum framed r1 9 [Byte.x41; Byte.x41] 1 = Ok (r2, (false, [])) /\
    feedSpool fnvSum framed (newResolver true true) []
      [(5, [Byte.x41; Byte.x41], 1); (9, [Byte.x41; Byte.x41], 1)]
      = Ok (r2, [Byte.x1f; Byte.x8b; Byte.x08; Byte.x41; Byte.x41]) /\
    rOffset r2 = 5 /\
    NumContents r2 = 1.
Proof.
  assert (H1 : 0 <= 5 < 9) by lia.
  assert (H2 : 9 < 2 ^ 64) by lia.
  assert (H3 : 9 <> 5 + 1) by lia.
  repeat (split; [assumption|]).
  destruct (identical_content_stored_once fnvSum framed true 5 9 [Byte.x41; Byte.x41]
              H1 H2 H3)
    as [(r1 & r2 & bytes & e1 & e2 & Ha & Hb & _ & _ & _ & _ & _ & _ & Hn & Hbytes & _ & _
         & _ & _ & Ho & _ & Hs) _].
  simpl in Hbytes. unfold framed in Hbytes. subst bytes.
  exists r1, r2. repeat split; assumption.
Defined.

Lemma reachable_last_entry_in_bounds_witness :
  exists r e,
    reachable fnvSum framed r /\
    deduplicate r = true /\
    OffsetMap r !! fnvSum [Byte.x41] = Some (mkOffsetLen 0 1) /\
    last (Entries r) = Some e /\
    AddTileIsNew fnvSum framed r 6 [Byte.x41] 1 <> Crash IndexOutOfRange /\
    AddTileIsNew fnvSum framed r 9 [Byte.x41] 1 <> Crash IndexOutOfRange.
Proof.
  assert (Hr : reachable fnvSum framed
                 (mkResolver true false [mkEntryV3 5 0 1 1] 1
                    (<[fnvSum [Byte.x41] := mkOffsetLen 0 1]> ∅) 1)).
  { eapply (reachable_add fnvSum framed (newResolver true false) 5 [Byte.x41] 1).
    - apply reachable_new.
    - reflexivity. }
  destruct (reachable_last_entry_in_bounds fnvSum framed _ Hr) as (_ & Hlast & Hadd).
  assert (Hk : (<[fnvSum [Byte.x41] := mkOffsetLen 0 1]> ∅ : gmap string offsetLen)
                 !! fnvSum [Byte.x41] = Some (mkOffsetLen 0 1))
    by apply lookup_insert_eq.
  destruct (Hlast _ _ Hk) as (e & He).
  eexists. exists e. split; [exact Hr|]. split; [reflexivity|].
  split; [exact Hk|]. split; [exact He|]. split; apply Hadd.
Defined.

(** ** The MBTiles adapter *)

Lemma flipRow_in_range (z y : Z) :
  0 <= z < 32 -> 0 <= y < 2 ^ z -> flipRow z y = 2 ^ z - 1 - y.
Proof.
  intros Hz Hy. unfold flipRow. rewrite Z.shiftl_1_l.
  assert (Hp : 2 ^ z <= 2 ^ 31) by (apply Z.pow_le_mono_r; lia).
  assert (H31 : 2 ^ 31 < 2 ^ 32) by lia.
  rewrite (u32_small (2 ^ z)) by lia.
  rewrite (u32_small (2 ^ z - 1)) by lia.
  apply u32_small. lia.
Qed.

Lemma elem_of_tilesetAdd (id x : Z) (s : list Z) :
  x ∈ tilesetAdd id s <-> x = id \/ x ∈ s.
Proof.
  induction s as [|y s IH]; simpl.
  - rewrite list_elem_of_singleton. split; [auto|]. intros [H|H]; [auto | inversion H].
  - destruct (Z.ltb_spec id y).
    + rewrite !elem_of_cons. tauto.
    + destruct (Z.eqb_spec id y) as [->|Hne].
      * rewrite !elem_of_cons. tauto.
      * rewrite !elem_of_cons, IH. tauto.
Qed.

Lemma elem_of_assembleTileset ZxyToID (rows : list tileRow) (row : tileRow) :
  row ∈ rows -> rowTileID ZxyToID row ∈ assembleTileset ZxyToID rows.
Proof.
  unfold assembleTileset.
  assert (Hgen : forall acc,
            rowTileID ZxyToID row ∈ acc \/ row ∈ rows ->
            rowTileID ZxyToID row ∈
              fold_left (fun tileset r => tilesetAdd (rowTileID ZxyToID r) tileset) rows acc).
  { induction rows as [|r rows IH]; intros acc [H|H]; simpl.
    - exact H.
    - inversion H.
    - apply IH. left. apply elem_of_tilesetAdd. auto.
    - apply IH. apply elem_of_cons in H as [->|H].
      + left. apply elem_of_tilesetAdd. auto.
      + right. exact H. }
  intros H. apply Hgen. auto.
Qed.

(** C8: pass 1 computes the spatial id of a stored row from the flipped row
    [(2^zoom - 1) - row] and adds that id to the set; the row
    [(zoom=2, column=1, row=1)] has the flipped row 2 and the id of
    [(2, 1, 2)]. *)
Theorem stored_row_is_flipped (ZxyToID : Z -> Z -> Z -> Z) (row : tileRow) :
  0 <= zoom_level row < 32 ->
  0 <= tile_column row < 2 ^ 32 ->
  0 <= tile_row row < 2 ^ zoom_level row ->
  flipRow (zoom_level row) (tile_row row) = 2 ^ zoom_level row - 1 - tile_row row /\
  rowTileID ZxyToID row =
    ZxyToID (zoom_level row) (tile_column row) (2 ^ zoom_level row - 1 - tile_row row) /\
  (forall rows,
      row ∈ rows ->
      ZxyToID (zoom_level row) (tile_column row) (2 ^ zoom_level row - 1 - tile_row row)
        ∈ assembleTileset ZxyToID rows) /\
  flipRow 2 1 = 2 /\
  (forall data, rowTileID ZxyToID (mkTileRow 2 1 1 data) = ZxyToID 2 1 2).
Proof.
  intros Hz Hx Hy.
  assert (Hf : flipRow (zoom_level row) (tile_row row)
               = 2 ^ zoom_level row - 1 - tile_row row)
    by (apply flipRow_in_range; assumption).
  assert (Hp : 2 ^ zoom_level row <= 2 ^ 31) by (apply Z.pow_le_mono_r; lia).
  assert (Hid : rowTileID ZxyToID row =
                ZxyToID (zoom_level row) (tile_column row)
                  (2 ^ zoom_level row - 1 - tile_row row)).
  { unfold rowTileID. cbv zeta.
    assert (Hz8 : u8 (zoom_level row) = zoom_level row)
      by (unfold u8; apply Z.mod_small; lia).
    rewrite Hz8, (u32_small (tile_column row)), (u32_small (tile_row row)) by lia.
    rewrite Hf. reflexivity. }
  split; [exact Hf|]. split; [exact Hid|]. split.
  - intros rows Hin. rewrite <- Hid. apply elem_of_assembleTileset. exact Hin.
  - split; reflexivity.
Qed.

Lemma stored_row_is_flipped_witness :
  0 <= 2 < 32 /\ 0 <= 1 < 2 ^ 32 /\ 0 <= 1 < 2 ^ 2 /\
  rowTileID (fun z x y => 100 * z + 10 * x + y) (mkTileRow 2 1 1 [Byte.x41]) = 212.
Proof.
  assert (H1 : 0 <= 2 < 32) by lia.
  assert (H2 : 0 <= 1 < 2 ^ 32) by lia.
  assert (H3 : 0 <= 1 < 2 ^ 2) by lia.
  repeat (split; [assumption|]).
  destruct (stored_row_is_flipped (fun z x y => 100 * z + 10 * x + y)
              (mkTileRow 2 1 1 [Byte.x41]) H1 H2 H3) as (_ & Hid & _).
  exact Hid.
Defined.

(** ** The assembler *)

Section AssemblerFacts.

Variable hashSum : list Byte.byte -> string.
Variable gzipBest : list Byte.byte -> list Byte.byte.
Variable json : Type.
Variable ZxyToID : Z -> Z -> Z -> Z.
Variable IDToZxy : Z -> Z * Z * Z.
Variable HeaderV3LenBytes : Z.
Variable optimizeDirectories :
  list EntryV3 -> Z -> Compression -> list Byte.byte * list Byte.byte * Z.
Variable SerializeMetadata : json -> Compression -> option (list Byte.byte).
Variable SerializeHeader : HeaderV3 -> list Byte.byte.
Variable parseHeaderV2 : list Byte.byte -> list Byte.byte * directoryV2.
Variable parseDirectoryV2 : list Byte.byte -> directoryV2.
Variable mbtilesToHeaderJSON : list string -> result (HeaderV3 * json).
Variable v2ToHeaderJSON : list Byte.byte -> list Byte.byte -> result (HeaderV3 * json).

Local Abbreviation finalizeArchive :=
  (finalize json IDToZxy HeaderV3LenBytes optimizeDirectories SerializeMetadata
     SerializeHeader).
Local Abbreviation convertDB :=
  (convertMbtiles hashSum gzipBest json ZxyToID IDToZxy HeaderV3LenBytes
     optimizeDirectories SerializeMetadata SerializeHeader mbtilesToHeaderJSON).
Local Abbreviation convertV2 :=
  (convertPmtilesV2 hashSum gzipBest json ZxyToID IDToZxy HeaderV3LenBytes
     optimizeDirectories SerializeMetadata SerializeHeader parseHeaderV2
     parseDirectoryV2 v2ToHeaderJSON).

(** C7: on a database without tile rows the conversion does not succeed
    and leaves the files as they were, so no output archive is created;
    when the database opens, its metadata is read and mapped to a header
    and the scan of the keys succeeds, the error is "no tiles in MBTiles
    archive". *)
Theorem empty_mbtiles_fails_before_output db dedup fl w :
  dbTiles db = [] ->
  (forall u, fst (convertDB db dedup fl w) <> Ok u) /\
  snd (convertDB db dedup fl w) = w /\
  (forall header jsonMetadata,
      dbOpens db = true ->
      dbMetadataErr db = None ->
      mbtilesToHeaderJSON (flattenMetadata (dbMetadata db)) = Ok (header, jsonMetadata) ->
      dbScanErr db = None ->
      convertDB db dedup fl w = (Err ErrNoTiles, w)).
Proof.
  intros Hrows. unfold convertMbtiles. rewrite Hrows. simpl.
  repeat split.
  - intros u.
    destruct (dbOpens db); simpl; [|discriminate].
    destruct (dbMetadataErr db); [discriminate|].
    destruct (mbtilesToHeaderJSON _) as [[h j]| |]; try discriminate.
    destruct (dbScanErr db); discriminate.
  - destruct (dbOpens db); simpl; [|reflexivity].
    destruct (dbMetadataErr db); [reflexivity|].
    destruct (mbtilesToHeaderJSON _) as [[h j]| |]; try reflexivity.
    destruct (dbScanErr db); reflexivity.
  - intros header jsonMetadata Ho Hm Hh Hs.
    rewrite Ho, Hm, Hh, Hs. reflexivity.
Qed.

Lemma setZoomCenterDefaults_nil header :
  setZoomCenterDefaults IDToZxy header [] = Crash IndexOutOfRange.
Proof. reflexivity. Qed.

Lemma finalize_nil fl resolve header jsonMetadata metadataBytes w :
  Entries resolve = [] ->
  createFails fl = false ->
  SerializeMetadata jsonMetadata Gzip = Some metadataBytes ->
  finalizeArchive fl resolve header jsonMetadata w =
  (Crash IndexOutOfRange, mkWorld true [] (tmpBytes w)).
Proof.
  intros He Hc Hm. unfold finalize, mbind, M_bind, bind, osCreate, lift.
  rewrite Hc, He, Hm.
  destruct (optimizeDirectories [] (16384 - HeaderV3LenBytes) Gzip) as [[rootBytes leavesBytes] numLeaves].
  reflexivity.
Qed.

(** Entries of length zero are skipped: the resolver and the spool stay
    as they are. *)
Lemma replayEntries_zero_lengths a fl entries resolve w :
  Forall (fun e => Length e = 0) entries ->
  replayEntries hashSum gzipBest a fl entries resolve w = (Ok resolve, w).
Proof.
  induction 1 as [|e entries He _ IH]; simpl.
  - reflexivity.
  - rewrite He. simpl. exact IH.
Qed.

Lemma sortByTileID_Forall (P : EntryV3 -> Prop) entries :
  Forall P entries -> Forall P (sortByTileID entries).
Proof.
  intros H. unfold sortByTileID.
  rewrite merge_sort_Permutation. exact H.
Qed.

(** C10: with no entry in the resolver, [finalize] creates the output and
    then stops on the index of [setZoomCenterDefaults] instead of
    returning an error; the conversion of a version 2 archive whose
    directory entries all have length zero gets there. *)
Theorem finalize_without_entries_crashes fl resolve header jsonMetadata metadataBytes w :
  createFails fl = false ->
  SerializeMetadata jsonMetadata Gzip = Some metadataBytes ->
  (forall h, setZoomCenterDefaults IDToZxy h [] = Crash IndexOutOfRange) /\
  (Entries resolve = [] ->
   finalizeArchive fl resolve header jsonMetadata w =
   (Crash IndexOutOfRange, mkWorld true [] (tmpBytes w))) /\
  (forall fuel a dedup entries,
      v2Opens a = true ->
      isVersion3 (v2Buffer a) = false ->
      (exists first4,
          v2First4 a = Some first4 /\
          v2ToHeaderJSON (fst (parseHeaderV2 (v2Buffer a))) first4 =
            Ok (header, jsonMetadata)) ->
      addDirectoryV2Entries ZxyToID parseDirectoryV2 fuel a
        (snd (parseHeaderV2 (v2Buffer a))) [] = Some entries ->
      Forall (fun e => Length e = 0) entries ->
      convertV2 fuel a dedup fl w =
      Some (Crash IndexOutOfRange, mkWorld true [] (tmpBytes w))).
Proof.
  intros Hc Hm. split; [intros h; reflexivity|]. split.
  - intros He. eapply finalize_nil; eassumption.
  - intros fuel a dedup entries Ho Hv (first4 & H4 & Hh) Hd Hz.
    unfold convertPmtilesV2. rewrite Ho, Hv. simpl.
    destruct (parseHeaderV2 (v2Buffer a)) as [v2JsonBytes dir]. simpl in *.
    rewrite H4, Hh, Hd.
    unfold mbind, M_bind, bind.
    rewrite replayEntries_zero_lengths by (apply sortByTileID_Forall; exact Hz).
    erewrite finalize_nil; [reflexivity | reflexivity | exact Hc | exact Hm].
Qed.

End AssemblerFacts.

Lemma empty_mbtiles_fails_before_output_witness :
  dbTiles emptyDB = [] /\
  convertMbtiles fnvSum framed unit (fun z x y => 100 * z + 10 * x + y)
    (fun id => (id / 100, id / 10 mod 10, id mod 10)) 127
    (fun _ _ _ => ([], [], 0)) (fun _ _ => Some []) (fun _ => [])
    (fun _ => Ok (zeroHeader, tt)) emptyDB true noFaults noFiles
  = (Err ErrNoTiles, noFiles).
Proof.
  split; [reflexivity|].
  destruct (empty_mbtiles_fails_before_output fnvSum framed unit
              (fun z x y => 100 * z + 10 * x + y)
              (fun id => (id / 100, id / 10 mod 10, id mod 10)) 127
              (fun _ _ _ => ([], [], 0)) (fun _ _ => Some []) (fun _ => [])
              (fun _ => Ok (zeroHeader, tt)) emptyDB true noFaults noFiles eq_refl)
    as (_ & _ & H).
  apply (H zeroHeader tt); reflexivity.
Defined.

Lemma finalize_without_entries_crashes_witness :
  createFails noFaults = false /\
  convertPmtilesV2 fnvSum framed unit (fun z x y => 100 * z + 10 * x + y)
    (fun id => (id / 100, id / 10 mod 10, id mod 10)) 127
    (fun _ _ _ => ([], [], 0)) (fun _ _ => Some []) (fun _ => [])
    (fun _ => ([], zeroLengthDirectory)) (fun _ => mkDirectoryV2 [] [])
    (fun _ _ => Ok (zeroHeader, tt)) 1 zeroLengthArchive true noFaults noFiles
  = Some (Crash IndexOutOfRange, mkWorld true [] []).
Proof.
  split; [reflexivity|].
  destruct (finalize_without_entries_crashes fnvSum framed unit
              (fun z x y => 100 * z + 10 * x + y)
              (fun id => (id / 100, id / 10 mod 10, id mod 10)) 127
              (fun _ _ _ => ([], [], 0)) (fun _ _ => Some []) (fun _ => [])
              (fun _ => ([], zeroLengthDirectory)) (fun _ => mkDirectoryV2 [] [])
              (fun _ _ => Ok (zeroHeader, tt))
              noFaults (newResolver true true) zeroHeader tt [] noFiles
              eq_refl eq_refl) as (_ & _ & H).
  apply (H 1%nat zeroLengthArchive true [mkEntryV3 0 512000 0 1]).
  - reflexivity.
  - reflexivity.
  - exists [Byte.x00; Byte.x00; Byte.x00; Byte.x00]. split; reflexivity.
  - vm_compute. reflexivity.
  - repeat constructor.
Defined.

(** ** The extraction *)

Section PipelineFacts.

Variable tilePath : Z -> string.
Variable statFails : nat -> string -> bool.
Variable writeFile : nat -> string -> writeResult.
Variable numWorkers : nat.
Variable tileDataOffset : Z.
Variable allEntries : list EntryV3.
Variable reopens : bool.
Variable readAt : Z -> Z -> option (list Byte.byte).

Local Abbreviation step :=
  (pipelineStep tilePath statFails writeFile numWorkers tileDataOffset allEntries reopens
     readAt).
Local Abbreviation run :=
  (pipelineRun tilePath statFails writeFile numWorkers tileDataOffset allEntries reopens
     readAt).
Local Abbreviation moved :=
  (moves tilePath statFails writeFile numWorkers tileDataOffset allEntries reopens readAt).
Local Abbreviation inv :=
  (pipelineInv tilePath statFails writeFile numWorkers tileDataOffset allEntries reopens
     readAt).

(** A step leaves the state as it is or is one of the moves. *)
Lemma pipelineStep_moves p c : step p c = p \/ moved p (step p c).
Proof.
  destruct c as [[|w] pick]; unfold pipelineStep; simpl.
  - unfold readerStep.
    destruct (reader p) as [|[|e rest]|task rest|err] eqn:Hr.
    + destruct reopens eqn:Ho; right.
      * apply move_open; [assumption | reflexivity].
      * apply move_open_fail; [assumption | reflexivity].
    + right. constructor. assumption.
    + destruct (readAt _ _) as [data|] eqn:Hread; right;
        econstructor; eassumption.
    + destruct (groupErr p) as [e|] eqn:Hg.
      * destruct (pick || negb (length (taskCh p) <? numWorkers * 2)%nat) eqn:Hpick.
        -- right. rewrite <- Hg. eapply move_reader_done; eassumption.
        -- right. apply orb_false_elim in Hpick as [_ Hsend].
           apply negb_false_iff, Nat.ltb_lt in Hsend.
           rewrite <- Hg. apply move_send; assumption.
      * destruct (length (taskCh p) <? numWorkers * 2)%nat eqn:Hsend; [|auto].
        right. apply Nat.ltb_lt in Hsend. rewrite <- Hg. apply move_send; assumption.
    + auto.
  - unfold workerStep.
    destruct (workers p !! w) as [[|task [|n] i|task n i k|err]|] eqn:Hw; [| | | |auto|auto].
    + destruct (taskCh p) as [|task rest] eqn:Hch.
      * destruct (reader p) eqn:Hr; auto.
        right. rewrite <- Hr. eapply move_return; eassumption.
      * right. eapply move_receive; eassumption.
    + right. eapply move_next; eassumption.
    + destruct (groupErr p) as [e|] eqn:Hg.
      * right. rewrite <- Hg. eapply move_worker_done; eassumption.
      * destruct (statNotExist _ _ _) eqn:Hs; right; rewrite <- Hg.
        -- eapply move_stat; eassumption.
        -- eapply move_counted; eassumption.
    + destruct (osWriteFile _ _ _ _) as [[|] tree] eqn:Hwrite; right.
      * eapply move_written; eassumption.
      * eapply move_write_failed; eassumption.
Qed.


Lemma goReturn_is_Some (e : error) (g : option error) : is_Some (goReturn (Some e) g).
Proof. destruct g; simpl; eauto. Qed.

Lemma goReturn_None (e : error) (g : option error) : goReturn (Some e) g <> None.
Proof. destruct g; discriminate. Qed.

Lemma sum_list_with_insert {A} (f : A -> nat) (l : list A) (w : nat) (s s' : A) :
  l !! w = Some s ->
  (sum_list_with f (<[w := s']> l) + f s = sum_list_with f l + f s')%nat.
Proof.
  revert w. induction l as [|x l IH]; intros [|w] H; simpl in *; try discriminate.
  - injection H as ->. lia.
  - specialize (IH w H). lia.
Qed.

Lemma lookup_insert_cases (l : list workerState) (w w' : nat) (s s' : workerState) :
  <[w := s']> l !! w' = Some s ->
  (w' = w /\ s = s') \/ (w' <> w /\ l !! w' = Some s).
Proof.
  intros H. apply list_lookup_insert_Some in H as [(-> & -> & _)|[Hne H]]; auto.
Qed.

Lemma moves_workers p p' : moved p p' -> length (workers p') = length (workers p).
Proof. destruct 1; simpl; rewrite ?length_insert; reflexivity. Qed.

(** The group error, once set, stays. *)
Lemma moves_groupErr p p' e : moved p p' -> groupErr p = Some e -> groupErr p' = Some e.
Proof. destruct 1; simpl; intros Hg; try exact Hg; rewrite Hg; reflexivity. Qed.

Lemma moves_groupErr_None p p' : moved p p' -> groupErr p' = None -> groupErr p = None.
Proof.
  intros Hm H'. destruct (groupErr p) as [e|] eqn:Hg; [|reflexivity].
  rewrite (moves_groupErr _ _ _ Hm Hg) in H'. discriminate.
Qed.

Lemma moves_reader p p' : moved p p' -> inv p -> readerInv tileDataOffset allEntries reopens readAt (reader p').
Proof.
  intros Hm Hinv. pose proof (inv_reader _ _ _ _ _ _ _ _ _ Hinv) as Hr.
  destruct Hm; simpl; try exact Hr; try exact I.
  - split; [assumption|]. exists []. split; [reflexivity | constructor].
  - rewrite H in Hr. destruct Hr as (Ho & done & Hall & Hok).
    rewrite app_nil_r in Hall. subst done. auto.
  - rewrite H in Hr. destruct Hr as (Ho & done & Hall & Hok).
    split; [exact Ho|]. split; [exact H0|]. exists done. auto.
  - rewrite H in Hr. destruct Hr as (Ho & Hread & done & Hall & Hok).
    split; [exact Ho|]. exists (done ++ [entry task]).
    split; [rewrite <- app_assoc; exact Hall|].
    apply Forall_app. split; [exact Hok|]. constructor; [|constructor].
    unfold readOk. rewrite Hread. discriminate.
Qed.

Lemma moves_reader_err p p' : moved p p' -> inv p ->
  forall e, reader p' = Closed (Some e) -> is_Some (groupErr p').
Proof.
  intros Hm Hinv e. pose proof (inv_reader_err _ _ _ _ _ _ _ _ _ Hinv e) as Hr.
  destruct Hm; simpl; try exact Hr; try discriminate;
    intros _; try apply goReturn_is_Some.
  rewrite H0. eauto.
Qed.

Lemma moves_worker_err p p' : moved p p' -> inv p ->
  forall w e, workers p' !! w = Some (Stopped (Some e)) -> is_Some (groupErr p').
Proof.
  intros Hm Hinv w' e'. pose proof (inv_worker_err _ _ _ _ _ _ _ _ _ Hinv w' e') as Hw.
  destruct Hm; simpl; try exact Hw;
    try (intros H'; destruct (groupErr p); simpl; eauto; fail);
    intros H'; apply lookup_insert_cases in H' as [[-> Heq]|[Hne H']];
    try discriminate; try (apply Hw; exact H').
Qed.

Lemma moves_worker_end p p' : moved p p' -> inv p ->
  forall w, workers p' !! w = Some (Stopped None) ->
    taskCh p' = [] /\ exists e, reader p' = Closed e.
Proof.
  intros Hm Hinv w'. pose proof (inv_worker_end _ _ _ _ _ _ _ _ _ Hinv w') as Hw.
  destruct Hm; simpl;
    try (intros H'; destruct (Hw H') as [Hch [x Hx]]; congruence);
    try (intros _; eauto; fail);
    intros H'; apply lookup_insert_cases in H' as [[-> Heq]|[Hne H']];
    try discriminate; try (apply Hw; exact H'); eauto.
  destruct (Hw H') as [Hch _]. congruence.
Qed.

Lemma moves_channel p p' : moved p p' -> inv p ->
  (length (taskCh p') <= numWorkers * 2)%nat.
Proof.
  intros Hm Hinv. pose proof (inv_channel _ _ _ _ _ _ _ _ _ Hinv) as Hc.
  destruct Hm; simpl; try exact Hc.
  - rewrite length_app. simpl. lia.
  - rewrite H0 in Hc. simpl in Hc. lia.
  - lia.
Qed.

Lemma moves_cause p p' : moved p p' -> inv p ->
  forall e, groupErr p' = Some e ->
    (e = ErrOpenReader /\ reopens = false) \/
    (e = ErrReadTileData /\ exists en, en ∈ allEntries /\
       ~ readOk tileDataOffset readAt en).
Proof.
  intros Hm Hinv e. pose proof (inv_cause _ _ _ _ _ _ _ _ _ Hinv e) as Hc.
  pose proof (inv_reader _ _ _ _ _ _ _ _ _ Hinv) as Hr.
  destruct Hm; simpl; try exact Hc.
  - destruct (groupErr p) as [g|]; simpl; [exact Hc|].
    intros He. injection He as <-. auto.
  - destruct (groupErr p) as [g|]; simpl; [exact Hc|].
    intros He. injection He as <-. right. split; [reflexivity|].
    rewrite H in Hr. destruct Hr as (_ & done & Hall & _).
    exists e0. split.
    + rewrite Hall. apply elem_of_app. right. left.
    + unfold readOk. rewrite H0. auto.
Qed.

Lemma moves_at p p' : moved p p' -> inv p ->
  forall w s task i,
    workers p' !! w = Some s -> workerAt s = Some (task, i) ->
    0 <= i /\ i + Z.of_nat (workLeft s) = Z.of_nat (runOf (entry task)).
Proof.
  intros Hm Hinv w' s' task' i'.
  pose proof (inv_at _ _ _ _ _ _ _ _ _ Hinv) as Ha.
  destruct Hm; simpl; try (apply Ha);
    intros H' Hat; apply lookup_insert_cases in H' as [[-> ->]|[Hne H']];
    try (eapply Ha; eassumption); simpl in Hat; try discriminate;
    injection Hat as <- <-.
  - unfold runOf. simpl. lia.
  - destruct (Ha _ _ _ _ H eq_refl) as [Hx Hy]. simpl in *. lia.
  - destruct (Ha _ _ _ _ H eq_refl) as [Hx Hy]. simpl in *. lia.
  - destruct (Ha _ _ _ _ H eq_refl) as [Hx Hy]. simpl in *. lia.
  - destruct (Ha _ _ _ _ H eq_refl) as [Hx Hy]. simpl in *. lia.
Qed.

Lemma moves_log p p' : moved p p' -> inv p ->
  forall path, path ∈ failed (shared p') -> exists k, writeFile k path <> Written.
Proof.
  intros Hm Hinv path. pose proof (inv_log _ _ _ _ _ _ _ _ _ Hinv path) as Hl.
  destruct Hm; simpl; try exact Hl.
  intros Hin. apply elem_of_app in Hin as [Hin|Hin]; [auto|].
  apply list_elem_of_singleton in Hin as ->.
  exists k. intros Hw. rewrite Hw in H0. discriminate.
Qed.


Lemma osWriteFile_keeps res path data (tree tree' : gmap string (list Byte.byte)) ok q :
  osWriteFile res path data tree = (ok, tree') ->
  is_Some (tree !! q) -> is_Some (tree' !! q).
Proof.
  destruct res; simpl; intros H; injection H as <- <-; auto;
    intros Hq; (destruct (decide (path = q)) as [<-|Hne];
      [rewrite lookup_insert_eq; eauto | rewrite lookup_insert_ne by assumption; exact Hq]).
Qed.

Lemma osWriteFile_written res path data (tree tree' : gmap string (list Byte.byte)) :
  osWriteFile res path data tree = (true, tree') ->
  res = Written /\ tree' = <[path := data]> tree.
Proof. destruct res; simpl; intros H; inversion H; auto. Qed.

Lemma moves_settled_mono p p' q :
  moved p p' -> settled statFails (shared p) q -> settled statFails (shared p') q.
Proof.
  intros Hm [Hf|[Hl|Hs]]; [| |right; right; exact Hs].
  - left. destruct Hm; simpl; try exact Hf; eapply osWriteFile_keeps; eassumption.
  - right. left. destruct Hm; simpl; try exact Hl. apply elem_of_app. auto.
Qed.

(** A worker move keeps a tile pending unless it deals with it. *)
Lemma pendingTile_worker p p' w sw s' en i (G : Prop) :
  workers p !! w = Some sw ->
  workers p' = <[w := s']> (workers p) ->
  reader p' = reader p ->
  (forall task, task ∈ taskCh p -> entry task = en ->
     task ∈ taskCh p' \/ exists i1, workerAt s' = Some (task, i1) /\ i1 <= i) ->
  (forall task i0, workerAt sw = Some (task, i0) -> entry task = en -> i0 <= i ->
     G \/ exists i1, workerAt s' = Some (task, i1) /\ i1 <= i) ->
  pendingTile allEntries p en i -> G \/ pendingTile allEntries p' en i.
Proof.
  intros Hw Hws Hr Hch Hat [HR|[(task & Hin & He)|(w0 & s0 & task & i0 & Hw0 & Hat0 & He & Hi)]].
  - right. left. rewrite Hr. exact HR.
  - destruct (Hch task Hin He) as [Hin'|(i1 & Hat1 & Hi1)].
    + right. right. left. eauto.
    + right. right. right. exists w, s', task, i1.
      rewrite Hws, list_lookup_insert_eq by (eapply lookup_lt_Some; exact Hw). auto.
  - destruct (decide (w0 = w)) as [->|Hne].
    + rewrite Hw in Hw0. injection Hw0 as <-.
      destruct (Hat task i0 Hat0 He Hi) as [HG|(i1 & Hat1 & Hi1)]; [auto|].
      right. right. right. exists w, s', task, i1.
      rewrite Hws, list_lookup_insert_eq by (eapply lookup_lt_Some; exact Hw). auto.
    + right. right. right. exists w0, s0, task, i0.
      rewrite Hws, list_lookup_insert_ne by auto. auto.
Qed.

Lemma moves_pending p p' en i :
  moved p p' -> inv p -> groupErr p' = None ->
  0 <= i < RunLength en ->
  pendingTile allEntries p en i ->
  settled statFails (shared p') (tilePath (u64 (TileID en + i))) \/
  pendingTile allEntries p' en i.
Proof.
  intros Hm Hinv Hg Hi Hp.
  pose proof (inv_at _ _ _ _ _ _ _ _ _ Hinv) as Ha.
  destruct Hm; simpl in Hg;
    try (exfalso; eapply goReturn_None; exact Hg);
    try congruence.
  - (* open *) right. destruct Hp as [HR|[HC|HW]]; [left|right; left|right; right]; auto.
    simpl. rewrite H in HR. exact HR.
  - (* read_end *) right. destruct Hp as [HR|[HC|HW]]; [left|right; left|right; right]; auto.
    simpl. rewrite H in HR. exact HR.
  - (* read *) right. destruct Hp as [HR|[HC|HW]]; [left|right; left|right; right]; auto.
    simpl. rewrite H in HR. exact HR.
  - (* send *) right. destruct Hp as [HR|[(t & Hin & He)|HW]].
    + rewrite H in HR. simpl in HR. apply elem_of_cons in HR as [->|HR].
      * right. left. exists task. simpl. split; [|reflexivity].
        apply elem_of_app. right. left.
      * left. exact HR.
    + right. left. exists t. simpl. split; [apply elem_of_app; auto | exact He].
    + right. right. exact HW.
  - (* receive *)
    eapply (pendingTile_worker p _ w Waiting _ en i); try eassumption; try reflexivity.
    + simpl. intros t Hin He. rewrite H0 in Hin. apply elem_of_cons in Hin as [->|Hin]; [|auto].
      right. exists 0. simpl. split; [reflexivity | lia].
    + simpl. discriminate.
  - (* return *)
    eapply (pendingTile_worker p _ w Waiting _ en i); try eassumption; try reflexivity.
    + simpl. intros t Hin. rewrite H0 in Hin. inversion Hin.
    + simpl. discriminate.
  - (* next *)
    eapply (pendingTile_worker p _ w (Looping task 0 i0) _ en i);
      try eassumption; try reflexivity.
    + simpl. auto.
    + simpl. intros t j Hat He Hj. injection Hat as <- <-.
      destruct (Ha _ _ _ _ H eq_refl) as [_ Hrun]. simpl in Hrun.
      unfold runOf in Hrun. rewrite He in Hrun. lia.
  - (* stat *)
    eapply (pendingTile_worker p _ w (Looping task (S n) i0) _ en i);
      try eassumption; try reflexivity.
    + simpl. auto.
    + simpl. intros t j Hat He Hj. injection Hat as <- <-. right. eauto.
  - (* counted *)
    eapply (pendingTile_worker p _ w (Looping task (S n) i0) _ en i);
      try eassumption; try reflexivity.
    + simpl. auto.
    + simpl. intros t j Hat He Hj. injection Hat as <- <-.
      destruct (decide (i0 = i)) as [->|Hne].
      * left. rewrite <- He. unfold statNotExist in H1.
        destruct (files (shared p) !! _) as [d|] eqn:Hf.
        -- left. simpl. rewrite Hf. eauto.
        -- right. right. exists (polls (shared p)).
           apply negb_false_iff in H1. exact H1.
      * right. exists (i0 + 1). split; [reflexivity | lia].
  - (* written *)
    eapply (pendingTile_worker p _ w (Writing task n i0 k) _ en i);
      try eassumption; try reflexivity.
    + simpl. auto.
    + simpl. intros t j Hat He Hj. injection Hat as <- <-.
      destruct (decide (i0 = i)) as [->|Hne].
      * left. rewrite <- He. left. simpl.
        apply osWriteFile_written in H0 as [_ ->]. rewrite lookup_insert_eq. eauto.
      * right. exists (i0 + 1). split; [reflexivity | lia].
  - (* write failed *)
    eapply (pendingTile_worker p _ w (Writing task n i0 k) _ en i);
      try eassumption; try reflexivity.
    + simpl. auto.
    + simpl. intros t j Hat He Hj. injection Hat as <- <-.
      destruct (decide (i0 = i)) as [->|Hne].
      * left. rewrite <- He. right. left. simpl. apply elem_of_app. right. left.
      * right. exists (i0 + 1). split; [reflexivity | lia].
Qed.

Lemma moves_settled p p' : moved p p' -> inv p ->
  groupErr p' = None ->
  forall en i, en ∈ allEntries -> 0 <= i < RunLength en ->
    settled statFails (shared p') (tilePath (u64 (TileID en + i))) \/
    pendingTile allEntries p' en i.
Proof.
  intros Hm Hinv Hg en i Hen Hi.
  pose proof (moves_groupErr_None _ _ Hm Hg) as Hg0.
  destruct (inv_settled _ _ _ _ _ _ _ _ _ Hinv Hg0 en i Hen Hi) as [Hs|Hp].
  - left. eapply moves_settled_mono; eassumption.
  - eapply moves_pending; eassumption.
Qed.


Lemma u32_add_l (a b : Z) : u32 (u32 a + b) = u32 (a + b).
Proof. unfold u32. apply Zplus_mod_idemp_l. Qed.

Lemma u32_congr (a b c : Z) : u32 a = u32 b -> u32 (a + c) = u32 (b + c).
Proof. intros H. rewrite <- (u32_add_l a), H, u32_add_l. reflexivity. Qed.

Lemma len_snoc {A} (l : list A) (x : A) : len (l ++ [x]) = len l + 1.
Proof. unfold len. rewrite length_app. simpl. lia. Qed.

Lemma moves_count p p' : moved p p' -> inv p ->
  groupErr p' = None ->
  u32 (processedTiles (shared p') + len (failed (shared p'))
       + Z.of_nat (pendingCount allEntries p'))
  = u32 (Z.of_nat (sum_list_with runOf allEntries)).
Proof.
  intros Hm Hinv Hg.
  pose proof (moves_groupErr_None _ _ Hm Hg) as Hg0.
  rewrite <- (inv_count _ _ _ _ _ _ _ _ _ Hinv Hg0).
  unfold pendingCount.
  destruct Hm; simpl in *;
    try (exfalso; eapply goReturn_None; exact Hg);
    try congruence;
    try rewrite H; simpl.
  - reflexivity.
  - reflexivity.
  - reflexivity.
  - rewrite sum_list_with_app. simpl. f_equal. lia.
  - pose proof (sum_list_with_insert workLeft _ _ _
                  (Looping task (Z.to_nat (RunLength (entry task))) 0) H) as Hsum.
    rewrite H0. simpl in *. f_equal. unfold runOf in *. lia.
  - pose proof (sum_list_with_insert workLeft _ _ _ (Stopped None) H) as Hsum.
    rewrite H0. simpl in *. f_equal. lia.
  - pose proof (sum_list_with_insert workLeft _ _ _ Waiting H) as Hsum.
    simpl in *. f_equal. lia.
  - pose proof (sum_list_with_insert workLeft _ _ _
                  (Writing task n i (polls (shared p))) H) as Hsum.
    simpl in *. f_equal. lia.
  - pose proof (sum_list_with_insert workLeft _ _ _ (Looping task n (i + 1)) H) as Hsum.
    simpl in *. rewrite <- !Z.add_assoc, u32_add_l. f_equal. lia.
  - pose proof (sum_list_with_insert workLeft _ _ _ (Looping task n (i + 1)) H) as Hsum.
    simpl in *. rewrite <- !Z.add_assoc, u32_add_l. f_equal. lia.
  - pose proof (sum_list_with_insert workLeft _ _ _ (Looping task n (i + 1)) H) as Hsum.
    simpl in *. rewrite len_snoc. f_equal. lia.
Qed.

Lemma moves_inv p p' : moved p p' -> inv p -> inv p'.
Proof.
  intros Hm Hinv. constructor.
  - rewrite (moves_workers _ _ Hm). eapply inv_workers. exact Hinv.
  - eapply moves_reader; eassumption.
  - eapply moves_reader_err; eassumption.
  - eapply moves_worker_err; eassumption.
  - eapply moves_worker_end; eassumption.
  - eapply moves_channel; eassumption.
  - eapply moves_cause; eassumption.
  - eapply moves_at; eassumption.
  - eapply moves_settled; eassumption.
  - eapply moves_count; eassumption.
  - eapply moves_log; eassumption.
Qed.

Lemma pipelineStep_inv p c : inv p -> inv (step p c).
Proof.
  intros Hinv. destruct (pipelineStep_moves p c) as [->|Hm]; [exact Hinv|].
  eapply moves_inv; eassumption.
Qed.

Lemma pipelineRun_inv sched : forall p, inv p -> inv (run sched p).
Proof.
  induction sched as [|c sched IH]; intros p Hinv; simpl; [exact Hinv|].
  apply IH. apply pipelineStep_inv. exact Hinv.
Qed.

Lemma sum_list_with_replicate {A} (f : A -> nat) (n : nat) (x : A) :
  sum_list_with f (replicate n x) = (n * f x)%nat.
Proof. induction n as [|n IH]; simpl; [reflexivity|]. rewrite IH. lia. Qed.

Lemma pipelineStart_inv tree : inv (pipelineStart numWorkers tree).
Proof.
  constructor; simpl.
  - apply length_replicate.
  - exact I.
  - discriminate.
  - intros w e H. apply lookup_replicate in H as [H _]. discriminate.
  - intros w H. apply lookup_replicate in H as [H _]. discriminate.
  - lia.
  - discriminate.
  - intros w s task i H. apply lookup_replicate in H as [-> _]. discriminate.
  - intros _ en i Hen Hi. right. left. exact Hen.
  - intros _. unfold pendingCount. simpl.
    rewrite sum_list_with_replicate. simpl. f_equal. unfold len. simpl. lia.
  - intros path H. inversion H.
Qed.


(** Every move takes the goroutines nearer to their end. *)
Lemma moves_work p p' : moved p p' -> (work allEntries p' < work allEntries p)%nat.
Proof.
  unfold work. destruct 1; simpl; try rewrite H; simpl.
  - lia.
  - lia.
  - lia.
  - unfold taskWork. lia.
  - lia.
  - rewrite sum_list_with_app. simpl. lia.
  - lia.
  - pose proof (sum_list_with_insert workerWork _ _ _
                  (Looping task (Z.to_nat (RunLength (entry task))) 0) H) as Hsum.
    rewrite H0. simpl in *. unfold taskWork, runOf. lia.
  - pose proof (sum_list_with_insert workerWork _ _ _ (Stopped None) H) as Hsum.
    rewrite H0. simpl in *. lia.
  - pose proof (sum_list_with_insert workerWork _ _ _ Waiting H) as Hsum.
    simpl in *. lia.
  - pose proof (sum_list_with_insert workerWork _ _ _
                  (Stopped (Some ErrContextCanceled)) H) as Hsum.
    simpl in *. lia.
  - pose proof (sum_list_with_insert workerWork _ _ _
                  (Writing task n i (polls (shared p))) H) as Hsum.
    simpl in *. lia.
  - pose proof (sum_list_with_insert workerWork _ _ _ (Looping task n (i + 1)) H) as Hsum.
    simpl in *. lia.
  - pose proof (sum_list_with_insert workerWork _ _ _ (Looping task n (i + 1)) H) as Hsum.
    simpl in *. lia.
  - pose proof (sum_list_with_insert workerWork _ _ _ (Looping task n (i + 1)) H) as Hsum.
    simpl in *. lia.
Qed.

(** When the reader can move. *)
Lemma readerStep_moves p pick :
  match reader p with
  | Opening | Reading _ => True
  | Sending _ _ =>
      (is_Some (groupErr p) /\ pick = true) \/
      (length (taskCh p) < numWorkers * 2)%nat
  | Closed _ => False
  end ->
  moved p (step p (O, pick)).
Proof.
  intros Hready. destruct (pipelineStep_moves p (O, pick)) as [Heq|Hm]; [|exact Hm].
  exfalso. revert Heq. unfold pipelineStep, readerStep. simpl.
  destruct (reader p) as [|[|e rest]|task rest|err] eqn:Hr; try contradiction.
  - destruct reopens; intros Heq; apply (f_equal reader) in Heq; simpl in Heq; congruence.
  - intros Heq; apply (f_equal reader) in Heq; simpl in Heq; congruence.
  - destruct (readAt _ _); intros Heq; apply (f_equal reader) in Heq; simpl in Heq;
      congruence.
  - destruct Hready as [[[e He] ->]|Hlt].
    + rewrite He. simpl. intros Heq; apply (f_equal reader) in Heq; simpl in Heq.
      congruence.
    + apply Nat.ltb_lt in Hlt. rewrite Hlt.
      destruct (groupErr p); [destruct (pick || negb true)|];
        intros Heq; apply (f_equal reader) in Heq; simpl in Heq; congruence.
Qed.

(** When a worker can move. *)
Lemma workerStep_moves p w pick s :
  workers p !! w = Some s ->
  match s with
  | Waiting => taskCh p <> [] \/ exists e, reader p = Closed e
  | Looping _ _ _ | Writing _ _ _ _ => True
  | Stopped _ => False
  end ->
  moved p (step p (S w, pick)).
Proof.
  intros Hw Hready. destruct (pipelineStep_moves p (S w, pick)) as [Heq|Hm]; [|exact Hm].
  exfalso. revert Heq. unfold pipelineStep, workerStep. simpl. rewrite Hw.
  assert (Hlt : (w < length (workers p))%nat) by (eapply lookup_lt_Some; exact Hw).
  assert (Hne : forall s' q,
            s' <> s -> workers q = <[w := s']> (workers p) -> q <> p).
  { intros s' q Hs Hq ->. apply (f_equal (fun l => l !! w)) in Hq.
    rewrite list_lookup_insert_eq, Hw in Hq by exact Hlt. congruence. }
  destruct s as [|task [|n] i|task n i k|err]; try contradiction.
  - destruct (taskCh p) as [|task rest] eqn:Hch.
    + destruct Hready as [Hready|[e He]]; [congruence|]. rewrite He.
      eapply Hne; [|reflexivity]. discriminate.
    + eapply Hne; [|reflexivity]. discriminate.
  - eapply Hne; [|reflexivity]. discriminate.
  - destruct (groupErr p); [eapply Hne; [|reflexivity]; discriminate|].
    destruct (statNotExist _ _ _); (eapply Hne; [|reflexivity]).
    + discriminate.
    + intros H. injection H as H. lia.
  - destruct (osWriteFile _ _ _ _) as [[|] tree]; (eapply Hne; [|reflexivity]);
      discriminate.
Qed.

Lemma forallb_isStopped_false (l : list workerState) :
  forallb isStopped l = false ->
  exists w s, l !! w = Some s /\ isStopped s = false.
Proof.
  induction l as [|x l IH]; simpl; [discriminate|].
  intros H. apply andb_false_iff in H as [H|H].
  - exists O, x. auto.
  - destruct (IH H) as (w & s & Hw & Hs). exists (S w), s. auto.
Qed.

Lemma existsb_isBusy (l : list workerState) :
  (exists w s, l !! w = Some s /\ isBusy s = true) \/
  (forall w s, l !! w = Some s -> isBusy s = false).
Proof.
  induction l as [|x l IH].
  - right. intros w s H. destruct w; discriminate.
  - destruct (isBusy x) eqn:Hx.
    + left. exists O, x. auto.
    + destruct IH as [(w & s & Hw & Hs)|Hall].
      * left. exists (S w), s. auto.
      * right. intros [|w] s H; simpl in H; [injection H as <-; exact Hx | eauto].
Qed.

(** While a goroutine has not returned, one of them can move. *)
Lemma pipeline_progress p :
  inv p -> (0 < numWorkers)%nat -> finished p = false ->
  exists c, moved p (step p c).
Proof.
  intros Hinv Hn Hfin.
  destruct (existsb_isBusy (workers p)) as [(w & s & Hw & Hs)|Hidle].
  { exists (S w, false). eapply workerStep_moves; [exact Hw|].
    destruct s; try discriminate; exact I. }
  destruct (reader p) as [|rest|task rest|err] eqn:Hr.
  - exists (O, false). apply readerStep_moves. rewrite Hr. exact I.
  - exists (O, false). apply readerStep_moves. rewrite Hr. exact I.
  - destruct (groupErr p) as [e|] eqn:Hg.
    { exists (O, true). apply readerStep_moves. rewrite Hr, Hg. left. eauto. }
    destruct (lt_dec (length (taskCh p)) (numWorkers * 2)) as [Hlt|Hge].
    { exists (O, false). apply readerStep_moves. rewrite Hr. right. exact Hlt. }
    assert (Hw : exists s, workers p !! O = Some s).
    { apply lookup_lt_is_Some. rewrite (inv_workers _ _ _ _ _ _ _ _ _ Hinv). exact Hn. }
    destruct Hw as [s Hw].
    exists (1%nat, false). eapply workerStep_moves; [exact Hw|].
    pose proof (Hidle _ _ Hw) as Hb.
    destruct s as [| | |[e|]]; try discriminate.
    + left. intros Hch. rewrite Hch in Hge. simpl in Hge. lia.
    + destruct (inv_worker_err _ _ _ _ _ _ _ _ _ Hinv _ _ Hw) as [x Hx]. congruence.
    + destruct (inv_worker_end _ _ _ _ _ _ _ _ _ Hinv _ Hw) as [_ [x Hx]]. congruence.
  - unfold finished in Hfin. rewrite Hr in Hfin.
    destruct (forallb_isStopped_false _ Hfin) as (w & s & Hw & Hs).
    exists (S w, false). eapply workerStep_moves; [exact Hw|].
    pose proof (Hidle _ _ Hw) as Hb.
    destruct s; try discriminate. right. eauto.
Qed.

(** From every state that the goroutines reach there is a schedule that
    lets them all return. *)
Lemma pipeline_terminates (n : nat) : forall p,
  (work allEntries p <= n)%nat -> inv p -> (0 < numWorkers)%nat ->
  exists sched, finished (run sched p) = true.
Proof.
  induction n as [|n IH]; intros p Hwork Hinv Hn.
  - destruct (finished p) eqn:Hfin; [exists []; exact Hfin|].
    destruct (pipeline_progress p Hinv Hn Hfin) as [c Hm].
    apply moves_work in Hm. lia.
  - destruct (finished p) eqn:Hfin; [exists []; exact Hfin|].
    destruct (pipeline_progress p Hinv Hn Hfin) as [c Hm].
    destruct (IH (step p c)) as [sched Hs].
    + apply moves_work in Hm. lia.
    + eapply moves_inv; eassumption.
    + exact Hn.
    + exists (c :: sched). exact Hs.
Qed.

End PipelineFacts.

Section ConvertToDirectoryFacts.

Variable DeserializeHeader : list Byte.byte -> option HeaderV3.
Variable directoriesMade : Z -> bool.
Variable DeserializeMetadataBytes : Z -> Z -> Compression -> option (list Byte.byte).
Variable IterateEntries : HeaderV3 -> option (list EntryV3).
Variable metadataPath : string.
Variable metadataWrite : writeResult.
Variable tilePathOf : string -> Z -> string.
Variable statFails : nat -> string -> bool.
Variable writeFile : nat -> string -> writeResult.
Variable numWorkers : nat.

Local Abbreviation extract :=
  (convertToDirectory DeserializeHeader directoriesMade DeserializeMetadataBytes
     IterateEntries metadataPath metadataWrite tilePathOf statFails writeFile numWorkers).
Local Abbreviation succeed :=
  (stagesSucceed DeserializeHeader directoriesMade DeserializeMetadataBytes
     IterateEntries metadataWrite).
Local Abbreviation save :=
  (saveMetadata DeserializeMetadataBytes metadataPath metadataWrite).

Lemma saveMetadata_None header tree tree' :
  save header tree = (None, tree') <->
  (MetadataLength header > 0 ->
   metadataWrite = Written /\
   DeserializeMetadataBytes (MetadataOffset header) (MetadataLength header)
     (InternalCompression header) <> None) /\
  snd (save header tree) = tree'.
Proof.
  unfold saveMetadata.
  destruct (MetadataLength header >? 0) eqn:Hlen.
  - rewrite Z.gtb_ltb in Hlen. apply Z.ltb_lt in Hlen.
    destruct (DeserializeMetadataBytes _ _ _) as [mb|].
    + destruct metadataWrite; simpl; split.
      * intros H. injection H as <-. split; [|reflexivity]. intros _. split; congruence.
      * intros [_ <-]. reflexivity.
      * discriminate.
      * intros [H _]. destruct H as [H _]; [lia | discriminate].
      * discriminate.
      * intros [H _]. destruct H as [H _]; [lia | discriminate].
    + simpl. split; [discriminate|]. intros [H _]. destruct H as [_ H]; [lia | congruence].
  - assert (~ MetadataLength header > 0)
      by (rewrite Z.gtb_ltb in Hlen; apply Z.ltb_ge in Hlen; lia).
    simpl. split.
    + intros H'. injection H' as <-. split; [intros; contradiction | reflexivity].
    + intros [_ <-]. reflexivity.
Qed.

(** What a finished run of the goroutines has done. *)
Lemma pipelineRun_finished tilePath tileDataOffset allEntries reopens readAt sched tree p :
  p = pipelineRun tilePath statFails writeFile numWorkers tileDataOffset allEntries reopens
        readAt sched (pipelineStart numWorkers tree) ->
  finished p = true ->
  (groupErr p = None <->
   reopens = true /\
   forall e, e ∈ allEntries -> readAt (Length e) (u64 (tileDataOffset + Offset e)) <> None) /\
  (forall e, groupErr p = Some e -> e = ErrOpenReader \/ e = ErrReadTileData) /\
  (forall path, path ∈ failed (shared p) -> exists k, writeFile k path <> Written) /\
  (groupErr p = None ->
   (forall en i, en ∈ allEntries -> 0 <= i < RunLength en ->
      settled statFails (shared p) (tilePath (u64 (TileID en + i)))) /\
   u32 (processedTiles (shared p) + len (failed (shared p)))
   = u32 (Z.of_nat (sum_list_with runOf allEntries))).
Proof.
  intros Hp Hfin.
  assert (Hinv : pipelineInv tilePath statFails writeFile numWorkers tileDataOffset
                   allEntries reopens readAt p).
  { rewrite Hp. apply pipelineRun_inv. apply pipelineStart_inv. }
  unfold finished in Hfin.
  destruct (reader p) as [| | |err] eqn:Hr; try discriminate.
  assert (Hstopped : forall w s, workers p !! w = Some s -> exists e, s = Stopped e).
  { intros w s Hw. rewrite forallb_forall in Hfin.
    assert (Hin : In s (workers p)) by (apply list_elem_of_In; eapply list_elem_of_lookup_2; exact Hw).
    specialize (Hfin s Hin). destruct s; try discriminate. eauto. }
  assert (Hnone : groupErr p = None ->
            err = None /\ taskCh p = [] /\
            forall w s, workers p !! w = Some s -> workerAt s = None /\ workLeft s = O).
  { intros Hg. split; [|split].
    - destruct err as [e|]; [|reflexivity].
      destruct (inv_reader_err _ _ _ _ _ _ _ _ _ Hinv e Hr) as [x Hx]. congruence.
    - destruct (workers p !! O) as [s|] eqn:Hw.
      + destruct (Hstopped _ _ Hw) as [[e|] ->].
        * destruct (inv_worker_err _ _ _ _ _ _ _ _ _ Hinv _ _ Hw) as [x Hx]. congruence.
        * destruct (inv_worker_end _ _ _ _ _ _ _ _ _ Hinv _ Hw) as [Hch _]. exact Hch.
      + apply lookup_ge_None in Hw.
        pose proof (inv_workers _ _ _ _ _ _ _ _ _ Hinv) as Hl.
        pose proof (inv_channel _ _ _ _ _ _ _ _ _ Hinv) as Hc.
        destruct (taskCh p); [reflexivity | simpl in Hc; lia].
    - intros w s Hw. destruct (Hstopped _ _ Hw) as [e ->]. auto. }
  split; [split|split; [|split]].
  - intros Hg. destruct (Hnone Hg) as (-> & _).
    pose proof (inv_reader _ _ _ _ _ _ _ _ _ Hinv) as Hri. rewrite Hr in Hri.
    destruct Hri as [Ho Hall]. split; [exact Ho|].
    intros e He. rewrite Forall_forall in Hall. apply Hall. exact He.
  - intros [Ho Hall]. destruct (groupErr p) as [e|] eqn:Hg; [|reflexivity].
    destruct (inv_cause _ _ _ _ _ _ _ _ _ Hinv e Hg) as [[_ Hf]|[_ (en & Hen & Hf)]].
    + congruence.
    + exfalso. apply Hf. apply Hall. exact Hen.
  - intros e Hg.
    destruct (inv_cause _ _ _ _ _ _ _ _ _ Hinv e Hg) as [[-> _]|[-> _]]; auto.
  - eapply inv_log. exact Hinv.
  - intros Hg. destruct (Hnone Hg) as (-> & Hch & Hws). split.
    + intros en i Hen Hi.
      destruct (inv_settled _ _ _ _ _ _ _ _ _ Hinv Hg en i Hen Hi)
        as [Hs|[HR|[(t & Hin & _)|(w & s & t & i0 & Hw & Hat & _)]]].
      * exact Hs.
      * rewrite Hr in HR. inversion HR.
      * rewrite Hch in Hin. inversion Hin.
      * destruct (Hws _ _ Hw) as [Hat' _]. congruence.
    + rewrite <- (inv_count _ _ _ _ _ _ _ _ _ Hinv Hg). f_equal.
      unfold pendingCount. rewrite Hr, Hch. simpl.
      assert (Hz : sum_list_with workLeft (workers p) = O).
      { clear -Hws. induction (workers p) as [|s ws IH]; [reflexivity|]. simpl.
        destruct (Hws O s eq_refl) as [_ ->].
        rewrite IH; [reflexivity|]. intros w s' H. apply (Hws (S w)). exact H. }
      rewrite Hz. lia.
Qed.


End ConvertToDirectoryFacts.



(** * Further properties *)

(** ** The resolver: what is stored, and the counters *)

Section ResolverMore.

Variable hashSum : list Byte.byte -> string.
Variable gzipBest : list Byte.byte -> list Byte.byte.

Local Abbreviation add := (AddTileIsNew hashSum gzipBest).
Local Abbreviation feedAll := (feed hashSum gzipBest).
Local Abbreviation feedBytes := (feedSpool hashSum gzipBest).
Local Abbreviation stored := (storedBytes gzipBest).

(** X1: when the output of the compressor starts with the gzip magic
    number, as a gzip stream does, the bytes stored for a tile are stored
    unchanged when they are fed again: nothing is compressed twice. *)
Theorem storedBytes_idempotent comp data :
  (forall d, hasGzipMagic (gzipBest d) = true) ->
  stored comp (stored comp data) = stored comp data.
Proof.
  intros Hmagic. unfold storedBytes.
  destruct comp; simpl; [|reflexivity].
  destruct (hasGzipMagic data) eqn:Hd.
  - rewrite Hd. reflexivity.
  - rewrite Hmagic. reflexivity.
Qed.

(** X2: without deduplication every call is new and adds one entry: the
    entries carry the ids and the run lengths of the calls, in their order,
    the map stays empty and the number of contents is the number of calls. *)
Theorem feed_without_dedup comp calls :
  exists r,
    feedAll (newResolver false comp) calls = Ok r /\
    map (fun e => (TileID e, RunLength e)) (Entries r)
      = map (fun c => (callID c, callRun c)) calls /\
    map Length (Entries r)
      = map (fun c => u32 (len (stored comp (callData c)))) calls /\
    OffsetMap r = ∅ /\
    NumContents r = u64 (len calls).
Proof.
  assert (Hgen : forall calls es off n,
            0 <= n ->
            exists r,
              feedAll (mkResolver false comp es off ∅ (u64 n)) calls = Ok r /\
              map (fun e => (TileID e, RunLength e)) (Entries r)
                = map (fun e => (TileID e, RunLength e)) es
                  ++ map (fun c => (callID c, callRun c)) calls /\
              map Length (Entries r)
                = map Length es
                  ++ map (fun c => u32 (len (stored comp (callData c)))) calls /\
              OffsetMap r = ∅ /\
              AddressedTiles r = u64 (n + len calls) /\ deduplicate r = false).
  { clear calls. induction calls as [|[[id d] rl] calls IH]; intros es off n Hn.
    - eexists. split; [reflexivity|]. simpl. rewrite !app_nil_r.
      unfold len. simpl. rewrite Z.add_0_r. auto.
    - cbn [feed]. unfold AddTileIsNew. cbn.
      assert (Hu : u64 (u64 n + 1) = u64 (n + 1))
        by (unfold u64; rewrite Zplus_mod_idemp_l; reflexivity).
      rewrite Hu.
      destruct (IH (es ++ [mkEntryV3 id off (u32 (len (stored comp d))) rl])
                  (u64 (off + len (stored comp d))) (n + 1)) as (r & Hr & H1 & H2 & H3 & H4 & H5);
        [lia|].
      exists r. split; [exact Hr|].
      rewrite H1, H2, !map_app, <- !app_assoc. simpl.
      repeat split; try assumption.
      rewrite H4. f_equal. unfold len. simpl length. lia. }
  destruct (Hgen calls [] 0 0) as (r & Hr & H1 & H2 & H3 & H4 & H5); [lia|].
  exists r. split; [exact Hr|]. repeat split; try assumption.
  unfold NumContents. rewrite H5, H4. reflexivity.
Qed.

Lemma size_insert_fresh (m : gmap string offsetLen) k v :
  m !! k = None -> size (<[k := v]> m) = S (size m).
Proof. apply map_size_insert_None. Qed.

(** A call adds at most one entry, and a location only with an entry. *)
Lemma AddTileIsNew_sizes r tileID data runLength r' out :
  add r tileID data runLength = Ok (r', out) ->
  (length (Entries r) <= length (Entries r') <= S (length (Entries r)))%nat /\
  (size (OffsetMap r') - size (OffsetMap r)
     <= length (Entries r') - length (Entries r))%nat.
Proof.
  intros H.
  destruct (AddTileIsNew_inv _ _ _ _ _ _ _ _ H)
    as [(found & lastEntry & init & Hd & Hf & Hes & _ & _ & Hes' & Hm & _)
       |[(found & Hd & Hf & Hes' & Hm & _)
        |(Hmiss & Hes' & Hm & _)]]; rewrite Hes', Hm.
  - rewrite Hes, !length_app. simpl. lia.
  - rewrite length_app. simpl. lia.
  - rewrite length_app. simpl.
    destruct (deduplicate r) eqn:Hd.
    + destruct Hmiss as [Hx | Hnone]; [discriminate|].
      rewrite size_insert_fresh by exact Hnone. lia.
    + lia.
Qed.

(** X3: after any calls on a new resolver the counter of addressed tiles is
    the number of calls, there are no more entries than calls, and no
    more contents in the map than entries. *)
Theorem feed_counts dedup comp calls :
  exists r,
    feedAll (newResolver dedup comp) calls = Ok r /\
    AddressedTiles r = u64 (len calls) /\
    (size (OffsetMap r) <= length (Entries r) <= length calls)%nat.
Proof.
  assert (Hgen : forall calls r n,
            locationsHaveEntries r ->
            AddressedTiles r = u64 n ->
            exists r',
              feedAll r calls = Ok r' /\
              AddressedTiles r' = u64 (n + len calls) /\
              (length (Entries r) <= length (Entries r')
                 <= length (Entries r) + length calls)%nat /\
              (size (OffsetMap r') - size (OffsetMap r)
                 <= length (Entries r') - length (Entries r))%nat).
  { clear calls. induction calls as [|[[id d] rl] calls IH]; intros r n Inv Hn.
    - exists r. split; [reflexivity|]. unfold len. simpl.
      rewrite Z.add_0_r. split; [exact Hn|]. lia.
    - cbn [feed].
      destruct (AddTileIsNew_returns hashSum gzipBest r id d rl Inv) as (r1 & out & E).
      rewrite E.
      pose proof (locations_step _ _ _ _ _ _ _ _ Inv E) as Inv1.
      pose proof (AddTileIsNew_addressed _ _ _ _ _ _ _ _ E) as Ha.
      pose proof (AddTileIsNew_sizes _ _ _ _ _ _ E) as [Hl Hs].
      destruct (IH r1 (n + 1) Inv1) as (r' & Hr & Ha' & Hl' & Hs').
      { rewrite Ha, Hn. unfold u64. rewrite Zplus_mod_idemp_l. reflexivity. }
      exists r'. split; [exact Hr|]. split.
      + rewrite Ha'. f_equal. unfold len. simpl length. lia.
      + simpl length. lia. }
  destruct (Hgen calls (newResolver dedup comp) 0 (locations_new dedup comp) eq_refl)
    as (r & Hr & Ha & Hl & Hs).
  exists r. split; [exact Hr|]. split; [exact Ha|].
  simpl in Hl, Hs. rewrite map_size_empty in Hs. lia.
Qed.

(** The cursor follows the spool. *)
Lemma feedSpool_cursor calls : forall r spool,
  locationsHaveEntries r ->
  rOffset r = u64 (len spool) ->
  exists r' spool',
    feedBytes r spool calls = Ok (r', spool') /\
    feedAll r calls = Ok r' /\
    rOffset r' = u64 (len spool').
Proof.
  induction calls as [|[[id d] rl] calls IH]; intros r spool Inv Ho.
  - exists r, spool. auto.
  - cbn [feed feedSpool].
    destruct (AddTileIsNew_returns hashSum gzipBest r id d rl Inv) as (r1 & out & E).
    rewrite E.
    pose proof (locations_step _ _ _ _ _ _ _ _ Inv E) as Inv1.
    destruct (AddTileIsNew_inv _ _ _ _ _ _ _ _ E)
      as [(found & lastEntry & init & _ & _ & _ & _ & _ & _ & _ & Hoff & ->)
         |[(found & _ & _ & _ & _ & Hoff & ->)
          |(_ & _ & _ & Hoff & ->)]].
    + apply IH; [exact Inv1 | congruence].
    + apply IH; [exact Inv1 | congruence].
    + apply IH; [exact Inv1|].
      rewrite Hoff, Ho. unfold len. rewrite length_app, Nat2Z.inj_add.
      unfold u64. rewrite Zplus_mod_idemp_l. reflexivity.
Qed.

(** X4: the cursor of the resolver is the length of the spool, as a
    [uint64]: the bytes handed out as new are all that the cursor counts. *)
Theorem cursor_is_spool_length dedup comp calls :
  exists r spool,
    feedBytes (newResolver dedup comp) [] calls = Ok (r, spool) /\
    feedAll (newResolver dedup comp) calls = Ok r /\
    rOffset r = u64 (len spool).
Proof. apply feedSpool_cursor; [apply locations_new | reflexivity]. Qed.

End ResolverMore.

Lemma storedBytes_idempotent_witness :
  (forall d, hasGzipMagic (framed d) = true) /\
  storedBytes framed true (storedBytes framed true [Byte.x41; Byte.x42])
    = storedBytes framed true [Byte.x41; Byte.x42].
Proof.
  assert (H : forall d, hasGzipMagic (framed d) = true) by reflexivity.
  split; [exact H|].
  apply (storedBytes_idempotent framed true [Byte.x41; Byte.x42] H).
Defined.

(** ** The resolver: the bytes of a tile *)

Lemma len_app {A} (a b : list A) : len (a ++ b) = len a + len b.
Proof. unfold len. rewrite length_app. lia. Qed.

Lemma len_nonneg {A} (a : list A) : 0 <= len a.
Proof. unfold len. lia. Qed.

Lemma slice_app_l (spool more : list Byte.byte) (off n : Z) :
  0 <= off -> 0 <= n -> off + n <= len spool ->
  slice (spool ++ more) off n = slice spool off n.
Proof.
  unfold slice, len. intros Ho Hn Hle.
  rewrite drop_app_le by lia.
  rewrite take_app_le; [reflexivity|].
  rewrite length_drop. lia.
Qed.

Lemma slice_app_r (spool bytes : list Byte.byte) :
  slice (spool ++ bytes) (len spool) (len bytes) = bytes.
Proof.
  unfold slice, len. rewrite !Nat2Z.id.
  rewrite drop_app_length. apply take_ge. lia.
Qed.

Lemma holds_app (spool more : list Byte.byte) off n bytes :
  holds spool off n bytes -> holds (spool ++ more) off n bytes.
Proof.
  intros (H1 & H2 & H3 & H4). repeat split; try assumption.
  - rewrite len_app. pose proof (len_nonneg more). lia.
  - rewrite slice_app_l by lia. exact H4.
Qed.

Lemma runTotal_snoc calls c : runTotal (calls ++ [c]) = runTotal calls + callRun c.
Proof.
  unfold runTotal. induction calls as [|c' calls IH]; simpl; [lia|].
  rewrite IH. lia.
Qed.

Lemma storedTotal_snoc gzipBest comp calls c :
  storedTotal gzipBest comp (calls ++ [c])
  = storedTotal gzipBest comp calls + len (storedBytes gzipBest comp (callData c)).
Proof.
  unfold storedTotal. induction calls as [|c' calls IH]; simpl; [lia|].
  rewrite IH. lia.
Qed.

Section SpoolFacts.

Variable hashSum : list Byte.byte -> string.
Variable gzipBest : list Byte.byte -> list Byte.byte.
Variable comp : bool.

Local Abbreviation add := (AddTileIsNew hashSum gzipBest).
Local Abbreviation feedBytes := (feedSpool hashSum gzipBest).
Local Abbreviation stored := (storedBytes gzipBest comp).
Local Abbreviation inv := (spoolInv hashSum gzipBest comp).

Lemma spoolInv_new dedup : inv [] (-1) 0 (newResolver dedup comp) [].
Proof.
  constructor; simpl; try (constructor; fail); try reflexivity; try lia.
  - apply locations_new.
  - split; constructor.
  - intros k v H. rewrite lookup_empty in H. discriminate.
  - intros k k' v v' H. rewrite lookup_empty in H. discriminate.
  - intros _ e H. inversion H.
  - intros c x H. inversion H.
Qed.

Lemma spoolInv_step done t hi r spool id d rl :
  inv done t hi r spool ->
  t < id -> hi <= id -> 0 <= id < 2 ^ 64 -> 0 <= rl < 2 ^ 32 ->
  collisionFree hashSum (done ++ [(id, d, rl)]) ->
  0 < len (stored d) < 2 ^ 32 ->
  storedTotal gzipBest comp (done ++ [(id, d, rl)]) < 2 ^ 64 ->
  runTotal (done ++ [(id, d, rl)]) < 2 ^ 32 ->
  exists r' isNew bytes,
    add r id d rl = Ok (r', (isNew, bytes)) /\
    inv (done ++ [(id, d, rl)]) id (id + rl) r'
      (if isNew : bool then spool ++ bytes else spool).
Proof.
  intros [Icomp Iloc Iord Icur Ispool Itot Iruns Ibnd Imap Ioff Iknown Itiles]
         Ht Hhi Hid Hrl Hcoll Hsize Hstored Hrun.
  rewrite storedTotal_snoc in Hstored. rewrite runTotal_snoc in Hrun.
  unfold callData, callRun in Hstored, Hrun. simpl in Hstored, Hrun.
  destruct (AddTileIsNew_returns hashSum gzipBest r id d rl Iloc) as (r' & [isNew bytes] & E).
  exists r', isNew, bytes. split; [exact E|].
  pose proof (AddTileIsNew_flags _ _ _ _ _ _ _ _ E) as [Fd Fc].
  pose proof (locations_step _ _ _ _ _ _ _ _ Iloc E) as Iloc'.
  pose proof (entriesUpTo_step _ _ _ _ _ _ _ _ _ _ Iord Ht Hhi Hid Hrl E) as Iord'.
  assert (Hdone : forall c, c ∈ done -> c ∈ done ++ [(id, d, rl)])
    by (intros c Hc; apply elem_of_app; auto).
  assert (Hlast : (id, d, rl) ∈ done ++ [(id, d, rl)])
    by (apply elem_of_app; right; apply list_elem_of_singleton; reflexivity).
  (* a location of the map for the digest of [d] holds the bytes of [d] *)
  assert (Hfound : forall found, OffsetMap r !! hashSum d = Some found ->
            holds spool (olOffset found) (olLength found) (stored d)).
  { intros found Hf. destruct (Imap _ _ Hf) as (c' & Hc' & Hh & Hholds).
    rewrite (Hcoll c' (id, d, rl) (Hdone _ Hc') Hlast Hh) in Hholds. exact Hholds. }
  destruct (AddTileIsNew_inv _ _ _ _ _ _ _ _ E)
    as [(found & lastEntry & init & Hd & Hf & Hes & Heq & Ho & Hes' & Hm & Hoff & Hout)
       |[(found & Hd & Hf & Hes' & Hm & Hoff & Hout)
        |(Hmiss & Hes' & Hm & Hoff & Hout)]];
    injection Hout as -> ->.
  - (* the run of the last entry grows *)
    assert (Hin : lastEntry ∈ Entries r)
      by (rewrite Hes; apply elem_of_app; right; apply list_elem_of_singleton; reflexivity).
    destruct Iord as [_ Hb]. rewrite Forall_forall in Hb.
    destruct (Hb _ Hin) as (Hb1 & Hb2 & Hb3).
    rewrite u64_small in Heq by lia.
    pose proof (proj1 (Forall_forall _ _) Iruns _ Hin) as Hr1. simpl in Hr1.
    assert (Hnew : RunLength (addRunLength rl lastEntry) = RunLength lastEntry + rl)
      by (simpl; apply u32_small; lia).
    destruct (Iknown Hd _ Hin) as (k & Hk).
    assert (k = hashSum d) by (eapply Ioff; [exact Hk | exact Hf | simpl; exact Ho]).
    subst k. rewrite Hf in Hk. injection Hk as ->.
    specialize (Hfound _ Hf). simpl in Hfound.
    (* an entry of before, or the last one with its longer run *)
    assert (Hkeep : forall e, e ∈ Entries r ->
              exists e', e' ∈ Entries r' /\ Offset e' = Offset e /\ Length e' = Length e /\
                         TileID e' = TileID e /\ RunLength e <= RunLength e').
    { intros e He. rewrite Hes in He. apply elem_of_app in He as [He|He].
      - exists e. rewrite Hes', elem_of_app. repeat split; auto. lia.
      - apply list_elem_of_singleton in He as ->.
        exists (addRunLength rl lastEntry).
        rewrite Hes', elem_of_app, list_elem_of_singleton.
        repeat split; auto. rewrite Hnew. lia. }
    assert (Hback : forall e', e' ∈ Entries r' ->
              exists e, e ∈ Entries r /\ Offset e' = Offset e /\ Length e' = Length e /\
                        RunLength e' <= RunLength e + rl).
    { intros e' He'. rewrite Hes' in He'. apply elem_of_app in He' as [He'|He'].
      - exists e'. rewrite Hes, elem_of_app. repeat split; auto. lia.
      - apply list_elem_of_singleton in He' as ->.
        exists lastEntry. repeat split; auto. rewrite Hnew. lia. }
    constructor.
    + congruence.
    + exact Iloc'.
    + exact Iord'.
    + congruence.
    + rewrite storedTotal_snoc. unfold callData. simpl. lia.
    + rewrite runTotal_snoc. unfold callRun. simpl. lia.
    + rewrite Forall_forall. intros e' He'.
      destruct (Hback _ He') as (e & He & _ & _ & Hle).
      pose proof (proj1 (Forall_forall _ _) Iruns _ He) as Hr2. simpl in Hr2.
      rewrite runTotal_snoc. unfold callRun. simpl. lia.
    + rewrite Forall_forall. intros e' He'.
      destruct (Hback _ He') as (e & He & -> & -> & _).
      exact (proj1 (Forall_forall _ _) Ibnd _ He).
    + intros k v Hk. rewrite Hm in Hk.
      destruct (Imap _ _ Hk) as (c & Hc & Hh & Hholds). exists c. auto.
    + rewrite Hm. exact Ioff.
    + intros _ e' He'. rewrite Hm.
      destruct (Hback _ He') as (e & He & -> & -> & _). apply Iknown; assumption.
    + intros c x Hc Hx. apply elem_of_app in Hc as [Hc|Hc].
      * destruct (Itiles c x Hc Hx) as (e & He & Hin' & Hsl).
        destruct (Hkeep _ He) as (e' & He' & Eo & El & Et & Er).
        exists e'. split; [exact He'|]. split.
        -- unfold inRun in *. lia.
        -- rewrite Eo, El. exact Hsl.
      * apply list_elem_of_singleton in Hc as ->.
        unfold callID, callRun, callData in *. simpl in *.
        exists (addRunLength rl lastEntry). split.
        -- rewrite Hes', elem_of_app, list_elem_of_singleton. auto.
        -- split.
           ++ unfold inRun. simpl. rewrite Hnew. lia.
           ++ simpl. destruct Hfound as (_ & _ & _ & Hsl). exact Hsl.
  - (* one more entry for a content of the spool *)
    specialize (Hfound _ Hf).
    constructor.
    + congruence.
    + exact Iloc'.
    + exact Iord'.
    + congruence.
    + rewrite storedTotal_snoc. unfold callData. simpl. lia.
    + rewrite runTotal_snoc. unfold callRun. simpl. lia.
    + rewrite Hes'. apply Forall_app. split.
      * eapply Forall_impl; [exact Iruns|]. simpl. intros e He.
        rewrite runTotal_snoc. unfold callRun. simpl. lia.
      * repeat constructor. simpl. rewrite runTotal_snoc. unfold callRun. simpl. lia.
    + rewrite Hes'. apply Forall_app. split; [exact Ibnd|].
      repeat constructor; simpl; destruct Hfound as (H1 & H2 & H3 & _); lia.
    + intros k v Hk. rewrite Hm in Hk.
      destruct (Imap _ _ Hk) as (c & Hc & Hh & Hholds). exists c. auto.
    + rewrite Hm. exact Ioff.
    + intros _ e He. rewrite Hm. rewrite Hes' in He.
      apply elem_of_app in He as [He|He]; [apply Iknown; assumption|].
      apply list_elem_of_singleton in He as ->. simpl.
      exists (hashSum d). rewrite Hf. destruct found; reflexivity.
    + intros c x Hc Hx. apply elem_of_app in Hc as [Hc|Hc].
      * destruct (Itiles c x Hc Hx) as (e & He & Hin' & Hsl).
        exists e. rewrite Hes', elem_of_app. auto.
      * apply list_elem_of_singleton in Hc as ->.
        unfold callID, callRun, callData in *. simpl in *.
        eexists. split; [rewrite Hes', elem_of_app, list_elem_of_singleton; right; reflexivity|].
        split; [unfold inRun; simpl; lia|].
        simpl. destruct Hfound as (_ & _ & _ & Hsl). exact Hsl.
  - (* a new content at the end of the spool *)
    rewrite Icomp in *.
    pose proof (len_nonneg spool) as Hsp.
    assert (Hlen : u32 (len (stored d)) = len (stored d)) by (apply u32_small; lia).
    rewrite Hlen in *.
    assert (Hold : forall k v, OffsetMap r !! k = Some v ->
              olOffset v < len spool).
    { intros k v Hk. destruct (Imap _ _ Hk) as (c & _ & _ & (H1 & H2 & H3 & _)). lia. }
    constructor.
    + congruence.
    + exact Iloc'.
    + exact Iord'.
    + rewrite Hoff, Icur, len_app. apply u64_small. lia.
    + rewrite storedTotal_snoc, len_app. unfold callData. simpl. lia.
    + rewrite runTotal_snoc. unfold callRun. simpl. lia.
    + rewrite Hes'. apply Forall_app. split.
      * eapply Forall_impl; [exact Iruns|]. simpl. intros e He.
        rewrite runTotal_snoc. unfold callRun. simpl. lia.
      * repeat constructor. simpl. rewrite runTotal_snoc. unfold callRun. simpl. lia.
    + rewrite Hes'. apply Forall_app. split.
      * eapply Forall_impl; [exact Ibnd|]. simpl. intros e He.
        rewrite len_app. lia.
      * repeat constructor; simpl; rewrite ?len_app; lia.
    + intros k v Hk. rewrite Hm in Hk.
      assert (Hcase : (k = hashSum d /\ v = mkOffsetLen (rOffset r) (len (stored d)))
                      \/ OffsetMap r !! k = Some v).
      { destruct (deduplicate r); [|auto].
        destruct (decide (hashSum d = k)) as [<-|Hne].
        - rewrite lookup_insert_eq in Hk. injection Hk as <-. auto.
        - rewrite lookup_insert_ne in Hk by assumption. auto. }
      destruct Hcase as [[-> ->]|Hk'].
      * exists (id, d, rl). split; [exact Hlast|]. split; [reflexivity|].
        unfold callData. simpl. rewrite Icur.
        repeat split; try lia.
        -- rewrite len_app. lia.
        -- apply slice_app_r.
      * destruct (Imap _ _ Hk') as (c & Hc & Hh & Hholds).
        exists c. split; [auto|]. split; [exact Hh|]. apply holds_app. exact Hholds.
    + intros k k' v v' Hk Hk' Hov. rewrite Hm in Hk, Hk'.
      destruct (deduplicate r); [|eapply Ioff; eassumption].
      destruct (decide (hashSum d = k)) as [<-|Hne];
        destruct (decide (hashSum d = k')) as [<-|Hne']; try reflexivity.
      * rewrite lookup_insert_eq in Hk. rewrite lookup_insert_ne in Hk' by assumption.
        injection Hk as <-. simpl in Hov. pose proof (Hold _ _ Hk'). lia.
      * rewrite lookup_insert_eq in Hk'. rewrite lookup_insert_ne in Hk by assumption.
        injection Hk' as <-. simpl in Hov. pose proof (Hold _ _ Hk). lia.
      * rewrite lookup_insert_ne in Hk, Hk' by assumption. eapply Ioff; eassumption.
    + intros Hd' e He. rewrite Fd in Hd'. rewrite Hm, Hd'. rewrite Hes' in He.
      destruct Hmiss as [Hx|Hnone]; [congruence|].
      apply elem_of_app in He as [He|He].
      * destruct (Iknown Hd' _ He) as (k & Hk). exists k.
        rewrite lookup_insert_ne; [exact Hk|]. intros <-. congruence.
      * apply list_elem_of_singleton in He as ->. simpl.
        exists (hashSum d). apply lookup_insert_eq.
    + intros c x Hc Hx. apply elem_of_app in Hc as [Hc|Hc].
      * destruct (Itiles c x Hc Hx) as (e & He & Hin' & Hsl).
        exists e. rewrite Hes', elem_of_app. split; [auto|]. split; [exact Hin'|].
        destruct (proj1 (Forall_forall _ _) Ibnd _ He) as (B1 & B2 & B3).
        rewrite slice_app_l by lia. exact Hsl.
      * apply list_elem_of_singleton in Hc as ->.
        unfold callID, callRun, callData in *. simpl in *.
        eexists. split; [rewrite Hes', elem_of_app, list_elem_of_singleton; right; reflexivity|].
        split; [unfold inRun; simpl; lia|].
        simpl. rewrite Icur. apply slice_app_r.
Qed.

Lemma runTotal_app a b : runTotal (a ++ b) = runTotal a + runTotal b.
Proof. unfold runTotal. induction a as [|c a IH]; simpl; [lia|]. rewrite IH. lia. Qed.

Lemma storedTotal_app a b :
  storedTotal gzipBest comp (a ++ b)
  = storedTotal gzipBest comp a + storedTotal gzipBest comp b.
Proof. unfold storedTotal. induction a as [|c a IH]; simpl; [lia|]. rewrite IH. lia. Qed.

Lemma runTotal_cons c calls : runTotal (c :: calls) = callRun c + runTotal calls.
Proof. reflexivity. Qed.

Lemma storedTotal_cons c calls :
  storedTotal gzipBest comp (c :: calls)
  = len (stored (callData c)) + storedTotal gzipBest comp calls.
Proof. reflexivity. Qed.

Lemma runTotal_nonneg calls : Forall wellTyped calls -> 0 <= runTotal calls.
Proof.
  unfold runTotal. induction 1 as [|c calls [_ Hc] _ IH]; simpl; lia.
Qed.

Lemma storedTotal_nonneg calls : 0 <= storedTotal gzipBest comp calls.
Proof.
  unfold storedTotal. induction calls as [|c calls IH]; simpl; [lia|].
  pose proof (len_nonneg (stored (callData c))). lia.
Qed.

Lemma feedSpool_inv calls : forall done t hi r spool,
  inv done t hi r spool ->
  Forall wellTyped calls ->
  callsAfter t hi calls ->
  collisionFree hashSum (done ++ calls) ->
  Forall (fun c => 0 < len (stored (callData c)) < 2 ^ 32) calls ->
  storedTotal gzipBest comp (done ++ calls) < 2 ^ 64 ->
  runTotal (done ++ calls) < 2 ^ 32 ->
  exists r' spool' t' hi',
    feedBytes r spool calls = Ok (r', spool') /\ inv (done ++ calls) t' hi' r' spool'.
Proof.
  induction calls as [|[[id d] rl] calls IH];
    intros done t hi r spool Hinv Hty Hord Hcoll Hsize Hstored Hrun.
  - rewrite app_nil_r. exists r, spool, t, hi. split; [reflexivity | exact Hinv].
  - inversion Hty as [|? ? [Hid Hrl] Hty']; subst.
    inversion Hsize as [|? ? Hs Hsize']; subst.
    destruct Hord as (Ht & Hhi & Hord).
    rewrite storedTotal_app, storedTotal_cons in Hstored.
    rewrite runTotal_app, runTotal_cons in Hrun.
    pose proof (storedTotal_nonneg calls) as Hsn.
    pose proof (runTotal_nonneg calls Hty') as Hrn.
    unfold callID, callRun, callData in *. simpl in *.
    destruct (spoolInv_step done t hi r spool id d rl Hinv Ht Hhi Hid Hrl)
      as (r1 & isNew & bytes & E & Hinv1).
    + intros c c' Hc Hc'. apply Hcoll.
      * apply elem_of_app in Hc as [Hc|Hc]; apply elem_of_app; [auto|].
        apply list_elem_of_singleton in Hc as ->. right. apply elem_of_cons. auto.
      * apply elem_of_app in Hc' as [Hc'|Hc']; apply elem_of_app; [auto|].
        apply list_elem_of_singleton in Hc' as ->. right. apply elem_of_cons. auto.
    + exact Hs.
    + rewrite storedTotal_snoc. unfold callData. simpl. lia.
    + rewrite runTotal_snoc. unfold callRun. simpl. lia.
    + cbn [feedSpool]. rewrite E.
      destruct (IH (done ++ [(id, d, rl)]) id (id + rl) r1
                  (if isNew : bool then spool ++ bytes else spool) Hinv1 Hty' Hord)
        as (r' & spool' & t' & hi' & Hf & Hi).
      * intros c c' Hc Hc'. rewrite <- app_assoc in Hc, Hc'. apply Hcoll; assumption.
      * exact Hsize'.
      * rewrite storedTotal_app, storedTotal_snoc. unfold callData. simpl. lia.
      * rewrite runTotal_app, runTotal_snoc. unfold callRun. simpl. lia.
      * exists r', spool', t', hi'. split; [exact Hf|].
        rewrite <- app_assoc in Hi. exact Hi.
Qed.

(** X5: tiles fed in increasing id order with runs that do not reach the
    next id, whose contents have no digest in common, are not empty once
    stored and fit the 32-bit length, the 64-bit cursor and the 32-bit run
    length: every tile of every call is covered by an entry, by one only,
    and the bytes of the spool at the offset and length of that entry are
    the stored bytes of the call. *)
Theorem tiles_resolve_to_their_bytes dedup calls :
  Forall wellTyped calls ->
  separatedCalls calls ->
  collisionFree hashSum calls ->
  Forall (fun c => 0 < len (stored (callData c)) < 2 ^ 32) calls ->
  storedTotal gzipBest comp calls < 2 ^ 64 ->
  runTotal calls < 2 ^ 32 ->
  exists r spool,
    feedBytes (newResolver dedup comp) [] calls = Ok (r, spool) /\
    disjointRuns (Entries r) /\
    forall c x,
      c ∈ calls -> callID c <= x < callID c + callRun c ->
      exists e, e ∈ Entries r /\ inRun x e /\
        slice spool (Offset e) (Length e) = stored (callData c).
Proof.
  intros Hty Hord Hcoll Hsize Hstored Hrun.
  destruct (feedSpool_inv calls [] (-1) 0 (newResolver dedup comp) []
              (spoolInv_new dedup) Hty Hord Hcoll Hsize Hstored Hrun)
    as (r & spool & t & hi & Hfeed & Hinv).
  exists r, spool. split; [exact Hfeed|]. split.
  - eapply entriesUpTo_disjoint. exact (inv_order _ _ _ _ _ _ _ _ Hinv).
  - exact (inv_tiles _ _ _ _ _ _ _ _ Hinv).
Qed.

End SpoolFacts.

Lemma tiles_resolve_to_their_bytes_witness :
  exists r spool,
    feedSpool fnvSum framed (newResolver true true) []
      [(5, [Byte.x41], 1); (6, [Byte.x41], 1); (8, [Byte.x42], 2)] = Ok (r, spool) /\
    exists e, e ∈ Entries r /\ inRun 6 e /\
      slice spool (Offset e) (Length e) = framed [Byte.x41].
Proof.
  destruct (tiles_resolve_to_their_bytes fnvSum framed true true
              [(5, [Byte.x41], 1); (6, [Byte.x41], 1); (8, [Byte.x42], 2)])
    as (r & spool & Hfeed & _ & Htiles).
  - repeat constructor; unfold callID, callRun; simpl; lia.
  - unfold separatedCalls. simpl. unfold callID, callRun. simpl. lia.
  - intros c c' Hc Hc' Hh.
    repeat (apply elem_of_cons in Hc as [->|Hc]);
      repeat (apply elem_of_cons in Hc' as [->|Hc']);
      try (inversion Hc; fail); try (inversion Hc'; fail);
      try reflexivity; vm_compute in Hh; discriminate.
  - repeat constructor; vm_compute; reflexivity.
  - vm_compute. reflexivity.
  - vm_compute. reflexivity.
  - exists r, spool. split; [exact Hfeed|].
    apply (Htiles (6, [Byte.x41], 1) 6).
    + apply elem_of_cons. right. apply elem_of_cons. left. reflexivity.
    + unfold callID, callRun. simpl. lia.
Defined.

(** ** The writer worker: files and counter *)

Section ExtractMore.

Variable tilePath : Z -> string.
Variable statFails : nat -> string -> bool.
Variable writeFile : nat -> string -> writeResult.
Variable ctxDone : nat -> bool.

Local Abbreviation run := (writeRun tilePath statFails writeFile ctxDone).
Local Abbreviation worker := (writerWorker tilePath statFails writeFile ctxDone).

(** One iteration of the inner loop that the context lets through: the
    state before the next one. *)
Lemma writeRun_step task n i st :
  ctxDone (polls st) = false ->
  exists st1,
    run task (S n) i st = run task n (i + 1) st1 /\
    polls st1 = S (polls st) /\
    let path := tilePath (u64 (TileID (entry task) + i)) in
    (files st !! path <> None /\ files st1 = files st /\ failed st1 = failed st /\
     processedTiles st1 = u32 (processedTiles st + 1)) \/
    (files st !! path = None /\ statFails (polls st) path = true /\
     files st1 = files st /\ failed st1 = failed st /\
     processedTiles st1 = u32 (processedTiles st + 1)) \/
    (files st !! path = None /\ writeFile (polls st) path = Written /\
     files st1 = <[path := tileData task]> (files st) /\ failed st1 = failed st /\
     processedTiles st1 = u32 (processedTiles st + 1)) \/
    (files st !! path = None /\ writeFile (polls st) path = NotCreated /\
     files st1 = files st /\ failed st1 = failed st ++ [path] /\
     processedTiles st1 = processedTiles st) \/
    (files st !! path = None /\
     (exists m, writeFile (polls st) path = Truncated m /\
                files st1 = <[path := take m (tileData task)]> (files st)) /\
     failed st1 = failed st ++ [path] /\
     processedTiles st1 = processedTiles st).
Proof.
  intros Hctx. cbn [writeRun]. rewrite Hctx. cbn [files processedTiles failed polls].
  unfold statNotExist.
  destruct (files st !! tilePath (u64 (TileID (entry task) + i))) as [old|] eqn:Hfile.
  - eexists. split; [reflexivity|]. split; [reflexivity|]. left. simpl. auto.
  - destruct (statFails (polls st) _) eqn:Hstat; cbn [negb].
    + eexists. split; [reflexivity|]. split; [reflexivity|]. right. left. simpl. auto.
    + destruct (writeFile (polls st) _) eqn:Hw; cbn [osWriteFile].
      * eexists. split; [reflexivity|]. split; [reflexivity|].
        right. right. left. simpl. auto.
      * eexists. split; [reflexivity|]. split; [reflexivity|].
        right. right. right. left. simpl. auto.
      * eexists. split; [reflexivity|]. split; [reflexivity|].
        right. right. right. right. simpl. eauto 10.
Qed.


Lemma writeRun_cancel task n i st :
  ctxDone (polls st) = true ->
  run task (S n) i st =
  (Some ErrContextCanceled,
   mkExtraction (files st) (processedTiles st) (failed st) (S (polls st))).
Proof. intros Hctx. cbn [writeRun]. rewrite Hctx. reflexivity. Qed.

Lemma writeRun_keeps task n : forall i st res st',
  run task n i st = (res, st') ->
  (forall p d, files st !! p = Some d -> files st' !! p = Some d) /\
  (forall p, p ∈ failed st -> p ∈ failed st').
Proof.
  induction n as [|n IH]; intros i st res st' H.
  - injection H as <- <-. auto.
  - destruct (ctxDone (polls st)) eqn:Hctx.
    + rewrite writeRun_cancel in H by exact Hctx. injection H as <- <-. auto.
    + destruct (writeRun_step task n i st Hctx) as (st1 & Hrun & _ & Hcases).
      rewrite Hrun in H. destruct (IH _ _ _ _ H) as [IHf IHl].
      assert (Hf : forall p d, files st !! p = Some d -> files st1 !! p = Some d).
      { intros p d Hp.
        destruct Hcases as [(_ & -> & _)|[(_ & _ & -> & _)|[(Hn & _ & -> & _)
                           |[(_ & _ & -> & _)|(Hn & (m & _ & ->) & _)]]]]; auto;
          (rewrite lookup_insert_ne; [exact Hp|]; intros <-; congruence). }
      assert (Hl : forall p, p ∈ failed st -> p ∈ failed st1).
      { intros p Hp.
        destruct Hcases as [(_ & _ & -> & _)|[(_ & _ & _ & -> & _)|[(_ & _ & _ & -> & _)
                           |[(_ & _ & _ & -> & _)|(_ & _ & -> & _)]]]]; auto;
          apply elem_of_app; auto. }
      split; auto.
Qed.

Lemma writerWorker_keeps tasks : forall st res st',
  worker tasks st = (res, st') ->
  (forall p d, files st !! p = Some d -> files st' !! p = Some d) /\
  (forall p, p ∈ failed st -> p ∈ failed st').
Proof.
  induction tasks as [|task tasks IH]; intros st res st' H; simpl in H.
  - injection H as <- <-. auto.
  - destruct (run task _ 0 st) as [[e|] st1] eqn:E.
    + injection H as <- <-. eapply writeRun_keeps; eassumption.
    + destruct (writeRun_keeps _ _ _ _ _ _ E) as [Hf Hl].
      destruct (IH _ _ _ H) as [Hf' Hl']. split; auto.
Qed.

(** X6: the writer worker never overwrites a file: a path that is a file
    before the worker runs has the same bytes after it, whatever the tasks,
    the failures and the cancellation. *)
Theorem writer_never_overwrites tasks : forall st res st' p d,
  writerWorker tilePath statFails writeFile ctxDone tasks st = (res, st') ->
  files st !! p = Some d ->
  files st' !! p = Some d.
Proof.
  intros st res st' p d H. apply (writerWorker_keeps _ _ _ _ H).
Qed.

(** Where a file of a run comes from. *)
Lemma writeRun_origin task n : forall i st res st',
  run task n i st = (res, st') ->
  forall p d, files st' !! p = Some d ->
    files st !! p = Some d \/
    exists j k, (j < n)%nat /\
      p = tilePath (u64 (TileID (entry task) + (i + Z.of_nat j))) /\
      files st !! p = None /\
      ((writeFile k p = Written /\ d = tileData task) \/
       (exists m, writeFile k p = Truncated m /\ d = take m (tileData task) /\
                  p ∈ failed st')).
Proof.
  induction n as [|n IH]; intros i st res st' H p d Hp.
  - injection H as <- <-. auto.
  - destruct (ctxDone (polls st)) eqn:Hctx.
    + rewrite writeRun_cancel in H by exact Hctx. injection H as <- <-. auto.
    + destruct (writeRun_step task n i st Hctx) as (st1 & Hrun & _ & Hcases).
      rewrite Hrun in H.
      destruct (writeRun_keeps _ _ _ _ _ _ H) as [Hkeep Hlog].
      destruct (IH _ _ _ _ H p d Hp) as [H1 | (j & k & Hj & Hpj & Hnone & Hd)].
      * (* the file is there after this iteration *)
        set (path := tilePath (u64 (TileID (entry task) + i))) in *.
        assert (Hhere : forall d0,
                  files st !! path = None ->
                  files st1 = <[path := d0]> (files st) ->
                  (writeFile (polls st) path = Written /\ d0 = tileData task) \/
                  (exists m, writeFile (polls st) path = Truncated m /\
                             d0 = take m (tileData task) /\ path ∈ failed st') ->
                  files st !! p = Some d \/
                  exists j k, (j < S n)%nat /\
                    p = tilePath (u64 (TileID (entry task) + (i + Z.of_nat j))) /\
                    files st !! p = None /\
                    ((writeFile k p = Written /\ d = tileData task) \/
                     (exists m, writeFile k p = Truncated m /\
                                d = take m (tileData task) /\ p ∈ failed st'))).
        { intros d0 Hn Hfiles Hd0. rewrite Hfiles in H1.
          destruct (decide (path = p)) as [<-|Hne].
          - rewrite lookup_insert_eq in H1. injection H1 as ->.
            right. exists O, (polls st). rewrite Z.add_0_r.
            split; [lia|]. split; [reflexivity|]. split; [exact Hn | exact Hd0].
          - rewrite lookup_insert_ne in H1 by assumption. auto. }
        destruct Hcases as [(_ & Hf & _)|[(_ & _ & Hf & _)|[(Hn & Hw & Hf & _)
                           |[(_ & _ & Hf & _)|(Hn & (m & Hw & Hf) & Hl & _)]]]];
          try (left; rewrite <- Hf; exact H1).
        -- eapply Hhere; eauto.
        -- eapply Hhere; [exact Hn | exact Hf |]. right. exists m.
           split; [exact Hw|]. split; [reflexivity|]. apply Hlog. rewrite Hl.
           apply elem_of_app. right. left.
      * (* the file comes from a later iteration *)
        right. exists (S j), k. split; [lia|].
        replace (i + Z.of_nat (S j)) with (i + 1 + Z.of_nat j) by lia.
        split; [exact Hpj|]. split; [|exact Hd].
        destruct (files st !! p) as [old|] eqn:Hold; [|reflexivity].
        assert (Hst1 : is_Some (files st1 !! p)).
        { destruct Hcases as [(_ & -> & _)|[(_ & _ & -> & _)|[(_ & _ & -> & _)
                             |[(_ & _ & -> & _)|(_ & (m & _ & ->) & _)]]]];
            try (rewrite Hold; eauto);
            (destruct (decide (tilePath (u64 (TileID (entry task) + i)) = p)) as [<-|Hne];
              [rewrite lookup_insert_eq; eauto
              |rewrite lookup_insert_ne by assumption; rewrite Hold; eauto]). }
        rewrite Hnone in Hst1. destruct Hst1 as [x Hx]. discriminate.
Qed.

(** X7: every file of the tree after the worker was there before with the
    same bytes, or is at the path of a tile of one of the tasks, where there
    was no file; it then holds the bytes of that task, written without an
    error, or the first bytes of them that a write that failed has left, and
    the path is then logged as failed. *)
Theorem written_files_hold_task_data tasks : forall st res st' p d,
  worker tasks st = (res, st') ->
  files st' !! p = Some d ->
  files st !! p = Some d \/
  exists task i k,
    task ∈ tasks /\ 0 <= i < RunLength (entry task) /\
    p = tilePath (u64 (TileID (entry task) + i)) /\
    files st !! p = None /\
    ((writeFile k p = Written /\ d = tileData task) \/
     (exists m, writeFile k p = Truncated m /\ d = take m (tileData task) /\
                p ∈ failed st')).
Proof.
  induction tasks as [|task tasks IH]; intros st res st' p d H Hp; simpl in H.
  - injection H as <- <-. auto.
  - assert (Hhere : forall st1 res1,
              run task (Z.to_nat (RunLength (entry task))) 0 st = (res1, st1) ->
              (forall q, q ∈ failed st1 -> q ∈ failed st') ->
              files st1 !! p = Some d ->
              files st !! p = Some d \/
              exists task' i k,
                task' ∈ task :: tasks /\ 0 <= i < RunLength (entry task') /\
                p = tilePath (u64 (TileID (entry task') + i)) /\
                files st !! p = None /\
                ((writeFile k p = Written /\ d = tileData task') \/
                 (exists m, writeFile k p = Truncated m /\
                            d = take m (tileData task') /\ p ∈ failed st'))).
    { intros st1 res1 Hrun Hlog Hp1.
      destruct (writeRun_origin _ _ _ _ _ _ Hrun p d Hp1)
        as [H0 | (j & k & Hj & Hpj & Hnone & Hd)]; [auto|].
      right. exists task, (Z.of_nat j), k. rewrite Z.add_0_l in Hpj.
      split; [left|]. split; [lia|]. split; [exact Hpj|]. split; [exact Hnone|].
      destruct Hd as [Hd|(m & Hm & Hd & Hl)]; [auto|]. right. eauto 10. }
    destruct (run task _ 0 st) as [[e|] st1] eqn:E.
    + injection H as <- <-. eapply Hhere; eauto.
    + destruct (writerWorker_keeps _ _ _ _ H) as [_ Hlog].
      destruct (IH _ _ _ _ _ H Hp) as [H1 | (task' & i & k & Hin & Hi & Hpi & Hnone & Hd)].
      * eapply Hhere; eauto.
      * right. exists task', i, k. split; [right; exact Hin|].
        split; [exact Hi|]. split; [exact Hpi|]. split; [|exact Hd].
        destruct (files st !! p) as [old|] eqn:Hold; [|reflexivity].
        destruct (writeRun_keeps _ _ _ _ _ _ E) as [Hkeep _].
        rewrite (Hkeep _ _ Hold) in Hnone. discriminate.
Qed.

(** Without cancellation a run goes through all its tiles, whatever
    [os.Stat] and the writes do. *)
Lemma writeRun_counts task n :
  (forall k, ctxDone k = false) ->
  forall i st,
  exists st',
    run task n i st = (None, st') /\
    u32 (processedTiles st' + len (failed st'))
    = u32 (processedTiles st + len (failed st) + Z.of_nat n).
Proof.
  intros Hctx. induction n as [|n IH]; intros i st.
  - exists st. split; [reflexivity|]. f_equal. lia.
  - destruct (writeRun_step task n i st (Hctx _)) as (st1 & Hrun & _ & Hcases).
    destruct (IH (i + 1) st1) as (st' & Hrun' & Hc).
    exists st'. split; [rewrite Hrun; exact Hrun'|]. rewrite Hc.
    destruct Hcases as [(_ & _ & -> & ->)|[(_ & _ & _ & -> & ->)|[(_ & _ & _ & -> & ->)
                       |[(_ & _ & _ & -> & ->)|(_ & _ & -> & ->)]]]];
      rewrite ?len_snoc, <- ?Z.add_assoc, ?u32_add_l; f_equal; lia.
Qed.

(** X8: without cancellation the worker goes through all its tasks, and the
    tiles it has counted in [processedTiles] together with the writes it has
    logged as failed are the tiles of its tasks (as a [uint32]). *)
Theorem writer_counts_all_tiles tasks :
  (forall k, ctxDone k = false) ->
  forall st,
  exists st',
    worker tasks st = (None, st') /\
    u32 (processedTiles st' + len (failed st'))
    = u32 (processedTiles st + len (failed st) + tilesOf tasks).
Proof.
  intros Hctx. induction tasks as [|task tasks IH]; intros st; simpl.
  - exists st. split; [reflexivity|]. f_equal. lia.
  - destruct (writeRun_counts task (Z.to_nat (RunLength (entry task))) Hctx 0 st)
      as (st1 & Hrun & Hc1).
    rewrite Hrun.
    destruct (IH st1) as (st' & Hw & Hc).
    exists st'. split; [exact Hw|].
    rewrite Hc.
    rewrite <- (u32_add_l (processedTiles st1 + len (failed st1))).
    rewrite Hc1.
    rewrite u32_add_l. f_equal. unfold tilesOf. simpl. lia.
Qed.

End ExtractMore.

Lemma writer_never_overwrites_witness :
  files (mkExtraction (<["a" := [Byte.x42]]> ∅) 0 [] 0) !! "a" = Some [Byte.x42] /\
  exists st',
    writerWorker letterPath (fun _ _ => false) (fun _ _ => Written) (fun _ => false)
      [mkTileTask (mkEntryV3 0 0 1 2) [Byte.x41]]
      (mkExtraction (<["a" := [Byte.x42]]> ∅) 0 [] 0) = (None, st') /\
    files st' !! "a" = Some [Byte.x42].
Proof.
  split; [reflexivity|].
  eexists. split; [vm_compute; reflexivity|].
  eapply (writer_never_overwrites letterPath (fun _ _ => false) (fun _ _ => Written)
            (fun _ => false) [mkTileTask (mkEntryV3 0 0 1 2) [Byte.x41]]
            (mkExtraction (<["a" := [Byte.x42]]> ∅) 0 [] 0) None).
  - vm_compute. reflexivity.
  - reflexivity.
Defined.

Lemma written_files_hold_task_data_witness :
  exists st',
    writerWorker letterPath (fun _ _ => false) truncatesOnA (fun _ => false)
      [mkTileTask (mkEntryV3 0 0 2 2) [Byte.x41; Byte.x42]] noTiles = (None, st') /\
    files st' !! "a" = Some [Byte.x41] /\
    files st' !! "b" = Some [Byte.x41; Byte.x42] /\
    (files noTiles !! "a" = Some [Byte.x41] \/
     exists task i k,
       task ∈ [mkTileTask (mkEntryV3 0 0 2 2) [Byte.x41; Byte.x42]] /\
       0 <= i < RunLength (entry task) /\
       "a" = letterPath (u64 (TileID (entry task) + i)) /\
       files noTiles !! "a" = None /\
       ((truncatesOnA k "a" = Written /\ [Byte.x41] = tileData task) \/
        (exists m, truncatesOnA k "a" = Truncated m /\
                   [Byte.x41] = take m (tileData task) /\ "a" ∈ failed st'))).
Proof.
  eexists. split; [vm_compute; reflexivity|]. split; [reflexivity|].
  split; [reflexivity|].
  eapply (written_files_hold_task_data letterPath (fun _ _ => false) truncatesOnA
            (fun _ => false) [mkTileTask (mkEntryV3 0 0 2 2) [Byte.x41; Byte.x42]]
            noTiles None).
  - vm_compute. reflexivity.
  - reflexivity.
Defined.

Lemma writer_counts_all_tiles_witness :
  (forall k : nat, (fun _ : nat => false) k = false) /\
  exists st',
    writerWorker letterPath (fun _ _ => false) failsOnA (fun _ => false)
      [mkTileTask (mkEntryV3 0 0 1 2) [Byte.x41]] noTiles = (None, st') /\
    u32 (processedTiles st' + len (failed st'))
    = u32 (processedTiles noTiles + len (failed noTiles)
           + tilesOf [mkTileTask (mkEntryV3 0 0 1 2) [Byte.x41]]).
Proof.
  assert (Hctx : forall k : nat, (fun _ : nat => false) k = false) by reflexivity.
  split; [exact Hctx|].
  apply (writer_counts_all_tiles letterPath (fun _ _ => false) failsOnA (fun _ => false)
           [mkTileTask (mkEntryV3 0 0 1 2) [Byte.x41]] Hctx noTiles).
Defined.

(** ** The assembler: the sections of the output *)

Section AssemblerMore.

Variable json : Type.
Variable IDToZxy : Z -> Z * Z * Z.
Variable HeaderV3LenBytes : Z.
Variable optimizeDirectories :
  list EntryV3 -> Z -> Compression -> list Byte.byte * list Byte.byte * Z.
Variable SerializeMetadata : json -> Compression -> option (list Byte.byte).
Variable SerializeHeader : HeaderV3 -> list Byte.byte.

Local Abbreviation finalizeArchive :=
  (finalize json IDToZxy HeaderV3LenBytes optimizeDirectories SerializeMetadata
     SerializeHeader).
Local Abbreviation rootOf resolve :=
  (fst (fst (optimizeDirectories (Entries resolve) (16384 - HeaderV3LenBytes) Gzip))).
Local Abbreviation leavesOf resolve :=
  (snd (fst (optimizeDirectories (Entries resolve) (16384 - HeaderV3LenBytes) Gzip))).

Lemma setZoomCenterDefaults_keeps header entries h :
  setZoomCenterDefaults IDToZxy header entries = Ok h ->
  RootOffset h = RootOffset header /\ RootLength h = RootLength header /\
  AddressedTilesCount h = AddressedTilesCount header /\
  TileEntriesCount h = TileEntriesCount header /\
  TileContentsCount h = TileContentsCount header /\
  TileCompression h = TileCompression header /\
  TileType_ h = TileType_ header /\
  MinLonE7 h = MinLonE7 header /\ MinLatE7 h = MinLatE7 header /\
  MaxLonE7 h = MaxLonE7 header /\ MaxLatE7 h = MaxLatE7 header.
Proof.
  unfold setZoomCenterDefaults.
  destruct (head entries) as [first|]; [|discriminate].
  destruct (last entries) as [final|]; [|discriminate].
  destruct (IDToZxy (TileID first)) as [[minZ ?] ?].
  destruct (IDToZxy (TileID final)) as [[maxZ ?] ?].
  destruct header. simpl.
  destruct (_ && _); intros H; injection H as <-; simpl; repeat split; reflexivity.
Qed.

(** What a successful [finalize] has done. *)
Lemma finalize_Ok fl resolve header jsonMetadata w h w' :
  finalizeArchive fl resolve header jsonMetadata w = (Ok h, w') ->
  exists metadataBytes h0,
    SerializeMetadata jsonMetadata Gzip = Some metadataBytes /\
    setZoomCenterDefaults IDToZxy (setCounts header resolve) (Entries resolve) = Ok h0 /\
    h = setLayout HeaderV3LenBytes h0 (len (rootOf resolve)) (len metadataBytes)
          (len (leavesOf resolve)) (rOffset resolve) /\
    w' = mkWorld true
           (SerializeHeader h ++ rootOf resolve ++ metadataBytes ++ leavesOf resolve
              ++ tmpBytes w)
           (tmpBytes w).
Proof.
  unfold finalize, mbind, M_bind, bind, osCreate, outWrite, tmpSeekStart, ioCopy, lift,
    ret, fail.
  destruct (createFails fl); [discriminate|].
  destruct (optimizeDirectories (Entries resolve) (16384 - HeaderV3LenBytes) Gzip)
    as [[rootBytes leavesBytes] numLeaves]. simpl.
  destruct (SerializeMetadata jsonMetadata Gzip) as [metadataBytes|]; [|discriminate].
  destruct (setZoomCenterDefaults IDToZxy (setCounts header resolve) (Entries resolve))
    as [h0| |]; try discriminate.
  destruct (outWriteFails fl 0); [discriminate|]. simpl.
  destruct (outWriteFails fl 1); [discriminate|]. simpl.
  destruct (outWriteFails fl 2); [discriminate|]. simpl.
  destruct (outWriteFails fl 3); [discriminate|]. simpl.
  destruct (tmpSeekFails fl); [discriminate|].
  destruct (copyFails fl); [discriminate|]. simpl.
  intros H. injection H as <- <-.
  exists metadataBytes, h0. repeat split.
  rewrite <- !app_assoc. reflexivity.
Qed.

Lemma finalize_sections fl resolve header jsonMetadata w h w' :
  finalizeArchive fl resolve header jsonMetadata w = (Ok h, w') ->
  exists metadataBytes,
    SerializeMetadata jsonMetadata Gzip = Some metadataBytes /\
    outCreated w' = true /\ tmpBytes w' = tmpBytes w /\
    outBytes w' =
      SerializeHeader h ++ rootOf resolve ++ metadataBytes ++ leavesOf resolve
        ++ tmpBytes w /\
    RootOffset h = HeaderV3LenBytes /\
    RootLength h = u64 (len (rootOf resolve)) /\
    MetadataOffset h = u64 (RootOffset h + RootLength h) /\
    MetadataLength h = u64 (len metadataBytes) /\
    LeafDirectoryOffset h = u64 (MetadataOffset h + MetadataLength h) /\
    LeafDirectoryLength h = u64 (len (leavesOf resolve)) /\
    TileDataOffset h = u64 (LeafDirectoryOffset h + LeafDirectoryLength h) /\
    TileDataLength h = rOffset resolve /\
    AddressedTilesCount h = AddressedTiles resolve /\
    TileEntriesCount h = u64 (len (Entries resolve)) /\
    TileContentsCount h = NumContents resolve /\
    Clustered h = true /\ InternalCompression h = Gzip /\
    (TileType_ h = Mvt -> TileCompression h = Gzip).
Proof.
  intros H.
  destruct (finalize_Ok _ _ _ _ _ _ _ H) as (metadataBytes & h0 & Hm & Hz & Hh & Hw).
  exists metadataBytes. split; [exact Hm|].
  destruct (setZoomCenterDefaults_keeps _ _ _ Hz)
    as (_ & _ & Ha & He & Hc & _ & Hty & _).
  assert (Hcounts : AddressedTilesCount h0 = AddressedTiles resolve /\
                    TileEntriesCount h0 = u64 (len (Entries resolve)) /\
                    TileContentsCount h0 = NumContents resolve).
  { rewrite Ha, He, Hc. destruct header. simpl. auto. }
  destruct Hcounts as (Ha' & He' & Hc').
  rewrite Hw. simpl.
  split; [reflexivity|]. split; [reflexivity|]. split; [reflexivity|].
  clear Hw H. subst h. destruct h0. simpl in *.
  repeat (split; [first [assumption | reflexivity]|]).
  intros ->. reflexivity.
Qed.

(** X9: when [finalize] succeeds, the output is the header, the root
    directory, the metadata, the leaf directories and the spool, in this
    order, and the spool is as before; the header it returns and writes
    has the counts of the resolver, is marked clustered with gzip inside,
    and has each section offset at the end of the section before it. *)
Theorem finalize_writes_sections fl resolve header jsonMetadata w h w' :
  finalizeArchive fl resolve header jsonMetadata w = (Ok h, w') ->
  exists metadataBytes,
    SerializeMetadata jsonMetadata Gzip = Some metadataBytes /\
    outCreated w' = true /\ tmpBytes w' = tmpBytes w /\
    outBytes w' =
      SerializeHeader h ++ rootOf resolve ++ metadataBytes ++ leavesOf resolve
        ++ tmpBytes w /\
    RootOffset h = HeaderV3LenBytes /\
    RootLength h = u64 (len (rootOf resolve)) /\
    MetadataOffset h = u64 (RootOffset h + RootLength h) /\
    MetadataLength h = u64 (len metadataBytes) /\
    LeafDirectoryOffset h = u64 (MetadataOffset h + MetadataLength h) /\
    LeafDirectoryLength h = u64 (len (leavesOf resolve)) /\
    TileDataOffset h = u64 (LeafDirectoryOffset h + LeafDirectoryLength h) /\
    TileDataLength h = rOffset resolve /\
    AddressedTilesCount h = AddressedTiles resolve /\
    TileEntriesCount h = u64 (len (Entries resolve)) /\
    TileContentsCount h = NumContents resolve /\
    Clustered h = true /\ InternalCompression h = Gzip /\
    (TileType_ h = Mvt -> TileCompression h = Gzip).
Proof. apply finalize_sections. Qed.

(** X10: with a header codec of the fixed length [HeaderV3LenBytes] and an
    output shorter than [2^64] bytes, the offsets and lengths of the header
    of a successful [finalize] point at the bytes of its sections: the
    root directory, the metadata, the leaf directories, and, when the
    cursor of the resolver is the length of the spool, the tile data. *)
Theorem header_locates_sections fl resolve header jsonMetadata w h w' :
  finalizeArchive fl resolve header jsonMetadata w = (Ok h, w') ->
  len (SerializeHeader h) = HeaderV3LenBytes ->
  rOffset resolve = len (tmpBytes w) ->
  len (outBytes w') < 2 ^ 64 ->
  exists metadataBytes,
    SerializeMetadata jsonMetadata Gzip = Some metadataBytes /\
    slice (outBytes w') 0 HeaderV3LenBytes = SerializeHeader h /\
    slice (outBytes w') (RootOffset h) (RootLength h) = rootOf resolve /\
    slice (outBytes w') (MetadataOffset h) (MetadataLength h) = metadataBytes /\
    slice (outBytes w') (LeafDirectoryOffset h) (LeafDirectoryLength h) = leavesOf resolve /\
    slice (outBytes w') (TileDataOffset h) (TileDataLength h) = tmpBytes w /\
    TileDataOffset h + TileDataLength h = len (outBytes w').
Proof.
  intros H Hhdr Hcur Hsize.
  destruct (finalize_sections _ _ _ _ _ _ _ H)
    as (metadataBytes & Hm & _ & _ & Hout & Hro & Hrl & Hmo & Hml & Hlo & Hll & Hto & Htl & _).
  exists metadataBytes. split; [exact Hm|].
  rewrite Hout in Hsize |- *. rewrite !len_app in Hsize.
  pose proof (len_nonneg (rootOf resolve)) as P1.
  pose proof (len_nonneg metadataBytes) as P2.
  pose proof (len_nonneg (leavesOf resolve)) as P3.
  pose proof (len_nonneg (tmpBytes w)) as P4.
  pose proof (len_nonneg (SerializeHeader h)) as P5.
  rewrite Hhdr in Hsize, P5.
  rewrite u64_small in Hrl by lia. rewrite Hro, Hrl in Hmo.
  rewrite u64_small in Hmo by lia. rewrite u64_small in Hml by lia.
  rewrite Hmo, Hml in Hlo. rewrite u64_small in Hlo by lia.
  rewrite u64_small in Hll by lia.
  rewrite Hlo, Hll in Hto. rewrite u64_small in Hto by lia.
  rewrite Hro, Hrl, Hmo, Hml, Hlo, Hll, Hto, Htl, Hcur.
  assert (Hat : forall (pre sec post whole : list Byte.byte) (off n : Z),
            whole = pre ++ sec ++ post -> off = len pre -> n = len sec ->
            slice whole off n = sec).
  { intros pre sec post whole off n -> -> ->. rewrite app_assoc.
    rewrite slice_app_l; [apply slice_app_r | apply len_nonneg | apply len_nonneg |].
    rewrite len_app. lia. }
  repeat split.
  - apply (Hat [] (SerializeHeader h) (rootOf resolve ++ metadataBytes ++ leavesOf resolve
                                         ++ tmpBytes w));
      [reflexivity | reflexivity | lia].
  - apply (Hat (SerializeHeader h) (rootOf resolve)
             (metadataBytes ++ leavesOf resolve ++ tmpBytes w));
      [reflexivity | lia | lia].
  - apply (Hat (SerializeHeader h ++ rootOf resolve) metadataBytes
             (leavesOf resolve ++ tmpBytes w));
      [rewrite <- !app_assoc; reflexivity | rewrite !len_app; lia | lia].
  - apply (Hat (SerializeHeader h ++ rootOf resolve ++ metadataBytes) (leavesOf resolve)
             (tmpBytes w));
      [rewrite <- !app_assoc; reflexivity | rewrite !len_app; lia | lia].
  - apply (Hat (SerializeHeader h ++ rootOf resolve ++ metadataBytes ++ leavesOf resolve)
             (tmpBytes w) []);
      [rewrite <- !app_assoc, app_nil_r; reflexivity | rewrite !len_app; lia | lia].
  - rewrite !len_app, Hhdr. lia.
Qed.

(** X11: with at least one entry [finalize] does not panic, and it then
    succeeds whenever the metadata can be serialized and no file operation
    fails. *)
Theorem finalize_with_entries fl resolve header jsonMetadata w :
  Entries resolve <> [] ->
  (forall p,
     fst (finalize json IDToZxy HeaderV3LenBytes optimizeDirectories SerializeMetadata
            SerializeHeader fl resolve header jsonMetadata w) <> Crash p) /\
  (createFails fl = false ->
   (forall k, outWriteFails fl k = false) ->
   tmpSeekFails fl = false -> copyFails fl = false ->
   SerializeMetadata jsonMetadata Gzip <> None ->
   exists h w',
     finalize json IDToZxy HeaderV3LenBytes optimizeDirectories SerializeMetadata
       SerializeHeader fl resolve header jsonMetadata w = (Ok h, w')).
Proof.
  intros Hne.
  assert (Hz : exists h0,
            setZoomCenterDefaults IDToZxy (setCounts header resolve) (Entries resolve)
            = Ok h0).
  { unfold setZoomCenterDefaults.
    destruct (Entries resolve) as [|e es] eqn:He; [contradiction|].
    destruct (last (e :: es)) as [final|] eqn:Hl.
    - simpl. destruct (IDToZxy (TileID e)) as [[minZ ?] ?].
      destruct (IDToZxy (TileID final)) as [[maxZ ?] ?].
      destruct (setCounts header resolve). destruct (_ && _); eauto.
    - apply last_None in Hl. discriminate. }
  destruct Hz as [h0 Hz].
  unfold finalize, mbind, M_bind, bind, osCreate, outWrite, tmpSeekStart, ioCopy, lift,
    ret, fail.
  destruct (optimizeDirectories (Entries resolve) (16384 - HeaderV3LenBytes) Gzip)
    as [[rootBytes leavesBytes] numLeaves].
  rewrite Hz. split.
  - intros p.
    destruct (createFails fl); [discriminate|]. simpl.
    destruct (SerializeMetadata jsonMetadata Gzip); [|discriminate].
    destruct (outWriteFails fl 0); [discriminate|]. simpl.
    destruct (outWriteFails fl 1); [discriminate|]. simpl.
    destruct (outWriteFails fl 2); [discriminate|]. simpl.
    destruct (outWriteFails fl 3); [discriminate|]. simpl.
    destruct (tmpSeekFails fl); [discriminate|].
    destruct (copyFails fl); discriminate.
  - intros Hc Hw Hs Hcp Hm.
    rewrite Hc. simpl.
    destruct (SerializeMetadata jsonMetadata Gzip); [|contradiction].
    rewrite !Hw, Hs, Hcp. simpl. eauto.
Qed.

End AssemblerMore.

Lemma finalize_writes_sections_witness :
  exists h w',
    finalize unit digitsOfID 3 oneRoot bracesMetadata threeByteHeader noFaults
      oneEntryResolver zeroHeader tt oneTileSpool = (Ok h, w') /\
    outBytes w' =
      [Byte.x50; Byte.x4d; Byte.x03; Byte.x01; Byte.x7b; Byte.x7d; Byte.x41] /\
    TileDataOffset h = 6.
Proof.
  destruct (finalize unit digitsOfID 3 oneRoot bracesMetadata threeByteHeader noFaults
              oneEntryResolver zeroHeader tt oneTileSpool) as [[h| |] w'] eqn:E;
    try (vm_compute in E; discriminate).
  exists h, w'. split; [reflexivity|].
  destruct (finalize_writes_sections unit digitsOfID 3 oneRoot bracesMetadata
              threeByteHeader noFaults oneEntryResolver zeroHeader tt oneTileSpool h w' E)
    as (metadataBytes & Hm & _ & _ & Hout & Hro & Hrl & Hmo & Hml & Hlo & Hll & Hto & _).
  injection Hm as <-. split; [exact Hout|].
  rewrite Hto, Hlo, Hmo, Hro, Hrl, Hml, Hll. reflexivity.
Defined.

Lemma header_locates_sections_witness :
  exists h w',
    finalize unit digitsOfID 3 oneRoot bracesMetadata threeByteHeader noFaults
      oneEntryResolver zeroHeader tt oneTileSpool = (Ok h, w') /\
    slice (outBytes w') (TileDataOffset h) (TileDataLength h) = [Byte.x41].
Proof.
  destruct (finalize unit digitsOfID 3 oneRoot bracesMetadata threeByteHeader noFaults
              oneEntryResolver zeroHeader tt oneTileSpool) as [[h| |] w'] eqn:E;
    try (vm_compute in E; discriminate).
  exists h, w'. split; [reflexivity|].
  destruct (header_locates_sections unit digitsOfID 3 oneRoot bracesMetadata
              threeByteHeader noFaults oneEntryResolver zeroHeader tt oneTileSpool h w' E)
    as (metadataBytes & _ & _ & _ & _ & _ & Hdata & _).
  - reflexivity.
  - reflexivity.
  - vm_compute in E. injection E as <- <-. vm_compute. reflexivity.
  - exact Hdata.
Defined.

Lemma finalize_with_entries_witness :
  Entries oneEntryResolver <> [] /\
  exists h w',
    finalize unit digitsOfID 3 oneRoot bracesMetadata threeByteHeader noFaults
      oneEntryResolver zeroHeader tt oneTileSpool = (Ok h, w').
Proof.
  assert (Hne : Entries oneEntryResolver <> []) by discriminate.
  split; [exact Hne|].
  destruct (finalize_with_entries unit digitsOfID 3 oneRoot bracesMetadata
              threeByteHeader noFaults oneEntryResolver zeroHeader tt oneTileSpool Hne)
    as [_ H].
  apply H; try reflexivity. discriminate.
Defined.

(** ** The default center *)

Lemma i32_half_sum_between (a b : Z) :
  - 2 ^ 31 <= a + b < 2 ^ 31 -> a <= b ->
  a <= i32_half_sum a b <= b.
Proof.
  intros Hsum Hle. unfold i32_half_sum, i32.
  rewrite (Z.mod_small (a + b + 2 ^ 31)) by lia.
  replace (a + b + 2 ^ 31 - 2 ^ 31) with (a + b) by lia.
  assert (Hq : a <= Z.quot (a + b) 2 <= b).
  { destruct (Z_le_gt_dec 0 (a + b)) as [Hpos|Hneg].
    - rewrite Z.quot_div_nonneg by lia.
      split; [apply Z.div_le_lower_bound; lia|].
      apply Z.lt_succ_r. apply Z.div_lt_upper_bound; lia.
    - replace (a + b) with (- (- (a + b))) by lia.
      rewrite Z.quot_opp_l by lia. rewrite Z.quot_div_nonneg by lia.
      assert (H1 : (- (a + b)) / 2 <= - a)
        by (apply Z.lt_succ_r; apply Z.div_lt_upper_bound; lia).
      assert (H2 : - b <= (- (a + b)) / 2)
        by (apply Z.div_le_lower_bound; lia).
      lia. }
  assert (Hb : - 2 ^ 31 <= Z.quot (a + b) 2 < 2 ^ 31)
    by (clear Hq; Z.to_euclidean_division_equations; lia).
  rewrite Z.mod_small by lia. lia.
Qed.

Lemma i32_half_sum_exact (a b : Z) :
  - 2 ^ 31 <= a + b < 2 ^ 31 -> i32_half_sum a b = Z.quot (a + b) 2.
Proof.
  intros Hsum. unfold i32_half_sum, i32.
  rewrite (Z.mod_small (a + b + 2 ^ 31)) by lia.
  replace (a + b + 2 ^ 31 - 2 ^ 31) with (a + b) by lia.
  assert (Hb : - 2 ^ 31 <= Z.quot (a + b) 2 < 2 ^ 31)
    by (Z.to_euclidean_division_equations; lia).
  rewrite Z.mod_small by lia. lia.
Qed.

(** X12: [setZoomCenterDefaults] takes the zooms from the first and the
    last entry and keeps the bounds and a center that is set.  A center
    (0, 0) at zoom 0 becomes, at the minimum zoom, the half of the [int32]
    sum of the two longitudes and of the two latitudes, rounded towards
    zero; when such a sum is in the [int32] range this is the half of the
    sum, and, for bounds in order, it lies within the bounds. *)
Theorem default_center_within_bounds (IDToZxy : Z -> Z * Z * Z) header entries h :
  setZoomCenterDefaults IDToZxy header entries = Ok h ->
  (MinLonE7 h = MinLonE7 header /\ MaxLonE7 h = MaxLonE7 header /\
   MinLatE7 h = MinLatE7 header /\ MaxLatE7 h = MaxLatE7 header) /\
  (exists first final,
     head entries = Some first /\ last entries = Some final /\
     MinZoom h = fst (fst (IDToZxy (TileID first))) /\
     MaxZoom h = fst (fst (IDToZxy (TileID final)))) /\
  ((CenterZoom header <> 0 \/ CenterLonE7 header <> 0 \/ CenterLatE7 header <> 0) ->
   CenterZoom h = CenterZoom header /\ CenterLonE7 h = CenterLonE7 header /\
   CenterLatE7 h = CenterLatE7 header) /\
  (CenterZoom header = 0 -> CenterLonE7 header = 0 -> CenterLatE7 header = 0 ->
   CenterZoom h = MinZoom h /\
   CenterLonE7 h = i32 (Z.quot (i32 (MinLonE7 header + MaxLonE7 header)) 2) /\
   CenterLatE7 h = i32 (Z.quot (i32 (MinLatE7 header + MaxLatE7 header)) 2) /\
   (- 2 ^ 31 <= MinLonE7 header + MaxLonE7 header < 2 ^ 31 ->
    CenterLonE7 h = Z.quot (MinLonE7 header + MaxLonE7 header) 2 /\
    (MinLonE7 header <= MaxLonE7 header ->
     MinLonE7 h <= CenterLonE7 h <= MaxLonE7 h)) /\
   (- 2 ^ 31 <= MinLatE7 header + MaxLatE7 header < 2 ^ 31 ->
    CenterLatE7 h = Z.quot (MinLatE7 header + MaxLatE7 header) 2 /\
    (MinLatE7 header <= MaxLatE7 header ->
     MinLatE7 h <= CenterLatE7 h <= MaxLatE7 h))).
Proof.
  unfold setZoomCenterDefaults.
  destruct (head entries) as [first|]; [|discriminate].
  destruct (last entries) as [final|]; [|discriminate].
  destruct (IDToZxy (TileID first)) as [[minZ ?] ?] eqn:Efirst.
  destruct (IDToZxy (TileID final)) as [[maxZ ?] ?] eqn:Efinal.
  destruct header. simpl.
  destruct (CenterZoom0 =? 0) eqn:Ez; [destruct (CenterLonE8 =? 0) eqn:Elon;
    [destruct (CenterLatE8 =? 0) eqn:Elat|]|]; simpl;
    intros H; injection H as <-; simpl;
    (split; [repeat split; reflexivity|]);
    (split; [exists first, final; rewrite Efirst, Efinal; auto|]); split;
    try (intros _; repeat split; reflexivity);
    try (intros -> -> ->; discriminate);
    try (intros [Hc|[Hc|Hc]]; apply Z.eqb_eq in Ez, Elon, Elat; contradiction).
  intros _ _ _. split; [reflexivity|].
  split; [reflexivity|]. split; [reflexivity|].
  split; intros Hsum; (split; [apply i32_half_sum_exact; exact Hsum|]);
    intros Hle; apply i32_half_sum_between; assumption.
Qed.

Lemma default_center_within_bounds_witness :
  exists h,
    setZoomCenterDefaults digitsOfID
      (mkHeaderV3 0 0 0 0 0 0 0 0 0 0 0 false UnknownCompression UnknownCompression Mvt
         0 0 900000000 300000000 1100000000 460000000 0 0 0)
      [mkEntryV3 212 0 1 1] = Ok h /\
    - 2 ^ 31 <= 900000000 + 1100000000 < 2 ^ 31 /\
    CenterZoom h = 2 /\ CenterLonE7 h = 1000000000 /\ CenterLatE7 h = 380000000 /\
    MinLonE7 h <= CenterLonE7 h <= MaxLonE7 h.
Proof.
  destruct (setZoomCenterDefaults digitsOfID
              (mkHeaderV3 0 0 0 0 0 0 0 0 0 0 0 false UnknownCompression
                 UnknownCompression Mvt 0 0 900000000 300000000 1100000000 460000000
                 0 0 0)
              [mkEntryV3 212 0 1 1]) as [h| |] eqn:E;
    try (vm_compute in E; discriminate).
  exists h. split; [reflexivity|]. split; [lia|].
  destruct (default_center_within_bounds digitsOfID _ _ h E)
    as (_ & (first & final & Hfirst & _ & Hmin & _) & _ & H).
  destruct H as (Hzoom & _ & _ & Hlon & Hlat); [reflexivity | reflexivity | reflexivity |].
  simpl in Hfirst. injection Hfirst as <-.
  destruct Hlon as [Hlon Hin]; [simpl; lia|].
  destruct Hlat as [Hlat _]; [simpl; lia|].
  split; [rewrite Hzoom, Hmin; reflexivity|].
  split; [rewrite Hlon; reflexivity|].
  split; [rewrite Hlat; reflexivity|].
  apply Hin. simpl. lia.
Defined.

(** ** The MBTiles adapter: the set of ids and the order of the calls *)

(** X13: on rows with tile coordinates in range the row flip is its own
    inverse and stays in range, so that the flip of pass 2 gives back the
    stored row index that pass 1 has flipped. *)
Theorem flipRow_involution (z y : Z) :
  0 <= z < 32 -> 0 <= y < 2 ^ z ->
  0 <= flipRow z y < 2 ^ z /\ flipRow z (flipRow z y) = y.
Proof.
  intros Hz Hy.
  rewrite (flipRow_in_range z y Hz Hy).
  split; [lia|].
  rewrite flipRow_in_range by lia. lia.
Qed.

Lemma flipRow_involution_witness :
  0 <= 3 < 32 /\ 0 <= 5 < 2 ^ 3 /\ flipRow 3 5 = 2 /\ flipRow 3 (flipRow 3 5) = 5.
Proof.
  assert (H1 : 0 <= 3 < 32) by lia.
  assert (H2 : 0 <= 5 < 2 ^ 3) by lia.
  split; [exact H1|]. split; [exact H2|]. split; [reflexivity|].
  exact (proj2 (flipRow_involution 3 5 H1 H2)).
Defined.

Lemma rowTileID_range (ZxyToID : Z -> Z -> Z -> Z) (row : tileRow) :
  (forall z x y, 0 <= z < 2 ^ 8 -> 0 <= x < 2 ^ 32 -> 0 <= y < 2 ^ 32 ->
     0 <= ZxyToID z x y < 2 ^ 64) ->
  0 <= rowTileID ZxyToID row < 2 ^ 64.
Proof.
  intros Hrange. unfold rowTileID. cbv zeta. apply Hrange.
  - unfold u8. apply Z.mod_pos_bound. lia.
  - apply u32_range.
  - unfold flipRow. apply u32_range.
Qed.

Lemma tilesetAdd_HdRel (x id : Z) (s : list Z) :
  HdRel Z.lt x s -> x < id -> HdRel Z.lt x (tilesetAdd id s).
Proof.
  intros Hs Hlt. destruct s as [|y s]; simpl.
  - constructor. exact Hlt.
  - inversion Hs; subst.
    destruct (id <? y); [constructor; exact Hlt|].
    destruct (id =? y); constructor; assumption.
Qed.

Lemma tilesetAdd_Sorted (id : Z) (s : list Z) :
  Sorted Z.lt s -> Sorted Z.lt (tilesetAdd id s).
Proof.
  induction 1 as [|y s Hs IH Hhd]; simpl.
  - repeat constructor.
  - destruct (Z.ltb_spec id y).
    + repeat constructor; assumption.
    + destruct (Z.eqb_spec id y).
      * constructor; assumption.
      * constructor; [exact IH|]. apply tilesetAdd_HdRel; [exact Hhd | lia].
Qed.

Lemma assembleTileset_spec (ZxyToID : Z -> Z -> Z -> Z) (rows : list tileRow) :
  StronglySorted Z.lt (assembleTileset ZxyToID rows) /\
  forall id,
    id ∈ assembleTileset ZxyToID rows <->
    exists row, row ∈ rows /\ rowTileID ZxyToID row = id.
Proof.
  unfold assembleTileset.
  assert (Hgen : forall acc,
            Sorted Z.lt acc ->
            Sorted Z.lt
              (fold_left (fun tileset r => tilesetAdd (rowTileID ZxyToID r) tileset) rows acc) /\
            forall id,
              id ∈ fold_left (fun tileset r => tilesetAdd (rowTileID ZxyToID r) tileset)
                     rows acc <->
              id ∈ acc \/ exists row, row ∈ rows /\ rowTileID ZxyToID row = id).
  { induction rows as [|r rows IH]; intros acc Hacc; simpl.
    - split; [exact Hacc|]. intros id. split; [auto|].
      intros [H | (row & Hin & _)]; [exact H | inversion Hin].
    - destruct (IH (tilesetAdd (rowTileID ZxyToID r) acc)) as [Hs Hm];
        [apply tilesetAdd_Sorted; exact Hacc|].
      split; [exact Hs|]. intros id. rewrite Hm, elem_of_tilesetAdd. split.
      + intros [[-> | H] | (row & Hin & Hid)]; [right | left | right].
        * exists r. split; [apply elem_of_cons; auto | reflexivity].
        * exact H.
        * exists row. split; [apply elem_of_cons; auto | exact Hid].
      + intros [H | (row & Hin & Hid)]; [auto|].
        apply elem_of_cons in Hin as [-> | Hin]; [auto|].
        right. exists row. auto. }
  destruct (Hgen []) as [Hs Hm]; [constructor|].
  split.
  - apply Sorted_StronglySorted; [|exact Hs]. intros a b c. apply Z.lt_trans.
  - intros id. rewrite Hm. split; [|auto].
    intros [H | H]; [inversion H | exact H].
Qed.

(** X14: the ids that pass 1 collects are in strictly ascending order,
    hence without repetition, and they are the ids of the rows. *)
Theorem assembleTileset_sorted_set (ZxyToID : Z -> Z -> Z -> Z) (rows : list tileRow) :
  StronglySorted Z.lt (assembleTileset ZxyToID rows) /\
  forall id,
    id ∈ assembleTileset ZxyToID rows <->
    exists row, row ∈ rows /\ rowTileID ZxyToID row = id.
Proof. apply assembleTileset_spec. Qed.

Section AdapterMore.

Variable hashSum : list Byte.byte -> string.
Variable gzipBest : list Byte.byte -> list Byte.byte.
Variable ZxyToID : Z -> Z -> Z -> Z.
Variable IDToZxy : Z -> Z * Z * Z.

Local Abbreviation pass2 := (writeTiles hashSum gzipBest IDToZxy).
Local Abbreviation replay := (replayEntries hashSum gzipBest).
Local Abbreviation feedBytes := (feedSpool hashSum gzipBest).
Local Abbreviation callsOf := (tileCalls IDToZxy).

(** Pass 2 is the resolver fed with the tiles that have bytes, its new
    bytes appended to the spool; the output is not touched. *)
Lemma writeTiles_feeds db fl ids : forall r w r' w',
  pass2 db fl ids r w = (Ok r', w') ->
  feedBytes r (tmpBytes w) (callsOf db ids) = Ok (r', tmpBytes w') /\
  outCreated w' = outCreated w /\ outBytes w' = outBytes w.
Proof.
  induction ids as [|id ids IH]; intros r w r' w' H; simpl in H.
  - injection H as <- <-. auto.
  - unfold tileCalls in *. simpl. unfold fetchTile at 1.
    destruct (IDToZxy id) as [[z x] y].
    destruct (dbFetchFails db z x (flipRow z y)); [discriminate|].
    destruct (selectTileData (dbTiles db) z x (flipRow z y)) as [data|]; [|discriminate].
    destruct (0 <? len data).
    + unfold mbind, M_bind, bind, lift in H. simpl.
      destruct (AddTileIsNew hashSum gzipBest r id data 1) as [[r1 [isNew newData]]| |];
        try discriminate.
      destruct isNew.
      * unfold tmpWrite in H.
        destruct (tmpWriteFails fl (len (tmpBytes w))); [discriminate|].
        apply IH in H. simpl in H. exact H.
      * apply IH in H. exact H.
    + simpl. apply IH in H. exact H.
Qed.

Lemma replayEntries_feeds a fl entries : forall r w r' w',
  replay a fl entries r w = (Ok r', w') ->
  feedBytes r (tmpBytes w) (replayCalls a entries) = Ok (r', tmpBytes w') /\
  outCreated w' = outCreated w /\ outBytes w' = outBytes w.
Proof.
  induction entries as [|e entries IH]; intros r w r' w' H; simpl in H.
  - injection H as <- <-. auto.
  - unfold replayCalls in *. simpl.
    destruct (Length e =? 0); [simpl; apply IH in H; exact H|].
    destruct (v2SeekFails a (Offset e)); [discriminate|].
    destruct (v2Read a (Offset e) (Length e)) as [buf|]; [|discriminate].
    unfold mbind, M_bind, bind, lift in H. simpl.
    destruct (AddTileIsNew hashSum gzipBest r (TileID e) buf 1)
      as [[r1 [isNew newData]]| |]; try discriminate.
    destruct isNew.
    + unfold tmpWrite in H.
      destruct (tmpWriteFails fl (len (tmpBytes w))); [discriminate|].
      apply IH in H. simpl in H. exact H.
    + apply IH in H. exact H.
Qed.

Lemma feedSpool_feed calls : forall r spool r' spool',
  feedBytes r spool calls = Ok (r', spool') ->
  feed hashSum gzipBest r calls = Ok r'.
Proof.
  induction calls as [|[[id d] rl] calls IH]; intros r spool r' spool' H; simpl in *.
  - injection H as <- <-. reflexivity.
  - destruct (AddTileIsNew hashSum gzipBest r id d rl) as [[r1 [isNew newData]]| |];
      try discriminate.
    eapply IH. exact H.
Qed.

Lemma tileCalls_typed db ids :
  Forall (fun id => 0 <= id < 2 ^ 64) ids -> Forall wellTyped (callsOf db ids).
Proof.
  unfold tileCalls. induction 1 as [|id ids Hid _ IH]; simpl; [constructor|].
  apply Forall_app. split; [|exact IH].
  destruct (fetchTile IDToZxy db id) as [data|]; [|constructor].
  destruct (0 <? len data); repeat constructor; unfold callID, callRun; simpl; lia.
Qed.

Lemma tileCalls_after db ids :
  StronglySorted Z.lt ids ->
  forall t hi,
    Forall (fun id => t < id /\ hi <= id) ids ->
    callsAfter t hi (callsOf db ids).
Proof.
  unfold tileCalls. induction 1 as [|id ids Hs IH Hall]; intros t hi Hb; simpl; [exact I|].
  inversion Hb as [|? ? [Ht Hhi] Hb']; subst.
  destruct (fetchTile IDToZxy db id) as [data|]; [|simpl; apply IH; exact Hb'].
  destruct (0 <? len data); [|simpl; apply IH; exact Hb'].
  simpl. unfold callID, callRun. simpl.
  split; [exact Ht|]. split; [exact Hhi|].
  apply IH. eapply Forall_impl; [exact Hall|]. simpl. intros; lia.
Qed.

Lemma writeTiles_order db dedup comp fl w r w' :
  (forall z x y, 0 <= z < 2 ^ 8 -> 0 <= x < 2 ^ 32 -> 0 <= y < 2 ^ 32 ->
     0 <= ZxyToID z x y < 2 ^ 64) ->
  tmpBytes w = [] ->
  pass2 db fl (assembleTileset ZxyToID (dbTiles db)) (newResolver dedup comp) w
    = (Ok r, w') ->
  ascendingTileIDs (Entries r) /\ disjointRuns (Entries r) /\
  rOffset r = u64 (len (tmpBytes w')) /\
  outCreated w' = outCreated w /\ outBytes w' = outBytes w.
Proof.
  intros Hrange Hempty H.
  destruct (writeTiles_feeds _ _ _ _ _ _ _ H) as (Hfeed & Hc & Ho).
  rewrite Hempty in Hfeed.
  pose proof (feedSpool_feed _ _ _ _ _ Hfeed) as Hf.
  destruct (assembleTileset_spec ZxyToID (dbTiles db)) as [Hs Hm].
  assert (Hids : Forall (fun id => 0 <= id < 2 ^ 64) (assembleTileset ZxyToID (dbTiles db))).
  { apply Forall_forall. intros id Hin. apply Hm in Hin as (row & _ & <-).
    apply rowTileID_range. exact Hrange. }
  pose proof (tileCalls_typed db _ Hids) as Hty.
  assert (Hafter : callsAfter (-1) 0 (callsOf db (assembleTileset ZxyToID (dbTiles db)))).
  { apply tileCalls_after; [exact Hs|].
    eapply Forall_impl; [exact Hids|]. simpl. intros; lia. }
  assert (Hinit : entriesUpTo (-1) 0 (Entries (newResolver dedup comp)))
    by (split; constructor).
  destruct (feed_entriesUpTo hashSum gzipBest _ _ _ _ _ Hinit Hty Hafter Hf)
    as (t & hi & [Hord Hb]).
  split.
  - intros i j a b Ha Hb' Hlt.
    exact (proj1 (StronglySorted_lookup before _ i j a b Hord Ha Hb' Hlt)).
  - split; [eapply entriesUpTo_disjoint; split; eassumption|].
    split; [|auto].
    destruct (feedSpool_cursor hashSum gzipBest
                (callsOf db (assembleTileset ZxyToID (dbTiles db)))
                (newResolver dedup comp) [] (locations_new dedup comp) eq_refl)
      as (r0 & spool0 & Hfb & _ & Hcur).
    rewrite Hfeed in Hfb. injection Hfb as <- <-. exact Hcur.
Qed.

(** X15: pass 2 on the id set of pass 1 calls the resolver in strictly
    increasing id order with run length 1; when it succeeds the entries
    are in strictly ascending order with runs that do not overlap, the
    cursor is the length of the spool, and the output is untouched. *)
Theorem mbtiles_pass2_keeps_order db dedup comp fl w r w' :
  (forall z x y, 0 <= z < 2 ^ 8 -> 0 <= x < 2 ^ 32 -> 0 <= y < 2 ^ 32 ->
     0 <= ZxyToID z x y < 2 ^ 64) ->
  tmpBytes w = [] ->
  pass2 db fl (assembleTileset ZxyToID (dbTiles db)) (newResolver dedup comp) w
    = (Ok r, w') ->
  ascendingTileIDs (Entries r) /\ disjointRuns (Entries r) /\
  rOffset r = u64 (len (tmpBytes w')) /\
  outCreated w' = outCreated w /\ outBytes w' = outBytes w.
Proof. apply writeTiles_order. Qed.

(** X16: the loops of the two adapters never panic: a resolver that starts
    new takes every call that they make. *)
Theorem adapter_loops_never_panic dedup comp fl w p :
  (forall db ids, fst (pass2 db fl ids (newResolver dedup comp) w) <> Crash p) /\
  (forall a entries, fst (replay a fl entries (newResolver dedup comp) w) <> Crash p).
Proof.
  split.
  - intros db ids.
    assert (Hgen : forall ids r w, locationsHaveEntries r ->
              fst (pass2 db fl ids r w) <> Crash p).
    { clear ids w. induction ids as [|id ids IH]; intros r w Inv; simpl; [discriminate|].
      destruct (IDToZxy id) as [[z x] y].
      destruct (dbFetchFails db z x (flipRow z y)); [discriminate|].
      destruct (selectTileData (dbTiles db) z x (flipRow z y)) as [data|]; [|discriminate].
      destruct (0 <? len data); [|apply IH; exact Inv].
      unfold mbind, M_bind, bind, lift.
      destruct (AddTileIsNew_returns hashSum gzipBest r id data 1 Inv)
        as (r1 & [isNew newData] & E).
      rewrite E.
      pose proof (locations_step _ _ _ _ _ _ _ _ Inv E) as Inv1.
      destruct isNew; [|apply IH; exact Inv1].
      unfold tmpWrite. destruct (tmpWriteFails fl (len (tmpBytes w))); [discriminate|].
      apply IH. exact Inv1. }
    apply Hgen. apply locations_new.
  - intros a entries.
    assert (Hgen : forall entries r w, locationsHaveEntries r ->
              fst (replay a fl entries r w) <> Crash p).
    { clear entries w. induction entries as [|e entries IH]; intros r w Inv; simpl;
        [discriminate|].
      destruct (Length e =? 0); [apply IH; exact Inv|].
      destruct (v2SeekFails a (Offset e)); [discriminate|].
      destruct (v2Read a (Offset e) (Length e)) as [buf|]; [|discriminate].
      unfold mbind, M_bind, bind, lift.
      destruct (AddTileIsNew_returns hashSum gzipBest r (TileID e) buf 1 Inv)
        as (r1 & [isNew newData] & E).
      rewrite E.
      pose proof (locations_step _ _ _ _ _ _ _ _ Inv E) as Inv1.
      destruct isNew; [|apply IH; exact Inv1].
      unfold tmpWrite. destruct (tmpWriteFails fl (len (tmpBytes w))); [discriminate|].
      apply IH. exact Inv1. }
    apply Hgen. apply locations_new.
Qed.

End AdapterMore.

(** ** The MBTiles adapter: the bytes of a tile, and empty tiles *)

Section ConvertMore.

Variable hashSum : list Byte.byte -> string.
Variable gzipBest : list Byte.byte -> list Byte.byte.
Variable json : Type.
Variable ZxyToID : Z -> Z -> Z -> Z.
Variable IDToZxy : Z -> Z * Z * Z.
Variable HeaderV3LenBytes : Z.
Variable optimizeDirectories :
  list EntryV3 -> Z -> Compression -> list Byte.byte * list Byte.byte * Z.
Variable SerializeMetadata : json -> Compression -> option (list Byte.byte).
Variable SerializeHeader : HeaderV3 -> list Byte.byte.
Variable mbtilesToHeaderJSON : list string -> result (HeaderV3 * json).

Local Abbreviation pass2 := (writeTiles hashSum gzipBest IDToZxy).
Local Abbreviation feedBytes := (feedSpool hashSum gzipBest).
Local Abbreviation callsOf := (tileCalls IDToZxy).
Local Abbreviation fetch := (fetchTile IDToZxy).
Local Abbreviation convertDB :=
  (convertMbtiles hashSum gzipBest json ZxyToID IDToZxy HeaderV3LenBytes
     optimizeDirectories SerializeMetadata SerializeHeader mbtilesToHeaderJSON).

Lemma elem_of_tileCalls db ids id data :
  id ∈ ids -> fetch db id = Some data -> 0 < len data ->
  (id, data, 1) ∈ callsOf db ids.
Proof.
  intros Hin Hf Hlen. unfold tileCalls. apply list_elem_of_In, in_flat_map.
  exists id. split; [apply list_elem_of_In; exact Hin|].
  rewrite Hf. apply Z.ltb_lt in Hlen. rewrite Hlen. left. reflexivity.
Qed.

Lemma runTotal_tileCalls db ids : 0 <= runTotal (callsOf db ids) <= len ids.
Proof.
  unfold tileCalls. induction ids as [|id ids IH]; [unfold runTotal, len; simpl; lia|].
  cbn [flat_map]. rewrite runTotal_app.
  match goal with
  | |- context [runTotal ?here + _] =>
      assert (Hone : 0 <= runTotal here <= 1)
        by (destruct (fetch db id) as [data|]; [destruct (0 <? len data)|];
            unfold runTotal, callRun; simpl; lia)
  end.
  replace (len (id :: ids)) with (1 + len ids) by (unfold len; simpl length; lia).
  lia.
Qed.

(** X17: when pass 2 succeeds on a spool that was empty, on fewer than
    [2^32] ids, with tile contents that have no digest in common, are not
    empty once stored and fit the 32-bit length and the 64-bit cursor, every
    id of the set whose row has bytes is covered by an entry, and the spool
    has the stored bytes of that row at the offset and length of the
    entry. *)
Theorem mbtiles_tiles_resolve db dedup comp fl w r w' :
  (forall z x y, 0 <= z < 2 ^ 8 -> 0 <= x < 2 ^ 32 -> 0 <= y < 2 ^ 32 ->
     0 <= ZxyToID z x y < 2 ^ 64) ->
  tmpBytes w = [] ->
  len (assembleTileset ZxyToID (dbTiles db)) < 2 ^ 32 ->
  collisionFree hashSum (callsOf db (assembleTileset ZxyToID (dbTiles db))) ->
  Forall (fun c => 0 < len (storedBytes gzipBest comp (callData c)) < 2 ^ 32)
    (callsOf db (assembleTileset ZxyToID (dbTiles db))) ->
  storedTotal gzipBest comp (callsOf db (assembleTileset ZxyToID (dbTiles db))) < 2 ^ 64 ->
  pass2 db fl (assembleTileset ZxyToID (dbTiles db)) (newResolver dedup comp) w
    = (Ok r, w') ->
  forall id data,
    id ∈ assembleTileset ZxyToID (dbTiles db) ->
    fetch db id = Some data -> 0 < len data ->
    exists e, e ∈ Entries r /\ inRun id e /\
      slice (tmpBytes w') (Offset e) (Length e) = storedBytes gzipBest comp data.
Proof.
  intros Hrange Hempty Hcount Hcoll Hsize Hstored H id data Hin Hf Hlen.
  destruct (writeTiles_feeds _ _ _ _ _ _ _ _ _ _ H) as (Hfeed & _).
  rewrite Hempty in Hfeed.
  destruct (assembleTileset_spec ZxyToID (dbTiles db)) as [Hs Hm].
  assert (Hids : Forall (fun id => 0 <= id < 2 ^ 64) (assembleTileset ZxyToID (dbTiles db))).
  { apply Forall_forall. intros i Hi. apply Hm in Hi as (row & _ & <-).
    apply rowTileID_range. exact Hrange. }
  pose proof (tileCalls_typed IDToZxy db _ Hids) as Hty.
  assert (Hafter : callsAfter (-1) 0 (callsOf db (assembleTileset ZxyToID (dbTiles db)))).
  { apply tileCalls_after; [exact Hs|].
    eapply Forall_impl; [exact Hids|]. simpl. intros; lia. }
  pose proof (runTotal_tileCalls db (assembleTileset ZxyToID (dbTiles db))) as Hrun.
  destruct (feedSpool_inv hashSum gzipBest comp _ [] (-1) 0 (newResolver dedup comp) []
              (spoolInv_new hashSum gzipBest comp dedup) Hty Hafter Hcoll Hsize Hstored)
    as (r0 & spool0 & t & hi & Hfeed0 & Hinv); [simpl; lia|].
  rewrite Hfeed in Hfeed0. injection Hfeed0 as <- <-.
  apply (inv_tiles _ _ _ _ _ _ _ _ Hinv (id, data, 1) id).
  - apply elem_of_tileCalls; assumption.
  - unfold callID, callRun. simpl. lia.
Qed.

(** The row that pass 2 fetches for the id of a row in range, when
    [IDToZxy] gives back the coordinates of that id, has the keys of the
    row. *)
Lemma fetch_row db row :
  IDToZxy (rowTileID ZxyToID row)
    = (zoom_level row, tile_column row, 2 ^ zoom_level row - 1 - tile_row row) ->
  validRow row -> row ∈ dbTiles db ->
  exists row',
    row' ∈ dbTiles db /\ fetch db (rowTileID ZxyToID row) = Some (tile_data row') /\
    zoom_level row' = zoom_level row /\ tile_column row' = tile_column row /\
    tile_row row' = tile_row row.
Proof.
  intros Hround (Hz & Hx & Hy) Hin.
  assert (Hp : 2 ^ zoom_level row <= 2 ^ 31) by (apply Z.pow_le_mono_r; lia).
  unfold fetchTile. rewrite Hround.
  rewrite flipRow_in_range by lia.
  replace (2 ^ zoom_level row - 1 - (2 ^ zoom_level row - 1 - tile_row row))
    with (tile_row row) by lia.
  unfold selectTileData.
  destruct (List.find _ (dbTiles db)) as [row'|] eqn:Hfind.
  - apply find_some in Hfind as [Hin' Hkeys].
    apply andb_true_iff in Hkeys as [Hk Hk3]. apply andb_true_iff in Hk as [Hk1 Hk2].
    apply Z.eqb_eq in Hk1, Hk2, Hk3.
    exists row'. split; [apply list_elem_of_In; exact Hin'|]. auto.
  - apply list_elem_of_In in Hin.
    pose proof (find_none _ _ Hfind row Hin) as Hkeys. simpl in Hkeys.
    rewrite !Z.eqb_refl in Hkeys. discriminate.
Qed.

Lemma writeTiles_skips db fl ids : forall r w,
  (forall z x y, dbFetchFails db z x y = false) ->
  Forall (fun id => fetch db id = Some []) ids ->
  pass2 db fl ids r w = (Ok r, w).
Proof.
  induction ids as [|id ids IH]; intros r w Hfail Hall; simpl; [reflexivity|].
  inversion Hall as [|? ? Hid Hall']; subst.
  unfold fetchTile in Hid.
  destruct (IDToZxy id) as [[z x] y].
  rewrite Hfail, Hid. simpl. apply IH; assumption.
Qed.

(** X18: a database that has tiles, all with coordinates in range, that
    [IDToZxy] gives back from their ids, and all without bytes, passes the
    emptiness check; pass 2 skips every tile, and
    the conversion creates the output and then panics on the index of
    [setZoomCenterDefaults] instead of returning an error. *)
Theorem mbtiles_of_empty_tiles_crashes db dedup fl w header jsonMetadata metadataBytes :
  Forall (fun row =>
            IDToZxy (rowTileID ZxyToID row)
            = (zoom_level row, tile_column row, 2 ^ zoom_level row - 1 - tile_row row))
    (dbTiles db) ->
  dbOpens db = true -> dbMetadataErr db = None -> dbScanErr db = None ->
  mbtilesToHeaderJSON (flattenMetadata (dbMetadata db)) = Ok (header, jsonMetadata) ->
  (forall z x y, dbFetchFails db z x y = false) ->
  dbTiles db <> [] ->
  Forall (fun row => validRow row /\ tile_data row = []) (dbTiles db) ->
  createFails fl = false ->
  SerializeMetadata jsonMetadata Gzip = Some metadataBytes ->
  convertDB db dedup fl w = (Crash IndexOutOfRange, mkWorld true [] (tmpBytes w)).
Proof.
  intros Hround Ho Hm Hs Hh Hfail Hne Hrows Hc Hmeta.
  destruct (assembleTileset_spec ZxyToID (dbTiles db)) as [_ Hset].
  unfold convertMbtiles. rewrite Ho, Hm, Hh, Hs. simpl.
  assert (Hlen : (len (assembleTileset ZxyToID (dbTiles db)) =? 0) = false).
  { destruct (dbTiles db) as [|row rows] eqn:Hd; [contradiction|].
    assert (Hin : rowTileID ZxyToID row ∈ assembleTileset ZxyToID (row :: rows))
      by (apply Hset; exists row; split; [apply elem_of_cons; auto | reflexivity]).
    destruct (assembleTileset ZxyToID (row :: rows)); [inversion Hin | reflexivity]. }
  rewrite Hlen.
  unfold mbind, M_bind, bind.
  rewrite writeTiles_skips.
  - erewrite finalize_nil; [reflexivity | reflexivity | exact Hc | exact Hmeta].
  - exact Hfail.
  - apply Forall_forall. intros id Hin.
    apply Hset in Hin as (row & Hin & <-).
    rewrite Forall_forall in Hrows, Hround. destruct (Hrows _ Hin) as [Hv _].
    destruct (fetch_row db row (Hround _ Hin) Hv Hin) as (row' & Hin' & Hf & _).
    rewrite Hf. f_equal. exact (proj2 (Hrows _ Hin')).
Qed.

End ConvertMore.

Lemma digitsToID_range (z x y : Z) :
  0 <= z < 2 ^ 8 -> 0 <= x < 2 ^ 32 -> 0 <= y < 2 ^ 32 ->
  0 <= digitsToID z x y < 2 ^ 64.
Proof. unfold digitsToID. lia. Qed.

Lemma mbtiles_pass2_keeps_order_witness :
  exists r w',
    writeTiles fnvSum framed digitsOfID twoTilesDB noFaults
      (assembleTileset digitsToID (dbTiles twoTilesDB)) (newResolver true true) noFiles
    = (Ok r, w') /\
    ascendingTileIDs (Entries r) /\ rOffset r = u64 (len (tmpBytes w')).
Proof.
  destruct (writeTiles fnvSum framed digitsOfID twoTilesDB noFaults
              (assembleTileset digitsToID (dbTiles twoTilesDB)) (newResolver true true)
              noFiles) as [[r| |] w'] eqn:E;
    try (vm_compute in E; discriminate).
  exists r, w'. split; [reflexivity|].
  destruct (mbtiles_pass2_keeps_order fnvSum framed digitsToID digitsOfID twoTilesDB
              true true noFaults noFiles r w' digitsToID_range eq_refl E)
    as (Hasc & _ & Hcur & _).
  split; assumption.
Defined.

Lemma mbtiles_tiles_resolve_witness :
  exists r w',
    writeTiles fnvSum framed digitsOfID twoTilesDB noFaults
      (assembleTileset digitsToID (dbTiles twoTilesDB)) (newResolver true true) noFiles
    = (Ok r, w') /\
    exists e, e ∈ Entries r /\ inRun 212 e /\
      slice (tmpBytes w') (Offset e) (Length e) = framed [Byte.x41].
Proof.
  destruct (writeTiles fnvSum framed digitsOfID twoTilesDB noFaults
              (assembleTileset digitsToID (dbTiles twoTilesDB)) (newResolver true true)
              noFiles) as [[r| |] w'] eqn:E;
    try (vm_compute in E; discriminate).
  exists r, w'. split; [reflexivity|].
  assert (Hcalls : tileCalls digitsOfID twoTilesDB
                     (assembleTileset digitsToID (dbTiles twoTilesDB))
                   = [(211, [Byte.x42], 1); (212, [Byte.x41], 1)])
    by (vm_compute; reflexivity).
  change (framed [Byte.x41]) with (storedBytes framed true [Byte.x41]).
  apply (mbtiles_tiles_resolve fnvSum framed digitsToID digitsOfID twoTilesDB
           true true noFaults noFiles r w' digitsToID_range eq_refl).
  - vm_compute. reflexivity.
  - rewrite Hcalls. intros c c' Hc Hc' Hh.
    repeat (apply elem_of_cons in Hc as [->|Hc]);
      repeat (apply elem_of_cons in Hc' as [->|Hc']);
      try (inversion Hc; fail); try (inversion Hc'; fail);
      try reflexivity; vm_compute in Hh; discriminate.
  - rewrite Hcalls. repeat constructor; vm_compute; reflexivity.
  - rewrite Hcalls. vm_compute. reflexivity.
  - exact E.
  - vm_compute. apply elem_of_cons. right. apply elem_of_cons. left. reflexivity.
  - vm_compute. reflexivity.
  - vm_compute. reflexivity.
Defined.

Lemma mbtiles_of_empty_tiles_crashes_witness :
  dbTiles emptyTileDB <> [] /\
  convertMbtiles fnvSum framed unit digitsToID digitsOfID 3 oneRoot bracesMetadata
    threeByteHeader (fun _ => Ok (zeroHeader, tt)) emptyTileDB true noFaults noFiles
  = (Crash IndexOutOfRange, mkWorld true [] []).
Proof.
  assert (Hne : dbTiles emptyTileDB <> []) by discriminate.
  split; [exact Hne|].
  apply (mbtiles_of_empty_tiles_crashes fnvSum framed unit digitsToID digitsOfID 3 oneRoot
           bracesMetadata threeByteHeader (fun _ => Ok (zeroHeader, tt)) emptyTileDB true
           noFaults noFiles zeroHeader tt [Byte.x7b; Byte.x7d]);
    try reflexivity; try exact Hne.
  - repeat constructor.
  - repeat constructor; simpl; lia.
Defined.

(** ** The version 2 adapter *)

Lemma tileIDLe_trans : Transitive tileIDLe.
Proof. intros a b c. unfold tileIDLe. lia. Qed.

Lemma tileIDLe_total : Total tileIDLe.
Proof. intros a b. unfold tileIDLe. lia. Qed.

Lemma sorted_distinct_strict (l : list EntryV3) :
  StronglySorted tileIDLe l -> NoDup (map TileID l) -> StronglySorted lowerID l.
Proof.
  induction 1 as [|a l Hl IH Ha]; intros Hnd; [constructor|].
  simpl in Hnd. apply NoDup_cons in Hnd as [Hnotin Hnd].
  constructor; [apply IH; exact Hnd|].
  rewrite Forall_forall in Ha |- *. intros b Hb.
  specialize (Ha b Hb). unfold tileIDLe in Ha. unfold lowerID.
  assert (TileID a <> TileID b).
  { intros Heq. apply Hnotin. rewrite Heq. apply list_elem_of_fmap_2. exact Hb. }
  lia.
Qed.

Lemma sortByTileID_strict (entries : list EntryV3) :
  NoDup (map TileID entries) -> StronglySorted lowerID (sortByTileID entries).
Proof.
  intros Hnd. apply sorted_distinct_strict.
  - unfold sortByTileID.
    apply (@StronglySorted_merge_sort _ tileIDLe _ tileIDLe_trans tileIDLe_total).
  - unfold sortByTileID.
    assert (Hp : map TileID (merge_sort tileIDLe entries) ≡ₚ map TileID entries)
      by (apply fmap_Permutation, merge_sort_Permutation).
    rewrite Hp. exact Hnd.
Qed.

Section V2More.

Variable hashSum : list Byte.byte -> string.
Variable gzipBest : list Byte.byte -> list Byte.byte.
Variable ZxyToID : Z -> Z -> Z -> Z.
Variable parseDirectoryV2 : list Byte.byte -> directoryV2.

Local Abbreviation replay := (replayEntries hashSum gzipBest).
Local Abbreviation feedBytes := (feedSpool hashSum gzipBest).
Local Abbreviation collect := (addDirectoryV2Entries ZxyToID parseDirectoryV2).
Local Abbreviation ofV2 := (entryOfV2 ZxyToID).

Lemma entryOfV2_shape (l : list (Zxy * rangeV2)) :
  Forall (fun e => RunLength e = 1 /\ 0 <= Length e < 2 ^ 32) (map ofV2 l).
Proof.
  apply Forall_forall. intros e He. apply list_elem_of_fmap in He as ([zxy rng] & -> & _).
  simpl. split; [reflexivity | apply u32_range].
Qed.

Lemma uniqueLeaves_fold (leaves : list (Zxy * rangeV2)) : forall (m : gmap Z Z),
  (forall off length,
     fold_left (fun m e => <[rngOffset (snd e) := u32 (rngLength (snd e))]> m) leaves m
       !! off = Some length ->
     m !! off = Some length \/
     exists leaf, leaf ∈ leaves /\ rngOffset (snd leaf) = off /\
                  length = u32 (rngLength (snd leaf))) /\
  (forall off,
     is_Some (m !! off) \/ (exists leaf, leaf ∈ leaves /\ rngOffset (snd leaf) = off) ->
     is_Some (fold_left (fun m e => <[rngOffset (snd e) := u32 (rngLength (snd e))]> m)
                leaves m !! off)).
Proof.
  induction leaves as [|leaf leaves IH]; intros m; simpl.
  - split; [auto|]. intros off [H|(leaf & Hin & _)]; [exact H | inversion Hin].
  - destruct (IH (<[rngOffset leaf.2 := u32 (rngLength leaf.2)]> m)) as [IH1 IH2].
    split.
    + intros off length H. destruct (IH1 off length H) as [Hm|(l & Hin & Ho & Hl)].
      * destruct (decide (rngOffset leaf.2 = off)) as [<-|Hne].
        -- rewrite lookup_insert_eq in Hm. injection Hm as <-.
           right. exists leaf. split; [left|]. auto.
        -- rewrite lookup_insert_ne in Hm by assumption. auto.
      * right. exists l. split; [right; exact Hin|]. auto.
    + intros off H. apply IH2.
      destruct (decide (rngOffset leaf.2 = off)) as [<-|Hne].
      * left. rewrite lookup_insert_eq. eauto.
      * rewrite lookup_insert_ne by assumption.
        destruct H as [H|(l & Hin & Ho)]; [auto|].
        apply elem_of_cons in Hin as [->|Hin]; [contradiction|].
        right. exists l. auto.
Qed.

(** The walk does not look at the entries it is given. *)
Lemma addDirectoryV2Entries_acc fuel : forall a dir entries,
  collect fuel a dir entries =
  match collect fuel a dir [] with
  | Some walk => Some (entries ++ walk)
  | None => None
  end.
Proof.
  induction fuel as [|fuel IH]; intros a dir entries; simpl; [reflexivity|].
  set (step := fun (acc : option (list EntryV3)) (ol : Z * Z) =>
                 match acc with
                 | None => None
                 | Some es =>
                     collect fuel a (parseDirectoryV2 (v2LeafBytes a (fst ol) (snd ol))) es
                 end).
  assert (Hfold : forall (leaves : list (Z * Z)) (acc : option (list EntryV3)),
            fold_left step leaves
              (match acc with Some w => Some (entries ++ w) | None => None end)
            = match fold_left step leaves acc with
              | Some w => Some (entries ++ w)
              | None => None
              end).
  { induction leaves as [|ol leaves IHl]; intros acc; simpl; [reflexivity|].
    rewrite <- IHl. f_equal.
    destruct acc as [w|]; simpl; [|reflexivity].
    rewrite (IH a _ (entries ++ w)), (IH a _ w).
    destruct (collect fuel a _ []) as [walk|]; [|reflexivity].
    rewrite app_assoc. reflexivity. }
  rewrite <- (Hfold _ (Some ([] ++ map ofV2 (dirEntries dir)))).
  reflexivity.
Qed.

(** X19: the walk over the directories of a version 2 archive, when it
    ends, keeps the entries it was given, puts after them the entries of
    the directory, and after these, for each offset of a leaf of the
    directory, taken once with the [uint32] length of a leaf at that
    offset, the whole walk of the directory parsed from the leaf block at
    that offset and length.  Every entry it adds has run length 1 and a
    length in the [uint32] range. *)
Theorem addDirectoryV2Entries_appends fuel a dir entries result :
  collect (S fuel) a dir entries = Some result ->
  exists parts,
    Forall2
      (fun ol part =>
         collect fuel a (parseDirectoryV2 (v2LeafBytes a (fst ol) (snd ol))) []
         = Some part)
      (map_to_list (uniqueLeaves dir)) parts /\
    result = entries ++ map ofV2 (dirEntries dir) ++ concat parts /\
    Forall (fun e => RunLength e = 1 /\ 0 <= Length e < 2 ^ 32)
      (map ofV2 (dirEntries dir) ++ concat parts) /\
    NoDup (map fst (map_to_list (uniqueLeaves dir))) /\
    (forall leaf, leaf ∈ dirLeaves dir ->
       exists length, (rngOffset (snd leaf), length) ∈ map_to_list (uniqueLeaves dir)) /\
    (forall off length, (off, length) ∈ map_to_list (uniqueLeaves dir) ->
       exists leaf, leaf ∈ dirLeaves dir /\ rngOffset (snd leaf) = off /\
                    length = u32 (rngLength (snd leaf))).
Proof.
  intros H.
  assert (Hshape : forall f d es res,
            collect f a d es = Some res ->
            exists added,
              res = es ++ added /\
              Forall (fun e => RunLength e = 1 /\ 0 <= Length e < 2 ^ 32) added).
  { clear. induction f as [|f IH]; intros d es res H; simpl in H; [discriminate|].
    assert (Hfold : forall (leaves : list (Z * Z)) acc res,
              fold_left
                (fun acc ol =>
                   match acc with
                   | None => None
                   | Some es =>
                       collect f a (parseDirectoryV2 (v2LeafBytes a (fst ol) (snd ol))) es
                   end) leaves acc = Some res ->
              exists es added,
                acc = Some es /\ res = es ++ added /\
                Forall (fun e => RunLength e = 1 /\ 0 <= Length e < 2 ^ 32) added).
    { induction leaves as [|ol leaves IHl]; intros acc res0 Hres; simpl in Hres.
      - exists res0, []. rewrite app_nil_r. repeat split; auto.
      - destruct (IHl _ _ Hres) as (es1 & added1 & Hacc1 & -> & Hall1).
        destruct acc as [es0|]; [|discriminate].
        destruct (IH _ _ _ Hacc1) as (added0 & -> & Hall0).
        exists es0, (added0 ++ added1).
        split; [reflexivity|]. split; [rewrite <- app_assoc; reflexivity|].
        apply Forall_app. split; assumption. }
    destruct (Hfold _ _ _ H) as (es0 & added & Hes & -> & Hall).
    injection Hes as <-.
    exists (map ofV2 (dirEntries d) ++ added).
    split; [rewrite <- app_assoc; reflexivity|].
    apply Forall_app. split; [apply entryOfV2_shape | exact Hall]. }
  destruct (Hshape _ _ _ _ H) as (added & Hadded & Hall).
  simpl in H. fold (uniqueLeaves dir) in H.
  assert (Hfold : forall (leaves : list (Z * Z)) es res,
            fold_left
              (fun acc ol =>
                 match acc with
                 | None => None
                 | Some es =>
                     collect fuel a (parseDirectoryV2 (v2LeafBytes a (fst ol) (snd ol))) es
                 end) leaves (Some es) = Some res ->
            exists parts,
              Forall2
                (fun ol part =>
                   collect fuel a (parseDirectoryV2 (v2LeafBytes a (fst ol) (snd ol))) []
                   = Some part) leaves parts /\
              res = es ++ concat parts).
  { clear. induction leaves as [|ol leaves IHl]; intros es res Hres; simpl in Hres.
    - injection Hres as <-. exists []. split; [constructor|].
      simpl. rewrite app_nil_r. reflexivity.
    - rewrite addDirectoryV2Entries_acc in Hres.
      destruct (collect fuel a (parseDirectoryV2 (v2LeafBytes a ol.1 ol.2)) [])
        as [part|] eqn:Epart.
      + destruct (IHl _ _ Hres) as (parts & Hparts & ->).
        exists (part :: parts). split; [constructor; assumption|].
        simpl. rewrite <- app_assoc. reflexivity.
      + exfalso. clear -Hres. induction leaves as [|x xs IHx]; simpl in Hres;
          [discriminate | auto]. }
  destruct (Hfold _ _ _ H) as (parts & Hparts & Hres).
  exists parts. split; [exact Hparts|].
  split; [rewrite Hres, <- app_assoc; reflexivity|].
  split.
  { rewrite Hres, <- app_assoc in Hadded. apply app_inv_head in Hadded.
    rewrite Hadded. exact Hall. }
  split; [apply NoDup_fst_map_to_list|].
  destruct (uniqueLeaves_fold (dirLeaves dir) ∅) as [H1 H2].
  split.
  - intros leaf Hin.
    destruct (H2 (rngOffset leaf.2)) as [length Hl]; [right; eauto|].
    exists length. apply elem_of_map_to_list. exact Hl.
  - intros off length Hin. apply elem_of_map_to_list in Hin.
    destruct (H1 off length Hin) as [Hm|Hleaf]; [|exact Hleaf].
    rewrite lookup_empty in Hm. discriminate.
Qed.

Lemma replayCalls_typed a entries :
  Forall (fun e => 0 <= TileID e < 2 ^ 64) entries ->
  Forall wellTyped (replayCalls a entries).
Proof.
  unfold replayCalls. induction 1 as [|e entries He _ IH]; simpl; [constructor|].
  apply Forall_app. split; [|exact IH].
  destruct (Length e =? 0); [constructor|].
  destruct (v2Read a (Offset e) (Length e)); repeat constructor;
    unfold callID, callRun; simpl; lia.
Qed.

Lemma replayCalls_after a entries :
  StronglySorted lowerID entries ->
  forall t hi,
    Forall (fun e => t < TileID e /\ hi <= TileID e) entries ->
    callsAfter t hi (replayCalls a entries).
Proof.
  unfold replayCalls. induction 1 as [|e entries Hs IH Hall]; intros t hi Hb; simpl;
    [exact I|].
  inversion Hb as [|? ? [Ht Hhi] Hb']; subst.
  destruct (Length e =? 0); [simpl; apply IH; exact Hb'|].
  destruct (v2Read a (Offset e) (Length e)) as [buf|]; [|simpl; apply IH; exact Hb'].
  simpl. unfold callID, callRun. simpl.
  split; [exact Ht|]. split; [exact Hhi|].
  apply IH. eapply Forall_impl; [exact Hall|]. unfold lowerID. simpl. intros; lia.
Qed.

Lemma replayEntries_order a dedup comp fl w entries r w' :
  NoDup (map TileID entries) ->
  Forall (fun e => 0 <= TileID e < 2 ^ 64) entries ->
  tmpBytes w = [] ->
  replay a fl (sortByTileID entries) (newResolver dedup comp) w = (Ok r, w') ->
  ascendingTileIDs (Entries r) /\ disjointRuns (Entries r) /\
  rOffset r = u64 (len (tmpBytes w')) /\
  outCreated w' = outCreated w /\ outBytes w' = outBytes w.
Proof.
  intros Hnd Hids Hempty H.
  destruct (replayEntries_feeds _ _ _ _ _ _ _ _ _ H) as (Hfeed & Hc & Ho).
  rewrite Hempty in Hfeed.
  pose proof (feedSpool_feed _ _ _ _ _ _ _ Hfeed) as Hf.
  pose proof (sortByTileID_strict entries Hnd) as Hs.
  pose proof (sortByTileID_Forall _ _ Hids) as Hids'.
  pose proof (replayCalls_typed a _ Hids') as Hty.
  assert (Hafter : callsAfter (-1) 0 (replayCalls a (sortByTileID entries))).
  { apply replayCalls_after; [exact Hs|].
    eapply Forall_impl; [exact Hids'|]. simpl. intros; lia. }
  assert (Hinit : entriesUpTo (-1) 0 (Entries (newResolver dedup comp)))
    by (split; constructor).
  destruct (feed_entriesUpTo hashSum gzipBest _ _ _ _ _ Hinit Hty Hafter Hf)
    as (t & hi & [Hord Hb]).
  split.
  - intros i j x y Hx Hy Hlt.
    exact (proj1 (StronglySorted_lookup before _ i j x y Hord Hx Hy Hlt)).
  - split; [eapply entriesUpTo_disjoint; split; eassumption|].
    split; [|auto].
    destruct (feedSpool_cursor hashSum gzipBest (replayCalls a (sortByTileID entries))
                (newResolver dedup comp) [] (locations_new dedup comp) eq_refl)
      as (r0 & spool0 & Hfb & _ & Hcur).
    rewrite Hfeed in Hfb. injection Hfb as <- <-. exact Hcur.
Qed.

(** X20: when no two entries of a version 2 archive have the same tile id,
    the replay of the sorted entries calls the resolver in strictly
    increasing id order with run length 1; when it succeeds the entries of
    the resolver are in strictly ascending order with runs that do not
    overlap, the cursor is the length of the spool, and the output is
    untouched. *)
Theorem v2_replay_keeps_order a dedup comp fl w entries r w' :
  NoDup (map TileID entries) ->
  Forall (fun e => 0 <= TileID e < 2 ^ 64) entries ->
  tmpBytes w = [] ->
  replay a fl (sortByTileID entries) (newResolver dedup comp) w = (Ok r, w') ->
  ascendingTileIDs (Entries r) /\ disjointRuns (Entries r) /\
  rOffset r = u64 (len (tmpBytes w')) /\
  outCreated w' = outCreated w /\ outBytes w' = outBytes w.
Proof. apply replayEntries_order. Qed.

End V2More.

Lemma addDirectoryV2Entries_appends_witness :
  exists result,
    addDirectoryV2Entries digitsToID
      (fun _ => mkDirectoryV2 [(mkZxy 1 0 0, mkRangeV2 512003 2)] []) 2 zeroLengthArchive
      (mkDirectoryV2 [(mkZxy 0 0 0, mkRangeV2 512000 3)] [(mkZxy 1 0 0, mkRangeV2 600000 10)])
      [mkEntryV3 7 512005 1 1] = Some result /\
    result =
      [mkEntryV3 7 512005 1 1] ++ [mkEntryV3 0 512000 3 1] ++ [mkEntryV3 100 512003 2 1].
Proof.
  destruct (addDirectoryV2Entries digitsToID
              (fun _ => mkDirectoryV2 [(mkZxy 1 0 0, mkRangeV2 512003 2)] []) 2
              zeroLengthArchive
              (mkDirectoryV2 [(mkZxy 0 0 0, mkRangeV2 512000 3)]
                 [(mkZxy 1 0 0, mkRangeV2 600000 10)]) [mkEntryV3 7 512005 1 1])
    as [result|] eqn:E; [|vm_compute in E; discriminate].
  exists result. split; [reflexivity|].
  destruct (addDirectoryV2Entries_appends _ _ _ _ _ _ _ E)
    as (parts & Hparts & Hres & _).
  rewrite Hres. f_equal. f_equal.
  assert (Hl : map_to_list
                 (uniqueLeaves
                    (mkDirectoryV2 [(mkZxy 0 0 0, mkRangeV2 512000 3)]
                       [(mkZxy 1 0 0, mkRangeV2 600000 10)]))
               = [(600000, 10)]).
  { unfold uniqueLeaves. simpl. rewrite insert_empty. apply map_to_list_singleton. }
  rewrite Hl in Hparts.
  inversion Hparts as [|ol part ols ps Hpart Hrest]; subst.
  inversion Hrest; subst.
  vm_compute in Hpart. injection Hpart as <-. reflexivity.
Defined.

Lemma v2_replay_keeps_order_witness :
  exists r w',
    replayEntries fnvSum framed twoTilesArchive noFaults
      (sortByTileID [mkEntryV3 212 0 1 1; mkEntryV3 100 1 1 1]) (newResolver true true)
      noFiles = (Ok r, w') /\
    ascendingTileIDs (Entries r) /\ disjointRuns (Entries r).
Proof.
  destruct (replayEntries fnvSum framed twoTilesArchive noFaults
              (sortByTileID [mkEntryV3 212 0 1 1; mkEntryV3 100 1 1 1])
              (newResolver true true) noFiles) as [[r| |] w'] eqn:E;
    try (vm_compute in E; discriminate).
  exists r, w'. split; [reflexivity|].
  destruct (v2_replay_keeps_order fnvSum framed twoTilesArchive true true noFaults noFiles
              [mkEntryV3 212 0 1 1; mkEntryV3 100 1 1 1] r w') as (Ha & Hd & _).
  - simpl. apply NoDup_cons. split; [|apply NoDup_singleton].
    intros H. apply list_elem_of_singleton in H. discriminate.
  - repeat constructor; simpl; lia.
  - reflexivity.
  - exact E.
  - split; assumption.
Defined.

(** ** The metadata of an MBTiles database *)

(** X21: the check for the format looks at the names only: it holds of the
    flattened rows exactly when a row is named "format", whatever the
    values are. *)
Theorem mbtilesMetadataHasFormat_names (rows : list (string * string)) :
  mbtilesMetadataHasFormat (flattenMetadata rows) = true <->
  exists value, ("format", value) ∈ rows.
Proof.
  induction rows as [|[name value] rows IH]; simpl.
  - split; [discriminate | intros [v H]; inversion H].
  - destruct (String.eqb_spec name "format") as [->|Hne].
    + split; [|reflexivity]. intros _. exists value. apply elem_of_cons. auto.
    + rewrite IH. split.
      * intros [v H]. exists v. apply elem_of_cons. auto.
      * intros [v H]. apply elem_of_cons in H as [H|H]; [congruence | eauto].
Qed.

Lemma pairs_ind {A} (P : list A -> Prop) :
  P [] -> (forall x, P [x]) -> (forall x y l, P l -> P (x :: y :: l)) ->
  forall l, P l.
Proof.
  intros H0 H1 H2.
  assert (Hboth : forall l, P l /\ forall x, P (x :: l)).
  { induction l as [|y l [IH1 IH2]]; [auto|]. split; [apply IH2 | auto]. }
  intros l. apply Hboth.
Qed.

Section MetadataFacts.

Variable float : Type.
Variable parseFloat : string -> option float.
Variable toE7 : float -> Z.
Variable parseInt8 : string -> option Z.
Variable V : Type.
Variable unmarshal : string -> gmap string V.

Local Abbreviation bounds := (parseBounds float parseFloat toE7).
Local Abbreviation center := (parseCenter float parseFloat toE7 parseInt8).
Local Abbreviation numberAt := (floatAt float parseFloat).
Local Abbreviation mapping :=
  (mapMetadata float parseFloat toE7 parseInt8 V unmarshal).
Local Abbreviation toHeaderJSON :=
  (mbtilesToHeaderJSON float parseFloat toE7 parseInt8 V unmarshal).

Lemma floatAt_cases parts i :
  (exists part f, parts !! i = Some part /\ parseFloat part = Some f /\
                  numberAt parts i = Done f) \/
  (exists part, parts !! i = Some part /\ parseFloat part = None /\
                numberAt parts i = Failed ErrSyntax) \/
  (parts !! i = None /\ numberAt parts i = Panicked IndexOutOfRange).
Proof.
  unfold floatAt. destruct (parts !! i) as [part|]; [|auto].
  destruct (parseFloat part) as [f|] eqn:E.
  - left. exists part, f. auto.
  - right. left. exists part. auto.
Qed.

(** X22: [parseBounds] panics exactly on a string with fewer than four
    fields between commas whose fields are all numbers; it never panics on
    four fields or more, and it succeeds only on four fields or more. *)
Theorem parseBounds_short_input (s : string) (p : panic) :
  (bounds s = Panicked p <->
   p = IndexOutOfRange /\
   (length (splitComma s EmptyString) < 4)%nat /\
   Forall (fun part => parseFloat part <> None) (splitComma s EmptyString)) /\
  (forall b, bounds s = Done b -> (4 <= length (splitComma s EmptyString))%nat).
Proof.
  unfold parseBounds, floatAt. cbv zeta.
  destruct (splitComma s EmptyString) as [|q0 [|q1 [|q2 [|q3 rest]]]]; simpl;
    repeat match goal with
           | |- context [parseFloat ?q] => destruct (parseFloat q) eqn:?
           end.
  all: split; [split|].
  all: try (intros b Hb; first [discriminate Hb | simpl; lia]).
  all: intros H;
    first
      [ discriminate H
      | injection H as <-; split; [reflexivity|]; split; [simpl; lia|];
        repeat constructor; congruence
      | destruct H as (Hp & Hlen & Hall);
        first
          [ simpl in Hlen; lia
          | repeat match goal with
                   | H : Forall _ (_ :: _) |- _ => inversion H; clear H; subst
                   end; congruence ] ].
Qed.

Lemma withBounds_fields h a b c d :
  MinLonE7 (withBounds h a b c d) = a /\ MinLatE7 (withBounds h a b c d) = b /\
  MaxLonE7 (withBounds h a b c d) = c /\ MaxLatE7 (withBounds h a b c d) = d /\
  TileType_ (withBounds h a b c d) = TileType_ h /\
  TileCompression (withBounds h a b c d) = TileCompression h.
Proof. destruct h. simpl. auto 10. Qed.

Lemma mapMetadata_keeps md : forall header jsonResult boundsSet h j b,
  headerOk header boundsSet ->
  mapping md header jsonResult boundsSet = Done (h, j, b) ->
  headerOk h b.
Proof.
  induction md as [| x | key value rest IH] using pairs_ind;
    intros header jsonResult boundsSet h j b Hok H; simpl in H.
  - injection H as <- <- <-. exact Hok.
  - discriminate.
  - destruct Hok as [Hb Hr].
    destruct (String.eqb key "format").
    { eapply IH; [|exact H]. unfold setFormat. split.
      - repeat match goal with |- context [if ?c then _ else _] => destruct c end;
          destruct header; simpl in *; exact Hb.
      - repeat match goal with |- context [if ?c then _ else _] => destruct c end;
          destruct header; simpl in *; auto; discriminate. }
    destruct (String.eqb key "bounds").
    { destruct (bounds value) as [[[[minLon minLat] maxLon] maxLat]| |]; try discriminate.
      destruct (minLon >=? maxLon) eqn:E1; [discriminate|].
      destruct (minLat >=? maxLat) eqn:E2; [discriminate|]. simpl in H.
      eapply IH; [|exact H]. unfold headerOk.
      destruct (withBounds_fields header minLon minLat maxLon maxLat)
        as (F1 & F2 & F3 & F4 & Hty & Htc).
      rewrite F1, F2, F3, F4, Hty, Htc.
      split; [intros _; lia | exact Hr]. }
    destruct (String.eqb key "center").
    { destruct (center value) as [[[clon clat] cz]| |]; try discriminate.
      eapply IH; [|exact H]. destruct header; simpl in *. split; assumption. }
    destruct (String.eqb key "json"); [eapply IH; [|exact H]; split; assumption|].
    destruct (String.eqb key "compression"); [|eapply IH; [|exact H]; split; assumption].
    eapply IH; [|exact H]. unfold setCompression. split.
    + repeat match goal with |- context [if ?c then _ else _] => destruct c end;
        destruct header; simpl in *; exact Hb.
    + destruct (String.eqb value "gzip"); [|exact Hr].
      destruct header; simpl in *.
      destruct TileType_0; simpl; auto; discriminate.
Qed.

(** X23: when [mbtilesToHeaderJSON] succeeds, whatever the rows and their
    order, the bounds of the header have a positive area, and a raster tile
    type (png, jpg, webp, avif) goes with no tile compression. *)
Theorem mbtilesToHeaderJSON_header md h j :
  toHeaderJSON md = Done (h, j) ->
  MinLonE7 h < MaxLonE7 h /\ MinLatE7 h < MaxLatE7 h /\
  (isRaster (TileType_ h) = true -> TileCompression h = NoCompression).
Proof.
  unfold mbtilesToHeaderJSON.
  destruct (mapping md zeroHeader ∅ false) as [[[h0 j0] b0]| |] eqn:E; try discriminate.
  assert (Hok : headerOk h0 b0).
  { eapply mapMetadata_keeps; [|exact E]. split; [discriminate|]. simpl. discriminate. }
  destruct Hok as [Hb Hr].
  destruct b0; intros H; injection H as <- <-.
  - destruct (Hb eq_refl). auto.
  - destruct (withBounds_fields h0 (-1800000000) (-850000000) 1800000000 850000000)
      as (F1 & F2 & F3 & F4 & Hty & Htc).
    rewrite F1, F2, F3, F4, Hty, Htc.
    split; [lia|]. split; [lia | exact Hr].
Qed.

Lemma mapMetadata_panics rows : forall header jsonResult boundsSet p,
  mapping (flattenMetadata rows) header jsonResult boundsSet = Panicked p ->
  exists value,
    (("bounds", value) ∈ rows /\ bounds value = Panicked p) \/
    (("center", value) ∈ rows /\ center value = Panicked p).
Proof.
  induction rows as [|[key value] rows IH]; intros header jsonResult boundsSet p H;
    simpl in H; [discriminate|].
  assert (Hrest : forall header' json' set',
            mapping (flattenMetadata rows) header' json' set' = Panicked p ->
            exists value0,
              (("bounds", value0) ∈ (key, value) :: rows /\ bounds value0 = Panicked p) \/
              (("center", value0) ∈ (key, value) :: rows /\ center value0 = Panicked p)).
  { intros header' json' set' H'.
    destruct (IH _ _ _ _ H') as (v & [[Hin Hp]|[Hin Hp]]); exists v; [left | right];
      (split; [apply elem_of_cons; auto | exact Hp]). }
  destruct (String.eqb key "format"); [eapply Hrest; exact H|].
  destruct (String.eqb_spec key "bounds") as [->|_].
  { destruct (bounds value) as [[[[minLon minLat] maxLon] maxLat]| |] eqn:E;
      try discriminate.
    - destruct ((minLon >=? maxLon) || (minLat >=? maxLat)); [discriminate|].
      eapply Hrest; exact H.
    - injection H as <-. exists value. left. split; [apply elem_of_cons; auto | exact E]. }
  destruct (String.eqb_spec key "center") as [->|_].
  { destruct (center value) as [[[clon clat] cz]| |] eqn:E; try discriminate.
    - eapply Hrest; exact H.
    - injection H as <-. exists value. right. split; [apply elem_of_cons; auto | exact E]. }
  destruct (String.eqb key "json"); [eapply Hrest; exact H|].
  destruct (String.eqb key "compression"); eapply Hrest; exact H.
Qed.

(** X24: on the names and values of the rows of a database
    [mbtilesToHeaderJSON] panics only in [parseBounds] or [parseCenter], on
    the value of a row named "bounds" or "center". *)
Theorem mbtilesToHeaderJSON_panics rows p :
  toHeaderJSON (flattenMetadata rows) = Panicked p ->
  exists value,
    (("bounds", value) ∈ rows /\ bounds value = Panicked p) \/
    (("center", value) ∈ rows /\ center value = Panicked p).
Proof.
  unfold mbtilesToHeaderJSON.
  destruct (mapping (flattenMetadata rows) zeroHeader ∅ false) as [[[h0 j0] b0]| |] eqn:E.
  - destruct b0; discriminate.
  - discriminate.
  - intros H. injection H as <-. eapply mapMetadata_panics. exact E.
Qed.

End MetadataFacts.

Lemma mbtilesToHeaderJSON_header_witness :
  exists h j,
    mbtilesToHeaderJSON Z digitsValue digitsE7 digitsValue unit (fun _ => ∅)
      ["compression"; "gzip"; "format"; "png"; "bounds"; "1,2,3,4"] = Done (h, j) /\
    TileType_ h = Png /\ TileCompression h = NoCompression /\
    MinLonE7 h < MaxLonE7 h.
Proof.
  destruct (mbtilesToHeaderJSON Z digitsValue digitsE7 digitsValue unit (fun _ => ∅)
              ["compression"; "gzip"; "format"; "png"; "bounds"; "1,2,3,4"])
    as [[h j]| |] eqn:E; try (vm_compute in E; discriminate).
  exists h, j. split; [reflexivity|].
  destruct (mbtilesToHeaderJSON_header Z digitsValue digitsE7 digitsValue unit
              (fun _ => ∅) _ h j E) as (Hlon & _ & Hraster).
  assert (Hty : TileType_ h = Png) by (vm_compute in E; injection E as <- _; reflexivity).
  split; [exact Hty|]. split; [|exact Hlon].
  apply Hraster. rewrite Hty. reflexivity.
Defined.

Lemma mbtilesToHeaderJSON_panics_witness :
  mbtilesToHeaderJSON Z digitsValue digitsE7 digitsValue unit (fun _ => ∅)
    (flattenMetadata [("format", "pbf"); ("bounds", "1,2")]) = Panicked IndexOutOfRange /\
  exists value,
    (("bounds", value) ∈ [("format", "pbf"); ("bounds", "1,2")] /\
     parseBounds Z digitsValue digitsE7 value = Panicked IndexOutOfRange) \/
    (("center", value) ∈ [("format", "pbf"); ("bounds", "1,2")] /\
     parseCenter Z digitsValue digitsE7 digitsValue value = Panicked IndexOutOfRange).
Proof.
  assert (H : mbtilesToHeaderJSON Z digitsValue digitsE7 digitsValue unit (fun _ => ∅)
                (flattenMetadata [("format", "pbf"); ("bounds", "1,2")])
              = Panicked IndexOutOfRange) by (vm_compute; reflexivity).
  split; [exact H|].
  exact (mbtilesToHeaderJSON_panics Z digitsValue digitsE7 digitsValue unit (fun _ => ∅)
           [("format", "pbf"); ("bounds", "1,2")] IndexOutOfRange H).
Defined.

(** ** The conversions as a whole *)

Section Conversions.

Variable hashSum : list Byte.byte -> string.
Variable gzipBest : list Byte.byte -> list Byte.byte.
Variable json : Type.
Variable ZxyToID : Z -> Z -> Z -> Z.
Variable IDToZxy : Z -> Z * Z * Z.
Variable HeaderV3LenBytes : Z.
Variable optimizeDirectories :
  list EntryV3 -> Z -> Compression -> list Byte.byte * list Byte.byte * Z.
Variable SerializeMetadata : json -> Compression -> option (list Byte.byte).
Variable SerializeHeader : HeaderV3 -> list Byte.byte.
Variable mbtilesToHeaderJSON : list string -> result (HeaderV3 * json).

Local Abbreviation convertDB :=
  (convertMbtiles hashSum gzipBest json ZxyToID IDToZxy HeaderV3LenBytes
     optimizeDirectories SerializeMetadata SerializeHeader mbtilesToHeaderJSON).
Local Abbreviation directories es :=
  (optimizeDirectories es (16384 - HeaderV3LenBytes) Gzip).

(** X25: when the conversion of an MBTiles database succeeds on a spool that
    was empty, the resolver that it hands to [finalize] has at least one
    entry, and its entries are in strictly ascending order with runs that do
    not overlap; the output is the header, the directories that the
    optimizer makes of these entries, the metadata and the spool, and the
    header records the number of entries and, as the length of the tile
    data, the length of the spool. *)
Theorem mbtiles_conversion_output db dedup fl w w' :
  (forall z x y, 0 <= z < 2 ^ 8 -> 0 <= x < 2 ^ 32 -> 0 <= y < 2 ^ 32 ->
     0 <= ZxyToID z x y < 2 ^ 64) ->
  tmpBytes w = [] ->
  convertDB db dedup fl w = (Ok tt, w') ->
  exists r h metadataBytes,
    Entries r <> [] /\
    ascendingTileIDs (Entries r) /\ disjointRuns (Entries r) /\
    outBytes w' =
      SerializeHeader h ++ fst (fst (directories (Entries r))) ++ metadataBytes
        ++ snd (fst (directories (Entries r))) ++ tmpBytes w' /\
    TileEntriesCount h = u64 (len (Entries r)) /\
    TileDataLength h = u64 (len (tmpBytes w')) /\
    Clustered h = true.
Proof.
  intros Hrange Hempty. unfold convertMbtiles.
  destruct (dbOpens db); [|discriminate]. simpl.
  destruct (dbMetadataErr db); [discriminate|].
  destruct (mbtilesToHeaderJSON _) as [[header jsonMetadata]| |]; try discriminate.
  destruct (dbScanErr db); [discriminate|].
  destruct (len (assembleTileset ZxyToID (dbTiles db)) =? 0); [discriminate|].
  unfold mbind, M_bind, bind.
  destruct (writeTiles hashSum gzipBest IDToZxy db fl
              (assembleTileset ZxyToID (dbTiles db))
              (newResolver dedup (isMvt (TileType_ header))) w) as [[r| |] w1] eqn:E1;
    try discriminate.
  destruct (finalize json IDToZxy HeaderV3LenBytes optimizeDirectories SerializeMetadata
              SerializeHeader fl r header jsonMetadata w1) as [[h| |] w2] eqn:E2;
    try discriminate.
  intros H. injection H as <-.
  destruct (writeTiles_order _ _ _ _ _ _ _ _ _ _ _ Hrange Hempty E1)
    as (Hasc & Hdis & Hcur & _).
  destruct (finalize_sections _ _ _ _ _ _ _ _ _ _ _ _ _ E2)
    as (metadataBytes & _ & _ & Htmp & Hout & _ & _ & _ & _ & _ & _ & _ & Htl & _ & He & _
        & Hcl & _).
  exists r, h, metadataBytes.
  split.
  { intros Hnil.
    destruct (finalize_Ok _ _ _ _ _ _ _ _ _ _ _ _ _ E2) as (mb & h0 & _ & Hz & _).
    rewrite Hnil in Hz. discriminate. }
  rewrite Htmp. repeat split; try assumption. congruence.
Qed.

End Conversions.

Lemma mbtiles_conversion_output_witness :
  exists w' r h metadataBytes,
    convertMbtiles fnvSum framed unit digitsToID digitsOfID 3 oneRoot bracesMetadata
      threeByteHeader (fun _ => Ok (zeroHeader, tt)) twoTilesDB true noFaults noFiles
    = (Ok tt, w') /\
    Entries r <> [] /\
    ascendingTileIDs (Entries r) /\ disjointRuns (Entries r) /\
    outBytes w' =
      threeByteHeader h ++ fst (fst (oneRoot (Entries r) (16384 - 3) Gzip))
        ++ metadataBytes ++ snd (fst (oneRoot (Entries r) (16384 - 3) Gzip))
        ++ tmpBytes w' /\
    TileEntriesCount h = u64 (len (Entries r)) /\
    TileDataLength h = u64 (len (tmpBytes w')) /\
    Clustered h = true.
Proof.
  destruct (convertMbtiles fnvSum framed unit digitsToID digitsOfID 3 oneRoot
              bracesMetadata threeByteHeader (fun _ => Ok (zeroHeader, tt)) twoTilesDB
              true noFaults noFiles) as [[[]| |] w'] eqn:E;
    try (vm_compute in E; discriminate).
  destruct (mbtiles_conversion_output fnvSum framed unit digitsToID digitsOfID 3 oneRoot
              bracesMetadata threeByteHeader (fun _ => Ok (zeroHeader, tt)) twoTilesDB
              true noFaults noFiles w' digitsToID_range eq_refl E)
    as (r & h & metadataBytes & H).
  exists w', r, h, metadataBytes. split; [reflexivity | exact H].
Defined.

Section V2Conversion.

Variable hashSum : list Byte.byte -> string.
Variable gzipBest : list Byte.byte -> list Byte.byte.
Variable json : Type.
Variable ZxyToID : Z -> Z -> Z -> Z.
Variable IDToZxy : Z -> Z * Z * Z.
Variable HeaderV3LenBytes : Z.
Variable optimizeDirectories :
  list EntryV3 -> Z -> Compression -> list Byte.byte * list Byte.byte * Z.
Variable SerializeMetadata : json -> Compression -> option (list Byte.byte).
Variable SerializeHeader : HeaderV3 -> list Byte.byte.
Variable parseHeaderV2 : list Byte.byte -> list Byte.byte * directoryV2.
Variable parseDirectoryV2 : list Byte.byte -> directoryV2.
Variable v2ToHeaderJSON : list Byte.byte -> list Byte.byte -> result (HeaderV3 * json).

Local Abbreviation convertV2 :=
  (convertPmtilesV2 hashSum gzipBest json ZxyToID IDToZxy HeaderV3LenBytes
     optimizeDirectories SerializeMetadata SerializeHeader parseHeaderV2
     parseDirectoryV2 v2ToHeaderJSON).
Local Abbreviation collect := (addDirectoryV2Entries ZxyToID parseDirectoryV2).
Local Abbreviation directories es :=
  (optimizeDirectories es (16384 - HeaderV3LenBytes) Gzip).

(** X26: when the entries collected from a version 2 archive have tile ids
    in the [uint64] range, no two of them the same, and the conversion
    succeeds on a spool that was empty, the resolver has at least one entry,
    its entries are in strictly ascending order with runs that do not
    overlap, the output is the header, the root directory, the metadata,
    the leaf directories and the spool, and the header records the number
    of entries and the length of the spool. *)
Theorem v2_conversion_output fuel a dedup fl w w' entries :
  collect fuel a (snd (parseHeaderV2 (v2Buffer a))) [] = Some entries ->
  NoDup (map TileID entries) ->
  Forall (fun e => 0 <= TileID e < 2 ^ 64) entries ->
  tmpBytes w = [] ->
  convertV2 fuel a dedup fl w = Some (Ok tt, w') ->
  exists r h metadataBytes,
    Entries r <> [] /\
    ascendingTileIDs (Entries r) /\ disjointRuns (Entries r) /\
    outBytes w' =
      SerializeHeader h ++ fst (fst (directories (Entries r))) ++ metadataBytes
        ++ snd (fst (directories (Entries r))) ++ tmpBytes w' /\
    TileEntriesCount h = u64 (len (Entries r)) /\
    TileDataLength h = u64 (len (tmpBytes w')) /\
    Clustered h = true.
Proof.
  intros Hcollect Hnd Hids Hempty. unfold convertPmtilesV2.
  destruct (v2Opens a); [|discriminate]. simpl.
  destruct (isVersion3 (v2Buffer a)); [discriminate|].
  destruct (parseHeaderV2 (v2Buffer a)) as [v2JsonBytes dir]. simpl in Hcollect.
  destruct (v2First4 a) as [first4|]; [|discriminate].
  destruct (v2ToHeaderJSON v2JsonBytes first4) as [[header jsonMetadata]| |];
    try discriminate.
  rewrite Hcollect.
  unfold mbind, M_bind, bind.
  destruct (replayEntries hashSum gzipBest a fl (sortByTileID entries)
              (newResolver dedup (isMvt (TileType_ header))) w) as [[r| |] w1] eqn:E1;
    try discriminate.
  destruct (finalize json IDToZxy HeaderV3LenBytes optimizeDirectories SerializeMetadata
              SerializeHeader fl r header jsonMetadata w1) as [[h| |] w2] eqn:E2;
    try discriminate.
  intros H. injection H as <-.
  destruct (replayEntries_order _ _ _ _ _ _ _ _ _ _ Hnd Hids Hempty E1)
    as (Hasc & Hdis & Hcur & _).
  destruct (finalize_sections _ _ _ _ _ _ _ _ _ _ _ _ _ E2)
    as (metadataBytes & _ & _ & Htmp & Hout & _ & _ & _ & _ & _ & _ & _ & Htl & _ & He & _
        & Hcl & _).
  exists r, h, metadataBytes.
  split.
  { intros Hnil.
    destruct (finalize_Ok _ _ _ _ _ _ _ _ _ _ _ _ _ E2) as (mb & h0 & _ & Hz & _).
    rewrite Hnil in Hz. discriminate. }
  rewrite Htmp. repeat split; try assumption. congruence.
Qed.

End V2Conversion.

Lemma v2_conversion_output_witness :
  exists w' r h metadataBytes,
    convertPmtilesV2 fnvSum framed unit digitsToID digitsOfID 3 oneRoot bracesMetadata
      threeByteHeader
      (fun _ => ([], mkDirectoryV2 [(mkZxy 2 1 2, mkRangeV2 0 1);
                                    (mkZxy 1 0 0, mkRangeV2 1 1)] []))
      (fun _ => mkDirectoryV2 [] []) (fun _ _ => Ok (zeroHeader, tt))
      1 twoTilesArchive true noFaults noFiles
    = Some (Ok tt, w') /\
    Entries r <> [] /\
    ascendingTileIDs (Entries r) /\ disjointRuns (Entries r) /\
    outBytes w' =
      threeByteHeader h ++ fst (fst (oneRoot (Entries r) (16384 - 3) Gzip))
        ++ metadataBytes ++ snd (fst (oneRoot (Entries r) (16384 - 3) Gzip))
        ++ tmpBytes w' /\
    TileEntriesCount h = u64 (len (Entries r)) /\
    TileDataLength h = u64 (len (tmpBytes w')) /\
    Clustered h = true.
Proof.
  destruct (convertPmtilesV2 fnvSum framed unit digitsToID digitsOfID 3 oneRoot
              bracesMetadata threeByteHeader
              (fun _ => ([], mkDirectoryV2 [(mkZxy 2 1 2, mkRangeV2 0 1);
                                            (mkZxy 1 0 0, mkRangeV2 1 1)] []))
              (fun _ => mkDirectoryV2 [] []) (fun _ _ => Ok (zeroHeader, tt))
              1 twoTilesArchive true noFaults noFiles) as [[[[]| |] w']|] eqn:E;
    try (vm_compute in E; discriminate).
  destruct (v2_conversion_output fnvSum framed unit digitsToID digitsOfID 3 oneRoot
              bracesMetadata threeByteHeader
              (fun _ => ([], mkDirectoryV2 [(mkZxy 2 1 2, mkRangeV2 0 1);
                                            (mkZxy 1 0 0, mkRangeV2 1 1)] []))
              (fun _ => mkDirectoryV2 [] []) (fun _ _ => Ok (zeroHeader, tt))
              1 twoTilesArchive true noFaults noFiles w'
              [mkEntryV3 212 0 1 1; mkEntryV3 100 1 1 1])
    as (r & h & metadataBytes & H).
  - reflexivity.
  - simpl. apply NoDup_cons. split; [|apply NoDup_singleton].
    intros H. apply list_elem_of_singleton in H. discriminate.
  - repeat constructor; simpl; lia.
  - reflexivity.
  - exact E.
  - exists w', r, h, metadataBytes. split; [reflexivity | exact H].
Defined.
